(** * The matching-problem plugin: studio editor and submission renderer

    A shallow embedding of the two browser scripts of the plugin,

    - the studio script ([studio_init_template_matching],
      [studio_create_matching_question], [studio_delete_matching_question]),
    - the task script ([load_input_matching]),

    over a small model of the page they act on: the document is a tree of
    elements, a jQuery object is a list of references into it, and every
    jQuery call of the scripts is a function on that tree.

    Problem identifiers and field keys are the identifiers of the host
    (letters, digits, [_] and [-]).  On those a selector [#x] is the lookup
    of the id [x], and a replacement string holds no [$] pattern. *)

From stdpp Require Import base list strings pretty sorting.
From Stdlib Require Import ZArith Lia Ascii.

Local Set Warnings "-register-all".

(** ** Strings *)

Module Str.

(** [prefix p s]: [s] starts with [p]. *)
Fixpoint prefix (p s : string) : bool :=
  match p, s with
  | EmptyString, _ => true
  | String a p', String b s' => if decide (a = b) then prefix p' s' else false
  | String _ _, EmptyString => false
  end.

Fixpoint drop (n : nat) (s : string) : string :=
  match n, s with
  | S n', String _ s' => drop n' s'
  | _, _ => s
  end.

(** [s.replace(/pat/g, rep)] for a literal pattern: the matches are taken
    from left to right and do not overlap.  [skip] counts the characters of
    the current match that are still to be passed over. *)
Fixpoint replace_go (pat rep : string) (skip : nat) (s : string) : string :=
  match s with
  | EmptyString => EmptyString
  | String c s' =>
      match skip with
      | S k => replace_go pat rep k s'
      | O =>
          if prefix pat s
          then rep +:+ replace_go pat rep (String.length pat - 1) s'
          else String c (replace_go pat rep 0 s')
      end
  end.

Definition replace_all (pat rep s : string) : string := replace_go pat rep 0 s.

(** [occurs_in pat s]: [pat] is a substring of [s]. *)
Fixpoint occurs_in (pat s : string) : bool :=
  prefix pat s ||
  match s with
  | EmptyString => false
  | String _ s' => occurs_in pat s'
  end.

(** The characters of a string. *)
Fixpoint chars (s : string) : list ascii :=
  match s with
  | EmptyString => []
  | String c s' => c :: chars s'
  end.

(** [rep] can stand for [pat] without creating the pattern anew: it is not
    empty and shares no character with it. *)
Definition apart (pat rep : string) : Prop :=
  rep ≠ "" ∧ ∀ c, c ∈ chars rep → c ∉ chars pat.

Definition digit (c : ascii) : Prop := is_Some (Ascii.is_nat c).

End Str.

(** ** JavaScript values

    The values of the JSON payloads the scripts receive.  An object is the
    list of its own fields, in order. *)

Inductive value : Type :=
| VUndefined
| VNull
| VBool (b : bool)
| VNum (n : Z)
| VStr (s : string)
| VArr (items : list value)
| VObj (fields : list (string * value)).

Module Js.

Fixpoint assoc {A} (k : string) (fs : list (string * A)) : option A :=
  match fs with
  | [] => None
  | (k', v) :: fs' => if decide (k' = k) then Some v else assoc k fs'
  end.

(** The array indices below [n], as property names. *)
Definition index_names (n : nat) : list string := (λ i : nat, pretty i) <$> seq 0 n.

(** The members every object inherits from [Object.prototype], and those an
    array inherits from [Array.prototype] (ECMAScript 2023) besides. *)
Definition object_members : list string :=
  ["constructor"; "__defineGetter__"; "__defineSetter__"; "hasOwnProperty";
   "__lookupGetter__"; "__lookupSetter__"; "isPrototypeOf"; "propertyIsEnumerable";
   "toString"; "valueOf"; "__proto__"; "toLocaleString"].

Definition array_members : list string :=
  ["at"; "concat"; "copyWithin"; "fill"; "find"; "findIndex"; "findLast";
   "findLastIndex"; "lastIndexOf"; "pop"; "push"; "reverse"; "shift"; "unshift";
   "slice"; "sort"; "splice"; "includes"; "indexOf"; "join"; "keys"; "entries";
   "values"; "forEach"; "filter"; "flat"; "flatMap"; "map"; "every"; "some";
   "reduce"; "reduceRight"; "toReversed"; "toSorted"; "toSpliced"; "with"].

(** [k in v]: [k] is a field of [v] or a member [v] inherits; [None] is the
    TypeError raised when [v] is not an object. *)
Definition has_key (k : string) (v : value) : option bool :=
  match v with
  | VObj fs => Some (bool_decide (is_Some (assoc k fs)) || bool_decide (k ∈ object_members))
  | VArr items =>
      Some (bool_decide (k = "length") || bool_decide (k ∈ index_names (length items))
            || bool_decide (k ∈ array_members) || bool_decide (k ∈ object_members))
  | _ => None
  end.

(** [k in v] holds (and raises nothing). *)
Definition present (k : string) (v : value) : bool :=
  match has_key k v with
  | Some b => b
  | None => false
  end.

(** [v[k]] on an object or an array: the field, or [undefined] for a missing
    one.  The prototype read through [__proto__] is an object without fields
    for an object and an empty array for an array.  Any other inherited
    member is a function, which is no value of a payload; the scripts read
    under a key they do not fix only to call [entries()] on the result, which
    raises on a function as it does on [undefined], and the model gives
    [undefined] for it. *)
Definition get_prop (k : string) (v : value) : value :=
  match v with
  | VObj fs =>
      match assoc k fs with
      | Some x => x
      | None => if decide (k = "__proto__") then VObj [] else VUndefined
      end
  | VArr items =>
      if decide (k = "length") then VNum (Z.of_nat (length items))
      else if decide (k = "__proto__") then VArr []
      else default VUndefined
             (list_find (λ ix : string * value, ix.1 = k)
                (imap (λ (i : nat) x, (pretty i, x)) items) ≫= λ r, Some r.2.2)
  | _ => VUndefined
  end.

Definition is_object (v : value) : bool :=
  match v with
  | VObj _ => true
  | _ => false
  end.

(** The conversion to boolean of an [if]. *)
Definition truthy (v : value) : bool :=
  match v with
  | VUndefined | VNull => false
  | VBool b => b
  | VNum n => negb (n =? 0)%Z
  | VStr s => negb (bool_decide (s = ""))
  | VArr _ | VObj _ => true
  end.

(** The number a string of decimal digits stands for. *)
Definition digits_value (k : string) : option N :=
  foldl (λ acc c, n ← acc; d ← Ascii.is_nat c; Some (10 * n + N.of_nat d)%N) (Some 0%N)
        (Str.chars k).

(** The array index a property name stands for, if it is one: the name is
    the decimal form of a number below [2^32 - 1]. *)
Definition index_key (k : string) : option N :=
  n ← digits_value k;
  if bool_decide (pretty n = k) && bool_decide (n < 4294967295)%N then Some n else None.

(** The names of the fields of an object, each once, in the order the
    fields were made. *)
Fixpoint field_names (seen : list string) (fs : list (string * value)) : list string :=
  match fs with
  | [] => []
  | (k, _) :: fs' =>
      if decide (k ∈ seen) then field_names seen fs' else k :: field_names (k :: seen) fs'
  end.

(** Names that are array indices, by ascending index. *)
Definition index_le (x y : N * string) : Prop := (x.1 ≤ y.1)%N.

#[global] Instance index_le_dec : RelDecision index_le.
Proof. intros x y. unfold index_le. apply _. Defined.

(** The order in which [for (k in obj)] visits the fields of an object: the
    array indices in ascending order, then the other names in the order the
    fields were made. *)
Definition for_in_names (fs : list (string * value)) : list string :=
  let names := field_names [] fs in
  (merge_sort index_le (omap (λ k, (λ n, (n, k)) <$> index_key k) names)).*2
  ++ filter (λ k, index_key k = None) names.

(** jQuery's test of array-likeness on an object with the fields [fs]: the
    number of elements to visit by index, if the object is array-like.  It is
    when its [length] is [0], or a positive number [n] with [n - 1] among its
    fields. *)
Definition array_like (fs : list (string * value)) : option nat :=
  match assoc "length" fs with
  | Some (VNum n) =>
      if bool_decide (n = 0)%Z then Some 0
      else if bool_decide (0 < n)%Z
              && bool_decide (is_Some (assoc (pretty (Z.to_N (n - 1))) fs))
      then Some (Z.to_nat n)
      else None
  | _ => None
  end.

(** The elements [jQuery.each(v, f)] passes to [f], in order: those of an
    array; for an array-like object, what it has at each index below its
    length; for another object, its field values in the order of [for-in];
    none for a falsy value.  A truthy primitive makes jQuery's test of
    array-likeness raise a TypeError. *)
Definition each_items (v : value) : option (list value) :=
  match v with
  | VArr items => Some items
  | VObj fs =>
      match array_like fs with
      | Some n => Some ((λ i : nat, get_prop (pretty i) v) <$> seq 0 n)
      | None => Some ((λ k, get_prop k v) <$> for_in_names fs)
      end
  | _ => if truthy v then None else Some []
  end.

(** [v.entries()], then iterated by [for ... of]: the indexed elements of an
    array; anything else has no callable [entries] and raises a TypeError. *)
Definition entries (v : value) : option (list (nat * value)) :=
  match v with
  | VArr items => Some (imap (λ i x, (i, x)) items)
  | _ => None
  end.

End Js.

(** ** The document *)

Definition attr : Type := string * string.

(** An element carries its tag (in lower case), its attributes, the value a
    form control was last given through [.val(...)] ([None]: the value its
    markup gave it), and its child nodes. *)
Inductive node : Type :=
| Text (s : string)
| Elem (tag : string) (attrs : list attr) (val : option value) (kids : list node).

Definition path : Type := list nat.

Module Dom.

Definition attr_get (name : string) (a : list attr) : option string := Js.assoc name a.

Fixpoint attr_set (name v : string) (a : list attr) : list attr :=
  match a with
  | [] => [(name, v)]
  | (n, w) :: a' => if decide (n = name) then (n, v) :: a' else (n, w) :: attr_set name v a'
  end.

Definition kids_of (n : node) : list node :=
  match n with
  | Text _ => []
  | Elem _ _ _ ks => ks
  end.

Definition attrs_of (n : node) : list attr :=
  match n with
  | Text _ => []
  | Elem _ a _ _ => a
  end.

Definition val_of (n : node) : option value :=
  match n with
  | Text _ => None
  | Elem _ _ v _ => v
  end.

Definition id_of (n : node) : option string := attr_get "id" (attrs_of n).

Definition is_elem (n : node) : bool :=
  match n with
  | Text _ => false
  | Elem _ _ _ _ => true
  end.

(** The node at a path below [n]; the empty path is [n] itself. *)
Fixpoint get (p : path) (n : node) : option node :=
  match p with
  | [] => Some n
  | i :: p' =>
      match kids_of n !! i with
      | Some k => get p' k
      | None => None
      end
  end.

(** Apply [f] to the node at path [p]. *)
Fixpoint alter_at (f : node → node) (p : path) (n : node) : node :=
  match p with
  | [] => f n
  | i :: p' =>
      match n with
      | Text s => Text s
      | Elem t a v ks => Elem t a v (alter (alter_at f p') i ks)
      end
  end.

(** Remove the node at path [p] (the root itself cannot be removed). *)
Fixpoint remove_at (p : path) (n : node) : node :=
  match p, n with
  | [i], Elem t a v ks => Elem t a v (delete i ks)
  | i :: p', Elem t a v ks => Elem t a v (alter (remove_at p') i ks)
  | _, _ => n
  end.

Definition add_kid (k : node) (n : node) : node :=
  match n with
  | Text s => Text s
  | Elem t a v ks => Elem t a v (ks ++ [k])
  end.

Definition set_val (x : value) (n : node) : node :=
  match n with
  | Text s => Text s
  | Elem t a _ ks => Elem t a (Some x) ks
  end.

Definition set_attr (name v : string) (n : node) : node :=
  match n with
  | Text s => Text s
  | Elem t a x ks => Elem t (attr_set name v a) x ks
  end.

(** The node without its children, and the tree without the values given to
    its controls (what its markup shows). *)
Definition own (n : node) : node :=
  match n with
  | Text s => Text s
  | Elem t a v _ => Elem t a v []
  end.

Fixpoint strip (n : node) : node :=
  match n with
  | Text s => Text s
  | Elem t a _ ks => Elem t a None (strip <$> ks)
  end.

(** The ids of the elements of a tree, in document order. *)
Fixpoint ids (n : node) : list string :=
  match n with
  | Text _ => []
  | Elem _ a _ ks => option_list (attr_get "id" a) ++ mjoin (ids <$> ks)
  end.

(** Number of elements of a tree. *)
Fixpoint size (n : node) : nat :=
  match n with
  | Text _ => 0
  | Elem _ _ _ ks => S (foldr (λ k acc, size k + acc) 0 ks)
  end.

End Dom.

(** ** Selectors *)

Inductive selector : Type :=
| ById (id : string)                (* [#id] *)
| ByClass (c : string)              (* [.c] *)
| ByTagId (tag id : string).        (* [tag[id='id']] *)

Module Sel.

Definition matches (s : selector) (n : node) : bool :=
  match n with
  | Text _ => false
  | Elem t a _ _ =>
      match s with
      | ById id => bool_decide (Dom.attr_get "id" a = Some id)
      | ByClass c => bool_decide (c ∈ String.words (default "" (Dom.attr_get "class" a)))
      | ByTagId tag id => bool_decide (t = tag) && bool_decide (Dom.attr_get "id" a = Some id)
      end
  end.

(** The paths [f] gives for each child, each below the index of its child:
    the children are numbered from [i]. *)
Definition kids_paths (f : node → list path) : nat → list node → list path :=
  fix go (i : nat) (ks : list node) : list path :=
    match ks with
    | [] => []
    | k :: ks' => ((i ::.) <$> f k) ++ go (S i) ks'
    end.

(** All the elements of the tree that match [s], the root included, as paths
    from the root, in document order. *)
Fixpoint all (s : selector) (n : node) : list path :=
  (if matches s n then [[]] else []) ++
  match n with
  | Text _ => []
  | Elem _ _ _ ks => kids_paths (all s) 0 ks
  end.

(** The descendants of [n] that match [s]. *)
Definition descendants (s : selector) (n : node) : list path :=
  kids_paths (all s) 0 (Dom.kids_of n).

End Sel.

(** ** The page state and the effects of a script *)

(** A reference to an element: in the document, or inside a row that was
    built but found no container to be appended to. *)
Inductive ref : Type :=
| InDoc (p : path)
| InLoose (p : path).

(** An editor of the host's rich-text widget: the element it was made on,
    its mode, its number of lines and the value it was given, if any.  The
    state keeps the editors created so far. *)
Record editor : Type := Editor {
  ed_target : ref;
  ed_mode : string;
  ed_lines : Z;
  ed_value : option value
}.

Record state : Type := State {
  dom : node;
  editors : list editor
}.

Inductive outcome (A : Type) : Type :=
| Done (a : A)
| Thrown          (* an uncaught TypeError *)
| Diverged.       (* a loop that does not end *)
Arguments Done {A} a.
Arguments Thrown {A}.
Arguments Diverged {A}.

Definition M (A : Type) : Type := state → state * outcome A.

#[global] Instance M_ret : MRet M := λ A a s, (s, Done a).
#[global] Instance M_bind : MBind M := λ A B f m s,
  match m s with
  | (s', Done a) => f a s'
  | (s', Thrown) => (s', Thrown)
  | (s', Diverged) => (s', Diverged)
  end.

Definition throw {A} : M A := λ s, (s, Thrown).
Definition diverge {A} : M A := λ s, (s, Diverged).
Definition get_dom : M node := λ s, (s, Done (dom s)).
Definition modify_dom (f : node → node) : M unit :=
  λ s, (State (f (dom s)) (editors s), Done ()).

(** Lift a JavaScript operation that may raise. *)
Definition raising {A} (o : option A) : M A :=
  match o with
  | Some a => mret a
  | None => throw
  end.

Fixpoint for_each {A} (l : list A) (f : A → M unit) : M unit :=
  match l with
  | [] => mret ()
  | x :: l' => f x ;; for_each l' f
  end.

(** Modelled from the spec: the rich-text editor of the host, a factory
    [createEditor(targetElement, mode, singleLineFlag) -> EditorHandle] that
    fails fast when the target element is absent, and whose
    [EditorHandle.setValue(text)] loads the displayed content.  These are
    [registerCodeEditor(target, mode, lines)] and [handle.setValue(v)]; a
    handle is a position in the list of editors. *)
Definition registerCodeEditor (target : option ref) (mode : string) (lines : Z) : M nat :=
  match target with
  | None => throw
  | Some r => λ s,
      (State (dom s) (editors s ++ [Editor r mode lines None]), Done (length (editors s)))
  end.

Definition setValue (h : nat) (v : value) : M unit := λ s,
  (State (dom s)
     (alter (λ e, Editor (ed_target e) (ed_mode e) (ed_lines e) (Some v)) h (editors s)),
   Done ()).

(** ** jQuery on the document *)

Module Jq.

(** [$("#id")]: the first element of the document with that id, if any. *)
Definition by_id (id : string) (d : node) : list path := take 1 (Sel.all (ById id) d).

(** [$(sel, ctx)]: the descendants of the elements of [ctx] that match. *)
Definition find_in (ctx : list path) (sel : selector) (d : node) : list path :=
  p ← ctx; k ← option_list (Dom.get p d); (p ++.) <$> Sel.descendants sel k.

(** [$("#id", ctx)]: the same for an id alone.  When the first element of
    the document with the id lies in the context, jQuery stops at it; it
    takes every descendant of the context with the id otherwise. *)
Definition find_id (ctx : list path) (id : string) (d : node) : list path :=
  c ← ctx;
  let found := find_in [c] (ById id) d in
  if bool_decide (head (Sel.all (ById id) d) = head found) then take 1 found else found.

(** [$(".c sel")]: the elements matching [sel] below an element of class [c]. *)
Definition below_class (c : string) (sel : selector) (d : node) : list path :=
  find_in (Sel.all (ByClass c) d) sel d.

(** [.val(v)] and [.attr(name, v)] on every element of the object. *)
Definition val (ps : list path) (v : value) (d : node) : node :=
  foldl (λ d p, Dom.alter_at (Dom.set_val v) p d) d ps.

Definition attr (ps : list path) (name v : string) (d : node) : node :=
  foldl (λ d p, Dom.alter_at (Dom.set_attr name v) p d) d ps.

(** [.append(k)]: [k] becomes the last child of every target (the earlier
    targets get copies). *)
Definition append (ps : list path) (k : node) (d : node) : node :=
  foldl (λ d p, Dom.alter_at (Dom.add_kid k) p d) d ps.

(** [.detach()]: the elements leave the document. *)
Definition detach (ps : list path) (d : node) : node :=
  foldr Dom.remove_at d ps.

End Jq.

Arguments Jq.by_id : simpl never.
Arguments Jq.find_in : simpl never.
Arguments Jq.find_id : simpl never.
Arguments Jq.below_class : simpl never.
Arguments Jq.val : simpl never.
Arguments Jq.attr : simpl never.
Arguments Jq.append : simpl never.
Arguments Jq.detach : simpl never.

(** ** What a script leaves in place

    Relations between the state before and the state after a script, used to
    say what it does not touch. *)

Module Frame.

(** [keeps d d']: every node of [d] is in [d'] at the same path, with the
    same tag and attributes. *)
Definition keeps (d d' : node) : Prop :=
  ∀ p, is_Some (Dom.get p d) →
       Dom.strip ∘ Dom.own <$> Dom.get p d' = Dom.strip ∘ Dom.own <$> Dom.get p d.

(** [effect E m]: from any state, [m] leaves a state related to it by [E],
    however it ends. *)
Definition effect {A} (E : relation state) (m : M A) : Prop := ∀ s, E s (m s).1.

(** Only values of controls change, and editors are added. *)
Definition fills (s s' : state) : Prop :=
  Dom.strip (dom s') = Dom.strip (dom s) ∧ editors s `prefix_of` editors s'.

(** Nodes keep their place, tag and attributes, and editors are added. *)
Definition grows (s s' : state) : Prop :=
  keeps (dom s) (dom s') ∧ editors s `prefix_of` editors s'.

End Frame.

(** ** The scripts *)

Section Scripts.

(** What the browser and the host page provide:
    - [inner_html ks]: the markup [.html()] returns for an element with
      children [ks];
    - [parse_html m]: the nodes [.html(m)] gives an element for the markup [m];
    - [well_id pid]: the id under which the host's [studio_get_problem]
      finds the panel of problem [pid]. *)
Variable inner_html : list node → string.
Variable parse_html : string → list node.
Variable well_id : string → string.

Definition studio_get_problem (pid : string) (d : node) : list path :=
  Jq.by_id (well_id pid) d.

(** The id the index scan looks for, and the id a row is given. *)
Definition lookup_id (pid : string) (index : nat) : string :=
  "question-" +:+ pid +:+ "-" +:+ pretty index.

Definition row_id (pid : string) (index : nat) : string :=
  "question-" +:+ pretty index +:+ "-" +:+ pid.

(** [while ($("#question-" + pid + "-" + index).length != 0) index++;] *)
Fixpoint scan_index (fuel : nat) (pid : string) (d : node) (index : nat) : option nat :=
  match fuel with
  | O => None
  | S fuel' =>
      if bool_decide (length (Jq.by_id (lookup_id pid index) d) ≠ 0)
      then scan_index fuel' pid d (S index)
      else Some index
  end.

(** The scan is given one more step than the document has elements. *)
Definition free_index (pid : string) (d : node) : option nat :=
  scan_index (S (Dom.size d)) pid d 0.

Definition scanned (o : option nat) : M nat :=
  match o with
  | Some index => mret index
  | None => diverge
  end.

Definition template_id : string := "subproblem_matching_questions".

(** [$("#subproblem_matching_questions").html()]; [None] is [undefined]. *)
Definition template_markup (d : node) : option string :=
  p ← head (Jq.by_id template_id d);
  k ← Dom.get p d;
  Some (inner_html (Dom.kids_of k)).

(** [row.replace(/PID/g, pid).replace(/QUESTION/g, index)] *)
Definition new_row_content (row pid : string) (index : nat) : string :=
  Str.replace_all "QUESTION" (pretty index) (Str.replace_all "PID" pid row).

(** [$("<div></div>").attr("id", "question-" + index + "-" + pid).html(content)] *)
Definition make_row (pid : string) (index : nat) (content : string) : node :=
  Elem "div" [("id", row_id pid index)] None (parse_html content).

(** The variable [new_row] after the append: the row at its place in the
    document, or the row itself when no container took it. *)
Inductive handle : Type :=
| Attached (p : path)
| Loose (n : node).

Definition ref_in (h : handle) (q : path) : ref :=
  match h with
  | Attached p => InDoc (p ++ q)
  | Loose _ => InLoose q
  end.

(** [$(sel, new_row)], as paths from the row. *)
Definition find_in_row (sel : selector) (h : handle) (d : node) : list path :=
  match h with
  | Attached p => k ← option_list (Dom.get p d); Sel.descendants sel k
  | Loose n => Sel.descendants sel n
  end.

(** [$("#questions-" + pid, well).append(new_row)] *)
Definition append_row (targets : list path) (new_row : node) : M handle := λ s,
  match last targets with
  | None => (s, Done (Loose new_row))
  | Some t =>
      (State (Jq.append targets new_row (dom s)) (editors s),
       Done (Attached (t ++ [length (Dom.kids_of (default (Text "") (Dom.get t (dom s))))])))
  end.

(** [$(sel, new_row).val(v)] *)
Definition val_in_row (sel : selector) (h : handle) (v : value) : M handle := λ s,
  match h with
  | Attached p =>
      (State (Jq.val ((p ++.) <$> find_in_row sel h (dom s)) v (dom s)) (editors s), Done h)
  | Loose n => (s, Done (Loose (Jq.val (Sel.descendants sel n) v n)))
  end.

(** [registerCodeEditor($(sel, new_row)[0], "rst", 1).setValue(v)] *)
Definition editor_in_row (sel : selector) (h : handle) (v : value) : M unit :=
  d ← get_dom;
  e ← registerCodeEditor (ref_in h <$> head (find_in_row sel h d)) "rst" 1;
  setValue e v.

(** [var x = ""; if (name in data) x = data[name];] *)
Definition field_or_empty (data : value) (name : string) : M value :=
  present ← raising (Js.has_key name data);
  mret (if (present : bool) then Js.get_prop name data else VStr "").

(** [.val(x)] on the controls of class [c] of a row, when [b] holds. *)
Definition fill_class (c : string) (b : bool) (x : value) (row : node) : node :=
  if b then Jq.val (Sel.descendants (ByClass c) row) x row else row.

(** The row [row] once its inputs are filled from [question_data]: what
    the two [.val(...)] lines make of it. *)
Definition fill_vals (question_data : value) (row : node) : node :=
  fill_class "subproblem_matching_answer" (Js.present "answer" question_data)
    (Js.get_prop "answer" question_data)
    (fill_class "subproblem_matching_question" (Js.present "question" question_data)
       (Js.get_prop "question" question_data) row).

(** The value of a control [m] of the row after that: the answer or the
    question text when the field is present and the control is of its class,
    the value it had otherwise. *)
Definition filled_val (question_data : value) (m : node) : option value :=
  if Js.present "answer" question_data
     && Sel.matches (ByClass "subproblem_matching_answer") m
  then Some (Js.get_prop "answer" question_data)
  else if Js.present "question" question_data
          && Sel.matches (ByClass "subproblem_matching_question") m
  then Some (Js.get_prop "question" question_data)
  else Dom.val_of m.

(** [data[name]] when the field is present, the empty string otherwise. *)
Definition field_default (data : value) (name : string) : value :=
  if Js.present name data then Js.get_prop name data else VStr "".

(** The lines of [studio_create_matching_question] that fill the new row:
    the two inputs, then the two feedback editors. *)
Definition fill_row (question_data : value) (new_row : handle) : M unit :=
  has_question ← raising (Js.has_key "question" question_data);
  new_row ← (if (has_question : bool)
             then val_in_row (ByClass "subproblem_matching_question") new_row
                    (Js.get_prop "question" question_data)
             else mret new_row);
  has_answer ← raising (Js.has_key "answer" question_data);
  new_row ← (if (has_answer : bool)
             then val_in_row (ByClass "subproblem_matching_answer") new_row
                    (Js.get_prop "answer" question_data)
             else mret new_row);
  success_feedback ← field_or_empty question_data "success_feedback";
  error_feedback ← field_or_empty question_data "error_feedback";
  editor_in_row (ByClass "subproblem_matching_success_feedback") new_row success_feedback;;
  editor_in_row (ByClass "subproblem_matching_error_feedback") new_row error_feedback.

(** The lines after the index scan, for the index it gave. *)
Definition create_at (pid : string) (question_data : value) (well : list path)
    (index : nat) : M unit :=
  d ← get_dom;
  row ← raising (template_markup d);
  let new_row_content := new_row_content row pid index in
  new_row ← append_row (Jq.find_id well ("questions-" +:+ pid) d)
                       (make_row pid index new_row_content);
  fill_row question_data new_row.

Definition studio_create_matching_question (pid : string) (question_data : value) : M unit :=
  d ← get_dom;
  let well := studio_get_problem pid d in
  index ← scanned (free_index pid d);
  create_at pid question_data well index.

(** [$("#question-" + question + "-" + pid).detach()] *)
Definition studio_delete_matching_question (pid : string) (question : nat) : M unit :=
  d ← get_dom;
  modify_dom (Jq.detach (Jq.by_id (row_id pid question) d)).

(** [if (name in problem && problem[name]) $("#" + name + "-" + pid, well).attr("checked", true)] *)
Definition init_checkbox (well : path) (pid : string) (problem : value) (name : string) : M unit :=
  present ← raising (Js.has_key name problem);
  if present && Js.truthy (Js.get_prop name problem)
  then d ← get_dom;
       modify_dom (Jq.attr (Jq.find_id [well] (name +:+ "-" +:+ pid) d) "checked" "checked")
  else mret ().

(** [registerCodeEditor($("#" + name + "-" + pid)[0], "rst", 1).setValue(v)] *)
Definition feedback_editor (pid name : string) (v : value) : M unit :=
  d ← get_dom;
  e ← registerCodeEditor (InDoc <$> head (Jq.by_id (name +:+ "-" +:+ pid) d)) "rst" 1;
  setValue e v.

(** The lines of [studio_init_template_matching] on the three feedback
    fields: the fields are read, then the three editors are made. *)
Definition init_feedback (pid : string) (problem : value) : M unit :=
  all_success_feedback ← field_or_empty problem "all_success_feedback";
  partial_success_feedback ← field_or_empty problem "partial_success_feedback";
  all_error_feedback ← field_or_empty problem "all_error_feedback";
  feedback_editor pid "all_success_feedback" all_success_feedback;;
  feedback_editor pid "partial_success_feedback" partial_success_feedback;;
  feedback_editor pid "all_error_feedback" all_error_feedback.

(** [jQuery.each(problem["questions"], function (index, elem) {
      studio_create_matching_question(pid, elem); });] *)
Definition init_questions (pid : string) (problem : value) : M unit :=
  questions ← raising (Js.each_items (Js.get_prop "questions" problem));
  for_each questions (λ elem, studio_create_matching_question pid elem).

Definition studio_init_template_matching (well : path) (pid : string) (problem : value) : M unit :=
  init_checkbox well pid problem "unshuffle";;
  init_checkbox well pid problem "centralize";;
  init_feedback pid problem;;
  init_questions pid problem.

(** The document after a checkbox line of the initialization. *)
Definition check_box (well : path) (pid : string) (problem : value) (name : string)
    (d : node) : node :=
  if Js.present name problem && Js.truthy (Js.get_prop name problem)
  then Jq.attr (Jq.find_id [well] (name +:+ "-" +:+ pid) d) "checked" "checked" d
  else d.

(** [row] can be the row of index [k] among [n] rows created in sequence so
    that the index scan sees it: it bears the lookup id of [k] and of no
    other index below [n]; it bears no id of the panel, of the questions
    container or of the template; and it has its two feedback areas. *)
Definition row_marked (pid : string) (n k : nat) (row : node) : bool :=
  bool_decide (Sel.all (ById (well_id pid)) row = []) &&
  bool_decide (Sel.all (ById ("questions-" +:+ pid)) row = []) &&
  bool_decide (Sel.all (ById template_id) row = []) &&
  forallb (λ j, bool_decide (Sel.all (ById (lookup_id pid j)) row ≠ [] ↔ j = k)) (seq 0 n) &&
  bool_decide (is_Some (head (Sel.descendants
                                (ByClass "subproblem_matching_success_feedback") row))) &&
  bool_decide (is_Some (head (Sel.descendants
                                (ByClass "subproblem_matching_error_feedback") row))).

(** The panel of [pid], with its well at [w], its questions container at
    [t] and the template at [tp], outside the container's ancestors, when
    the rows of the indices below [k], of [n] to create, are in place. *)
Definition ready (pid : string) (n : nat) (w t tp : path) (tpl : string)
    (k : nat) (d : node) : Prop :=
  Jq.by_id (well_id pid) d = [w] ∧
  Jq.find_id [w] ("questions-" +:+ pid) d = [t] ∧
  head (Jq.by_id template_id d) = Some tp ∧
  template_markup d = Some tpl ∧
  ¬ tp `prefix_of` t ∧
  (∀ j, j < n → Sel.all (ById (lookup_id pid j)) d ≠ [] ↔ j < k).

(** The task script. *)

(** [$(".problem select[id='" + key + "_" + i + "']")] *)
Definition controls (key : string) (i : nat) (d : node) : list path :=
  Jq.below_class "problem" (ByTagId "select" (key +:+ "_" +:+ pretty i)) d.

Definition load_input_matching (submissionid key : string) (input : value) : M unit :=
  present ← raising (Js.has_key key input);
  if (present : bool)
  then es ← raising (Js.entries (Js.get_prop key input));
       for_each es (λ e : nat * value,
         d ← get_dom;
         modify_dom (Jq.val (controls key e.1 d) e.2))
  else mret ().

(** The document after the loop of [load_input_matching] over the entries
    [es]. *)
Definition load_all (key : string) (es : list (nat * value)) (d : node) : node :=
  foldl (λ d e, Jq.val (controls key e.1 d) e.2 d) d es.

End Scripts.

(** ** A reader and a printer of markup

    The browser's parser and serialiser are parameters of the scripts.  The
    examples run them on this fragment of HTML: elements with double-quoted
    attributes, text, and the void elements [input], [br], [hr] and [img]. *)

Module Markup.

Inductive token : Type :=
| TOpen (tag : string) (attrs : list attr)
| TClose (tag : string)
| TText (s : string).

Inductive mode : Type :=
| InText (acc : string)
| InTag (acc : string)
| InClose (acc : string)
| InAttrs (tag : string) (attrs : list attr)
| InName (tag : string) (attrs : list attr) (acc : string)
| InEq (tag : string) (attrs : list attr) (name : string)
| InValue (tag : string) (attrs : list attr) (name acc : string).

Definition quote : ascii := "034"%char.

Definition snoc (s : string) (c : ascii) : string := s +:+ String c "".

Definition text_token (acc : string) : list token :=
  if decide (acc = "") then [] else [TText acc].

(** One character of the input: the tokens completed by it and the mode
    after it. *)
Definition step (m : mode) (c : ascii) : list token * mode :=
  match m with
  | InText acc =>
      if decide (c = "<"%char) then (text_token acc, InTag "") else ([], InText (snoc acc c))
  | InTag acc =>
      if decide (c = "/"%char) then ([], InClose "")
      else if decide (c = ">"%char) then ([TOpen acc []], InText "")
      else if Ascii.is_space c then ([], InAttrs acc [])
      else ([], InTag (snoc acc c))
  | InClose acc =>
      if decide (c = ">"%char) then ([TClose acc], InText "") else ([], InClose (snoc acc c))
  | InAttrs tag attrs =>
      if decide (c = ">"%char) then ([TOpen tag attrs], InText "")
      else if Ascii.is_space c || bool_decide (c = "/"%char) then ([], InAttrs tag attrs)
      else ([], InName tag attrs (String c ""))
  | InName tag attrs acc =>
      if decide (c = "="%char) then ([], InEq tag attrs acc)
      else if decide (c = ">"%char) then ([TOpen tag (attrs ++ [(acc, "")])], InText "")
      else if Ascii.is_space c then ([], InAttrs tag (attrs ++ [(acc, "")]))
      else ([], InName tag attrs (snoc acc c))
  | InEq tag attrs name =>
      if decide (c = quote) then ([], InValue tag attrs name "")
      else ([], InAttrs tag (attrs ++ [(name, "")]))
  | InValue tag attrs name acc =>
      if decide (c = quote) then ([], InAttrs tag (attrs ++ [(name, acc)]))
      else ([], InValue tag attrs name (snoc acc c))
  end.

Fixpoint lex (m : mode) (s : string) : list token :=
  match s with
  | EmptyString => match m with InText acc => text_token acc | _ => [] end
  | String c s' => let '(ts, m') := step m c in ts ++ lex m' s'
  end.

Definition void (tag : string) : bool :=
  bool_decide (tag ∈ ["input"; "br"; "hr"; "img"]).

Definition frame : Type := string * list attr * list node.

(** Add a finished node to the innermost open element, or to the output. *)
Definition emit (k : node) (stack : list frame) (out : list node) : list frame * list node :=
  match stack with
  | (t, a, ks) :: stack' => ((t, a, ks ++ [k]) :: stack', out)
  | [] => ([], out ++ [k])
  end.

Definition close (stack : list frame) (out : list node) : list frame * list node :=
  match stack with
  | (t, a, ks) :: stack' => emit (Elem t a None ks) stack' out
  | [] => ([], out)
  end.

Fixpoint close_all (fuel : nat) (stack : list frame) (out : list node) : list node :=
  match fuel, stack with
  | S fuel', _ :: _ => let '(stack', out') := close stack out in close_all fuel' stack' out'
  | _, _ => out
  end.

Fixpoint build (ts : list token) (stack : list frame) (out : list node) : list node :=
  match ts with
  | [] => close_all (length stack) stack out
  | TText s :: ts' => let '(stack', out') := emit (Text s) stack out in build ts' stack' out'
  | TOpen tag a :: ts' =>
      if void tag
      then let '(stack', out') := emit (Elem tag a None []) stack out in build ts' stack' out'
      else build ts' ((tag, a, []) :: stack) out
  | TClose _ :: ts' => let '(stack', out') := close stack out in build ts' stack' out'
  end.

Definition parse (s : string) : list node := build (lex (InText "") s) [] [].

Definition print_attrs (a : list attr) : string :=
  foldr (λ nv acc, " " +:+ nv.1 +:+ "=" +:+ String quote nv.2 +:+ String quote acc) "" a.

Fixpoint print (n : node) : string :=
  match n with
  | Text s => s
  | Elem t a _ ks =>
      "<" +:+ t +:+ print_attrs a +:+ ">" +:+
      (if void t then ""
       else foldr (λ k acc, print k +:+ acc) "" ks +:+ "</" +:+ t +:+ ">")
  end.

Definition print_all (ks : list node) : string := foldr (λ k acc, print k +:+ acc) "" ks.

End Markup.

(** ** Example pages

    A studio page for the problem [p1] and a review page for the field [q1],
    with the browser's parser and serialiser played by [Markup]. *)

Module Page.

Definition well_id (pid : string) : string := "subproblem_well_" +:+ pid.

Definition input (a : list attr) : node := Elem "input" a None [].
Definition textarea (a : list attr) : node := Elem "textarea" a None [].

(** The controls of a row; [question_attrs] go on the question input. *)
Definition row_controls (question_attrs : list attr) : list node :=
  [ input (("class", "subproblem_matching_question") :: question_attrs);
    input [("class", "subproblem_matching_answer"); ("value", "?")];
    textarea [("class", "subproblem_matching_success_feedback")];
    textarea [("class", "subproblem_matching_error_feedback")] ].

(** A row template whose question input carries the id the index scan looks
    for, and one that carries no id. *)
Definition marked_template : list node := row_controls [("id", "question-PID-QUESTION")].
Definition plain_template : list node := row_controls [].

(** The page: the panel of [p1] with its two checkboxes, its three feedback
    areas and its questions container holding [rows]; then the row template. *)
Definition studio (template rows : list node) : node :=
  Elem "body" [] None
    [ Elem "div" [("id", "subproblem_well_p1")] None
        [ input [("type", "checkbox"); ("id", "unshuffle-p1")];
          input [("type", "checkbox"); ("id", "centralize-p1")];
          textarea [("id", "all_success_feedback-p1")];
          textarea [("id", "partial_success_feedback-p1")];
          textarea [("id", "all_error_feedback-p1")];
          Elem "div" [("id", "questions-p1")] None rows ];
      Elem "div" [("id", "subproblem_matching_questions")] None template ].

(** The path of the panel in [studio]. *)
Definition well : path := [0].

(** A row as the script builds it from a template, for index [i]. *)
Definition row (template : list node) (i : nat) : node :=
  make_row Markup.parse "p1" i (new_row_content (Markup.print_all template) "p1" i).

(** A review page: the form region with three select controls of the field
    [q1], and one control [q1_0] outside it. *)
Definition select (id : string) : node :=
  Elem "select" [("id", id)] None
    [ Elem "option" [("value", "a")] None [Text "a"];
      Elem "option" [("value", "b")] None [Text "b"];
      Elem "option" [("value", "c")] None [Text "c"] ].

Definition review (ids : list string) : node :=
  Elem "body" [] None
    [ Elem "form" [("class", "problem")] None (select <$> ids);
      select "q1_0" ].

(** The path of the questions container in [studio], and the ids of the
    rows it holds. *)
Definition questions : path := [0; 5].

Definition row_ids (d : node) : list (option string) :=
  Dom.id_of <$> Dom.kids_of (default (Text "") (Dom.get questions d)).

Definition start (d : node) : state := State d [].

Definition create := studio_create_matching_question Markup.print_all Markup.parse well_id.
Definition init := studio_init_template_matching Markup.print_all Markup.parse well_id.

(** A page with the panels of two problems, [0] and [1], both without rows,
    and the row template. *)
Definition panel (pid : string) (rows : list node) : node :=
  Elem "div" [("id", well_id pid)] None
    [ input [("type", "checkbox"); ("id", "unshuffle-" +:+ pid)];
      input [("type", "checkbox"); ("id", "centralize-" +:+ pid)];
      textarea [("id", "all_success_feedback-" +:+ pid)];
      textarea [("id", "partial_success_feedback-" +:+ pid)];
      textarea [("id", "all_error_feedback-" +:+ pid)];
      Elem "div" [("id", "questions-" +:+ pid)] None rows ].

Definition studio_pair (template : list node) : node :=
  Elem "body" [] None
    [ panel "0" []; panel "1" [];
      Elem "div" [("id", "subproblem_matching_questions")] None template ].

(** The ids of the rows of the panel at position [k] of the page. *)
Definition rows_of (k : nat) (d : node) : list (option string) :=
  Dom.id_of <$> Dom.kids_of (default (Text "") (Dom.get [k; 5] d)).

End Page.

(** ** What an observer sees of a run

    Observations of a document and relations between the state before and
    the state after a script, for the properties of the last part. *)

Module View.

(** The nodes of a tree in document order, each without its children. *)
Fixpoint flat (n : node) : list node :=
  match n with
  | Text s => [Text s]
  | Elem t a v ks => Elem t a v [] :: mjoin (flat <$> ks)
  end.

(** A node without its child of index [i]. *)
Definition drop_kid (i : nat) (n : node) : node :=
  match n with
  | Text s => Text s
  | Elem t a v ks => Elem t a v (delete i ks)
  end.

(** [keeps_own d d']: every node of [d] is in [d'] at the same path, with
    the same tag, attributes and value. *)
Definition keeps_own (d d' : node) : Prop :=
  ∀ p, is_Some (Dom.get p d) → Dom.own <$> Dom.get p d' = Dom.own <$> Dom.get p d.

(** Nodes keep their place and what is their own, and editors are added. *)
Definition adds (s s' : state) : Prop :=
  keeps_own (dom s) (dom s') ∧ editors s `prefix_of` editors s'.

(** The same for the nodes that are not below the path [r]. *)
Definition adds_below (r : path) (s s' : state) : Prop :=
  (∀ p, ¬ r `prefix_of` p →
        Dom.own <$> Dom.get p (dom s') = Dom.own <$> Dom.get p (dom s)) ∧
  editors s `prefix_of` editors s'.

(** The document is left as it is, and editors are added. *)
Definition same_dom (s s' : state) : Prop :=
  dom s' = dom s ∧ editors s `prefix_of` editors s'.

(** Two handles stand for the same place. *)
Definition same_place (h h' : handle) : Prop :=
  match h, h' with
  | Attached r, Attached r' => r = r'
  | Loose _, Loose _ => True
  | _, _ => False
  end.

(** What filling the row of a handle may touch: the row, in the document or
    out of it. *)
Definition under (h : handle) : relation state :=
  match h with
  | Attached r => adds_below r
  | Loose _ => same_dom
  end.

(** An editor as the scripts make them: in mode [rst], with one line, and
    given a value. *)
Definition filled (e : editor) : Prop :=
  ed_mode e = "rst" ∧ ed_lines e = 1%Z ∧ is_Some (ed_value e).

(** [n] editors as the scripts make them were added. *)
Definition added (n : nat) (s s' : state) : Prop :=
  ∃ new, editors s' = editors s ++ new ∧ length new = n ∧ Forall filled new.

(** [ends Q m]: when [m] ends normally, it leaves a state related by [Q] to
    the state it started from. *)
Definition ends {A} (Q : relation state) (m : M A) : Prop :=
  ∀ s s' a, m s = (s', Done a) → Q s s'.

(** [halts m]: [m] ends, normally or with an error, from every state. *)
Definition halts {A} (m : M A) : Prop := ∀ s, (m s).2 ≠ Diverged.

End View.

(** A page with the row template alone: no panel and no questions
    container. *)
Module Sample.

Definition template_only (template : list node) : node :=
  Elem "body" [] None
    [ Elem "div" [("id", "subproblem_matching_questions")] None template ].

End Sample.

(** ** The words of the specification

    What the specification says of a payload, of a page and of a row
    template, in terms of the fields of the one, the elements of the other
    and the text of the third, apart from the functions of the scripts. *)

Module Spec.

(** [field fs name o]: the record with the fields [fs] has the field [name]
    with the value [v], for [o = Some v]; it has no field [name], for
    [o = None]. *)
Definition field (fs : list (string * value)) (name : string) (o : option value) : Prop :=
  match o with
  | Some v => ∃ fs1 fs2, fs = fs1 ++ (name, v) :: fs2 ∧ name ∉ fs1.*1
  | None => name ∉ fs.*1
  end.

(** The field is present and truthy. *)
Definition truthy_field (o : option value) : bool :=
  match o with
  | Some v => Js.truthy v
  | None => false
  end.

(** The node has the class [c] among those of its attribute [class]. *)
Definition of_class (c : string) (m : node) : bool :=
  bool_decide (c ∈ String.words (default "" (Dom.attr_get "class" (Dom.attrs_of m)))).

(** [p] is a select control with the id [id] in the form region of a
    problem: a [select] element with that id below an element of class
    [problem]. *)
Definition select_in_problem (id : string) (d : node) (p : path) : Prop :=
  ∃ c q region a v ks,
    p = c ++ q ∧ q ≠ [] ∧ Dom.get c d = Some region ∧ of_class "problem" region = true ∧
    Dom.get p d = Some (Elem "select" a v ks) ∧ Dom.attr_get "id" a = Some id.










End Spec.

(** * Properties *)

(** A closed, decidable fact, by evaluation. *)
Ltac by_compute := apply (bool_decide_unpack _); vm_compute; exact I.

(** ** Substitution in strings *)

Module StrFacts.
Import Str.

Lemma prefix_nil_r p : prefix p "" = true → p = "".
Proof. by destruct p. Qed.

Lemma replace_go_skip pat rep k s :
  replace_go pat rep k s = replace_all pat rep (drop k s).
Proof.
  revert k. induction s as [|c s IH]; intros k.
  - by destruct k.
  - destruct k as [|k]; [done|]. simpl. apply IH.
Qed.

(** The two equations of a global replacement. *)
Lemma replace_all_match pat rep s :
  pat ≠ "" → prefix pat s = true →
  replace_all pat rep s = rep +:+ replace_all pat rep (drop (String.length pat) s).
Proof.
  intros Hpat Hp. destruct s as [|c s].
  { by apply prefix_nil_r in Hp. }
  unfold replace_all at 1. cbn [replace_go]. rewrite Hp, replace_go_skip.
  destruct pat as [|a pat]; [done|]. simpl. by rewrite Nat.sub_0_r.
Qed.

Lemma replace_all_skip pat rep c s :
  prefix pat (String c s) = false →
  replace_all pat rep (String c s) = String c (replace_all pat rep s).
Proof. intros Hp. unfold replace_all. cbn [replace_go]. by rewrite Hp. Qed.

Lemma prefix_app_apart pat rep q s :
  apart pat rep → (∀ c, c ∈ chars q → c ∈ chars pat) → q ≠ "" →
  prefix q (rep +:+ s) = false.
Proof.
  intros [Hne Hfresh] Hq Hq0. destruct rep as [|r rep]; [done|].
  destruct q as [|a q]; [done|]. simpl. case_decide as Har; [|done]. subst r.
  destruct (Hfresh a); [left|]. apply Hq. left.
Qed.

(** A piece of the pattern at the head of the result was at the head of the
    input. *)
Lemma prefix_replace_all pat rep q s :
  pat ≠ "" → apart pat rep → (∀ c, c ∈ chars q → c ∈ chars pat) →
  prefix q (replace_all pat rep s) = true → prefix q s = true.
Proof.
  intros Hpat Hap. revert s. induction q as [|a q IH]; intros s Hq Hp; [done|].
  destruct s as [|c s]; [done|].
  destruct (prefix pat (String c s)) eqn:Hm.
  - rewrite replace_all_match in Hp by done.
    by rewrite (prefix_app_apart pat rep) in Hp.
  - rewrite replace_all_skip in Hp by done. simpl in *.
    case_decide; [|done]. apply IH; [|done]. intros c' ?. apply Hq. by right.
Qed.

Lemma occurs_in_app_apart pat rep s :
  pat ≠ "" → apart pat rep → (∀ c, c ∈ chars rep → c ∉ chars pat) →
  occurs_in pat (rep +:+ s) = occurs_in pat s.
Proof.
  intros Hpat _ Hfresh. induction rep as [|r rep IH]; [done|].
  change (String r rep +:+ s) with (String r (rep +:+ s)).
  cbn [occurs_in]. rewrite IH by (intros c ?; apply Hfresh; by right).
  destruct pat as [|a pat]; [done|]. simpl. case_decide as Har; [|done]. subst r.
  destruct (Hfresh a); left.
Qed.

(** After a global replacement by such a [rep], the pattern is gone. *)
Lemma occurs_in_replace_go pat rep k s :
  pat ≠ "" → apart pat rep → occurs_in pat (replace_go pat rep k s) = false.
Proof.
  intros Hpat Hap. revert k. induction s as [|c s IH]; intros k.
  - simpl. destruct pat; [done|]. by destruct k.
  - destruct k as [|k]; [|apply IH]. cbn [replace_go].
    destruct (prefix pat (String c s)) eqn:Hm.
    + rewrite occurs_in_app_apart; [apply IH|done..|apply Hap].
    + cbn [occurs_in]. rewrite IH, orb_false_r.
      destruct (prefix pat (String c (replace_go pat rep 0 s))) eqn:Hp; [|done].
      change (replace_go pat rep 0 s) with (replace_all pat rep s) in Hp.
      rewrite <-(replace_all_skip pat rep) in Hp by done.
      apply prefix_replace_all in Hp; [congruence|done..].
Qed.

Lemma occurs_in_replace_all pat rep s :
  pat ≠ "" → apart pat rep → occurs_in pat (replace_all pat rep s) = false.
Proof. apply occurs_in_replace_go. Qed.

(** The decimal form of an index: digits, at least one. *)
Lemma pretty_N_char_digit x : digit (pretty_N_char x).
Proof. unfold pretty_N_char. repeat case_match; by eexists. Qed.

Lemma pretty_N_go_digits x s :
  Forall digit (chars s) → Forall digit (chars (pretty_N_go x s)).
Proof.
  revert s. induction (N.lt_wf_0 x) as [x _ IH]; intros s Hs.
  assert (x = 0 ∨ 0 < x)%N as [->|?] by lia.
  - by rewrite pretty_N_go_0.
  - rewrite pretty_N_go_step by done. apply IH.
    { by apply N.div_lt. }
    simpl. constructor; [apply pretty_N_char_digit|done].
Qed.

Lemma pretty_N_go_nonempty x s : (0 < x)%N → pretty_N_go x s ≠ "".
Proof.
  revert s. induction (N.lt_wf_0 x) as [x _ IH]; intros s Hx.
  rewrite pretty_N_go_step by done.
  destruct (N.eq_0_gt_0_cases (x `div` 10)) as [->|?].
  - by rewrite pretty_N_go_0.
  - apply IH; [|done]. by apply N.div_lt.
Qed.

Lemma pretty_nat_digits (n : nat) : Forall digit (chars (pretty n)).
Proof.
  unfold pretty, pretty_nat, pretty, pretty_N. case_decide.
  - repeat constructor; by eexists.
  - apply pretty_N_go_digits. constructor.
Qed.

Lemma pretty_nat_nonempty (n : nat) : pretty n ≠ "".
Proof.
  unfold pretty, pretty_nat, pretty, pretty_N. case_decide; [done|].
  apply pretty_N_go_nonempty. lia.
Qed.

(** An index can stand for a token made of letters. *)
Lemma apart_pretty pat (n : nat) :
  Forall (λ c, Ascii.is_nat c = None) (chars pat) → apart pat (pretty n).
Proof.
  intros Hpat. split; [apply pretty_nat_nonempty|].
  intros c Hc Hc'.
  pose proof (pretty_nat_digits n) as Hd.
  rewrite Forall_forall in Hd, Hpat.
  destruct (Hd c Hc) as [k Hk]. specialize (Hpat c Hc'). congruence.
Qed.

End StrFacts.

(** ** Trees and paths *)

Module DomFacts.
Import Dom.

(** Induction on a tree, with the hypothesis for every child. *)
Lemma node_ind_kids (P : node → Prop) :
  (∀ s, P (Text s)) →
  (∀ t a v ks, Forall P ks → P (Elem t a v ks)) →
  ∀ n, P n.
Proof.
  intros Htext Helem. fix IH 1. intros [s|t a v ks]; [apply Htext|].
  apply Helem. induction ks as [|k ks IHks]; constructor; [apply IH|apply IHks].
Qed.

Lemma get_app p q n : get (p ++ q) n = get p n ≫= get q.
Proof.
  revert n. induction p as [|i p IH]; intros n; [done|].
  simpl. destruct (kids_of n !! i); [apply IH|done].
Qed.

Lemma alter_at_app f p q n : alter_at f (p ++ q) n = alter_at (alter_at f q) p n.
Proof.
  revert n. induction p as [|i p IH]; intros n; [done|].
  destruct n as [s|t a v ks]; [done|]. simpl. f_equal.
  apply list_alter_ext; [|done]. intros k _. apply IH.
Qed.

Lemma alter_at_compose f g p n :
  alter_at g p (alter_at f p n) = alter_at (g ∘ f) p n.
Proof.
  revert n. induction p as [|i p IH]; intros n; [done|].
  destruct n as [s|t a v ks]; [done|]. simpl. f_equal.
  rewrite list_alter_alter_eq. apply list_alter_ext; [|done]. intros k _. apply IH.
Qed.

(** The node at the place that was altered, and below it. *)
Lemma get_alter_at f c q n :
  get (c ++ q) (alter_at f c n) = get c n ≫= λ m, get q (f m).
Proof.
  revert n. induction c as [|i c IH]; intros n; [done|].
  destruct n as [s|t a v ks]; [done|]. cbn [app get alter_at kids_of].
  rewrite list_lookup_alter_eq. destruct (ks !! i) as [k|]; [apply IH|done].
Qed.

Lemma get_alter_at_here f c n : get c (alter_at f c n) = f <$> get c n.
Proof.
  rewrite <-(app_nil_r c) at 1. rewrite get_alter_at. by destruct (get c n).
Qed.

(** Away from the altered place a node keeps what is its own. *)
Lemma get_alter_at_off f c p n :
  ¬ c `prefix_of` p → own <$> get p (alter_at f c n) = own <$> get p n.
Proof.
  revert p n. induction c as [|i c IH]; intros p n Hp.
  { destruct Hp. apply prefix_nil. }
  destruct p as [|j p].
  { destruct n; [done|]. done. }
  destruct n as [s|t a v ks]; [done|]. cbn [get alter_at kids_of].
  destruct (decide (i = j)) as [->|Hij].
  - rewrite list_lookup_alter_eq. destruct (ks !! j) as [k|]; [|done]. simpl.
    apply IH. intros Hc. apply Hp. by apply prefix_cons.
  - by rewrite list_lookup_alter_ne.
Qed.

Lemma strip_set_val x n : strip (set_val x n) = strip n.
Proof. by destruct n. Qed.

Lemma strip_alter_at f p n :
  (∀ m, strip (f m) = strip m) → strip (alter_at f p n) = strip n.
Proof.
  intros Hf. revert n. induction p as [|i p IH]; intros n; [apply Hf|].
  destruct n as [s|t a v ks]; [done|]. simpl. f_equal.
  apply list_eq. intros j. rewrite !list_lookup_fmap.
  destruct (decide (i = j)) as [->|Hij].
  - rewrite list_lookup_alter_eq. destruct (ks !! j) as [k|]; [|done]. simpl. f_equal. apply IH.
  - by rewrite list_lookup_alter_ne.
Qed.

Lemma get_strip p n : get p (strip n) = strip <$> get p n.
Proof.
  revert n. induction p as [|i p IH]; intros n; [done|].
  destruct n as [s|t a v ks]; [done|]. cbn [get strip kids_of].
  rewrite list_lookup_fmap. destruct (ks !! i) as [k|]; [apply IH|done].
Qed.

End DomFacts.

(** ** Selection *)

Module SelFacts.
Import Dom Sel DomFacts.

Lemma matches_own s n : matches s (own n) = matches s n.
Proof. by destruct n. Qed.

Lemma matches_own_eq s n m : own n = own m → matches s n = matches s m.
Proof. intros H. by rewrite <-(matches_own s n), H, matches_own. Qed.

Lemma matches_set_val s x n : matches s (set_val x n) = matches s n.
Proof. by destruct n. Qed.

Lemma matches_add_kid s k n : matches s (add_kid k n) = matches s n.
Proof. by destruct n. Qed.

Lemma matches_is_elem s n : matches s n = true → is_elem n = true.
Proof. by destruct n. Qed.

Lemma all_unfold s n :
  all s n = (if matches s n then [[]] else []) ++ descendants s n.
Proof. by destruct n. Qed.

Lemma kids_paths_app f i ks1 ks2 :
  kids_paths f i (ks1 ++ ks2)
  = kids_paths f i ks1 ++ kids_paths f (i + length ks1) ks2.
Proof.
  revert i. induction ks1 as [|k ks1 IH]; intros i; simpl.
  - by rewrite Nat.add_0_r.
  - rewrite IH, <-(assoc_L (++)). do 3 f_equal. lia.
Qed.

Lemma elem_of_kids_paths f i ks p :
  p ∈ kids_paths f i ks ↔ ∃ j k q, ks !! j = Some k ∧ q ∈ f k ∧ p = (i + j) :: q.
Proof.
  revert i. induction ks as [|k ks IH]; intros i; simpl.
  - split; [by intros ?%elem_of_nil|by intros (j&?&?&?&_)].
  - rewrite elem_of_app, list_elem_of_fmap, IH. split.
    + intros [(q&->&Hq)|(j&k'&q&Hj&Hq&->)].
      * exists 0, k, q. by rewrite Nat.add_0_r.
      * exists (S j), k', q. split_and!; [done..|f_equal; lia].
    + intros ([|j]&k'&q&Hj&Hq&->); simplify_eq/=.
      * left. exists q. by rewrite Nat.add_0_r.
      * right. exists j, k', q. split_and!; [done..|f_equal; lia].
Qed.

(** A path is selected exactly when it leads to a matching element. *)
Lemma all_spec s n p :
  p ∈ all s n ↔ ∃ m, get p n = Some m ∧ matches s m = true.
Proof.
  revert p. induction n as [x|t a v ks IH] using node_ind_kids; intros p.
  - rewrite all_unfold. simpl. split; [by intros ?%elem_of_nil|].
    intros (m&Hm&Hs). destruct p; by simplify_eq/=.
  - rewrite all_unfold, elem_of_app. unfold descendants. cbn [kids_of].
    rewrite elem_of_kids_paths. rewrite Forall_lookup in IH. split.
    + intros [Hp|(j&k&q&Hj&Hq&->)].
      * destruct (matches s (Elem t a v ks)) eqn:Hm; [|by apply elem_of_nil in Hp].
        apply list_elem_of_singleton in Hp as ->. by eexists.
      * apply (IH _ _ Hj) in Hq as (m&Hm&Hs). exists m. cbn [get kids_of].
        by rewrite Nat.add_0_l, Hj.
    + intros (m&Hm&Hs). destruct p as [|j q]; simplify_eq/=.
      * left. rewrite Hs. by apply list_elem_of_singleton.
      * right. destruct (ks !! j) as [k|] eqn:Hj; [|done].
        exists j, k, q. split_and!; [done| |done]. apply (IH _ _ Hj). by eexists.
Qed.

Lemma descendants_spec s n p :
  p ∈ descendants s n ↔ p ≠ [] ∧ ∃ m, get p n = Some m ∧ matches s m = true.
Proof.
  unfold descendants. rewrite elem_of_kids_paths. split.
  - intros (j&k&q&Hj&Hq&->). split; [done|]. apply all_spec in Hq as (m&Hm&Hs).
    exists m. cbn [get]. by rewrite Nat.add_0_l, Hj.
  - intros [Hp (m&Hm&Hs)]. destruct p as [|j q]; [done|]. cbn [get] in Hm.
    destruct (kids_of n !! j) as [k|] eqn:Hj; [|done].
    exists j, k, q. split_and!; [done| |done]. apply all_spec. by eexists.
Qed.

Lemma kids_paths_alter f g i0 i ks :
  (∀ k, ks !! i = Some k → f (g k) = f k) →
  kids_paths f i0 (alter g i ks) = kids_paths f i0 ks.
Proof.
  revert i0 i. induction ks as [|k ks IH]; intros i0 i Hg; [done|].
  destruct i as [|i]; simpl.
  - by rewrite Hg.
  - f_equal. apply IH. intros k' Hk'. by apply Hg.
Qed.

(** Altering a node in a way that no selection sees leaves the selections of
    the whole tree as they were, in the same order. *)
Lemma all_alter_at s f p n :
  (∀ m, matches s (f m) = matches s m) →
  (∀ m, descendants s (f m) = descendants s m) →
  all s (alter_at f p n) = all s n.
Proof.
  intros Hm Hd. revert n. induction p as [|i p IH]; intros n.
  - simpl. by rewrite !all_unfold, Hm, Hd.
  - destruct n as [x|t a v ks]; [done|]. cbn [alter_at all].
    replace (matches s (Elem t a v (alter (alter_at f p) i ks)))
      with (matches s (Elem t a v ks)) by done.
    f_equal. apply kids_paths_alter. intros k _. apply IH.
Qed.

Lemma descendants_alter_at s f p n :
  (∀ m, matches s (f m) = matches s m) →
  (∀ m, descendants s (f m) = descendants s m) →
  descendants s (alter_at f p n) = descendants s n.
Proof.
  intros Hm Hd. destruct p as [|i p]; [apply Hd|].
  destruct n as [x|t a v ks]; [done|]. unfold descendants. cbn [alter_at kids_of].
  apply kids_paths_alter. intros k _. by apply all_alter_at.
Qed.

Lemma descendants_set_val s x n : descendants s (set_val x n) = descendants s n.
Proof. by destruct n. Qed.

Lemma descendants_add_kid s k n :
  all s k = [] → descendants s (add_kid k n) = descendants s n.
Proof.
  intros Hk. destruct n as [x|t a v ks]; [done|]. unfold descendants. cbn [add_kid kids_of].
  rewrite kids_paths_app. simpl. by rewrite Hk, app_nil_r.
Qed.

Lemma attr_get_set_ne name name' v a :
  name ≠ name' → attr_get name' (attr_set name v a) = attr_get name' a.
Proof.
  intros Hne. unfold attr_get. induction a as [|[n w] a IH]; simpl.
  - by rewrite decide_False.
  - destruct (decide (n = name)) as [->|]; simpl.
    + by rewrite !decide_False.
    + destruct (decide (n = name')); [done|apply IH].
Qed.

(** Checking a box changes neither an id nor a class. *)
Lemma matches_set_attr_checked s v n : matches s (set_attr "checked" v n) = matches s n.
Proof.
  destruct n as [x|t a w ks]; [done|]. destruct s; simpl;
    by rewrite !attr_get_set_ne.
Qed.

Lemma descendants_set_attr s name v n : descendants s (set_attr name v n) = descendants s n.
Proof. by destruct n. Qed.

End SelFacts.

(** ** jQuery calls *)

Module JqFacts.
Import Dom Sel DomFacts SelFacts.

Lemma get_set_val_below x q m : q ≠ [] → get q (set_val x m) = get q m.
Proof. intros Hq. destruct q; [done|]. by destruct m. Qed.

(** [.val(x)] on one element: that element gets the value, every other node
    keeps what is its own. *)
Lemma get_alter_at_set_val x c p n :
  own <$> get p (alter_at (set_val x) c n)
  = (if decide (p = c) then set_val x else id) <$> (own <$> get p n).
Proof.
  case_decide as Hpc.
  - subst p. rewrite get_alter_at_here. destruct (get c n) as [[?|????]|]; done.
  - rewrite option_fmap_id. destruct (decide (c `prefix_of` p)) as [[q ->]|Hpre].
    + rewrite get_alter_at, get_app. destruct (get c n) as [m|]; [|done]. simpl.
      rewrite get_set_val_below; [done|]. intros ->. by rewrite app_nil_r in Hpc.
    + by apply get_alter_at_off.
Qed.

Lemma set_val_set_val x n : set_val x (set_val x n) = set_val x n.
Proof. by destruct n. Qed.

Lemma get_val x ps p n :
  own <$> get p (Jq.val ps x n)
  = (if decide (p ∈ ps) then set_val x else id) <$> (own <$> get p n).
Proof.
  unfold Jq.val. revert n. induction ps as [|c ps IH]; intros n; simpl.
  - by rewrite option_fmap_id.
  - rewrite IH, get_alter_at_set_val.
    destruct (decide (p = c)) as [->|Hpc].
    + rewrite (decide_True (P := c ∈ c :: ps)) by left.
      destruct (get c n) as [m|]; [|by case_decide]. simpl.
      case_decide; simpl; by rewrite ?set_val_set_val.
    + rewrite option_fmap_id. destruct (decide (p ∈ ps)) as [Hin|Hin].
      * by rewrite decide_True by by right.
      * rewrite decide_False; [done|]. by intros [?|?]%elem_of_cons.
Qed.

Lemma strip_val x ps n : strip (Jq.val ps x n) = strip n.
Proof.
  unfold Jq.val. revert n. induction ps as [|c ps IH]; intros n; [done|]. simpl.
  rewrite IH. apply strip_alter_at, strip_set_val.
Qed.

Lemma descendants_val s x ps n : descendants s (Jq.val ps x n) = descendants s n.
Proof.
  unfold Jq.val. revert n. induction ps as [|c ps IH]; intros n; [done|]. simpl.
  rewrite IH. apply descendants_alter_at; [apply matches_set_val|apply descendants_set_val].
Qed.

(** What a selection sees of a tree is in its stripped form. *)
Lemma matches_strip s n : matches s (strip n) = matches s n.
Proof. by destruct n. Qed.

Lemma all_strip s n : all s (strip n) = all s n.
Proof.
  induction n as [x|t a v ks IH] using node_ind_kids; [done|].
  cbn [strip all]. f_equal. clear t a v. generalize 0.
  induction IH as [|k ks Hk _ IHks]; intros i; [done|]. simpl. by rewrite Hk, IHks.
Qed.

Lemma descendants_strip s n : descendants s (strip n) = descendants s n.
Proof.
  pose proof (all_strip s n) as H. rewrite !all_unfold, matches_strip in H.
  by apply (inj (app _)) in H.
Qed.

Lemma find_in_strip ctx s n : Jq.find_in ctx s (strip n) = Jq.find_in ctx s n.
Proof.
  unfold Jq.find_in. induction ctx as [|p ctx IH]; [done|]. cbn. rewrite IH. f_equal.
  rewrite get_strip. destruct (get p n) as [k|]; [|done]. cbn.
  by rewrite descendants_strip.
Qed.

Lemma below_class_strip c s n : Jq.below_class c s (strip n) = Jq.below_class c s n.
Proof. unfold Jq.below_class. by rewrite all_strip, find_in_strip. Qed.

Lemma below_class_same c s n n' :
  strip n = strip n' → Jq.below_class c s n = Jq.below_class c s n'.
Proof. intros H. by rewrite <-(below_class_strip c s n), H, below_class_strip. Qed.

Lemma elem_of_option_list {A} (x : A) (o : option A) :
  x ∈ option_list o ↔ o = Some x.
Proof.
  destruct o as [y|]; simpl.
  - rewrite list_elem_of_singleton. naive_solver.
  - split; [by intros ?%elem_of_nil|done].
Qed.

Lemma elem_of_find_in ctx s n p :
  p ∈ Jq.find_in ctx s n ↔
  ∃ c q m, c ∈ ctx ∧ p = c ++ q ∧ q ≠ [] ∧ is_Some (get c n) ∧
           get p n = Some m ∧ matches s m = true.
Proof.
  unfold Jq.find_in. rewrite list_elem_of_bind. split.
  - intros (c&Hp&Hc). apply list_elem_of_bind in Hp as (k&Hp&Hk).
    apply elem_of_option_list in Hk. apply list_elem_of_fmap in Hp as (q&->&Hq).
    apply descendants_spec in Hq as [Hq (m&Hm&Hs)].
    exists c, q, m. rewrite get_app, Hk. by split_and!.
  - intros (c&q&m&Hc&->&Hq&[k Hk]&Hm&Hs). exists c. split; [|done].
    apply list_elem_of_bind. exists k. split; [|by apply elem_of_option_list].
    apply list_elem_of_fmap. exists q. split; [done|]. apply descendants_spec.
    split; [done|]. exists m. rewrite get_app, Hk in Hm. done.
Qed.

(** What [$("#id", ctx)] finds is among the descendants with the id. *)
Lemma elem_of_find_id ctx id n p :
  p ∈ Jq.find_id ctx id n → p ∈ Jq.find_in ctx (ById id) n.
Proof.
  unfold Jq.find_id. intros (c&Hp&Hc)%list_elem_of_bind.
  assert (p ∈ Jq.find_in [c] (ById id) n) as Hin.
  { cbn in Hp. case_bool_decide; [|done].
    apply elem_of_take in Hp as (i&Hi&_). by eapply list_elem_of_lookup_2. }
  apply elem_of_find_in in Hin as (c'&q&m&Hc'%list_elem_of_singleton&?). subst c'.
  apply elem_of_find_in. by exists c, q, m.
Qed.

Lemma find_id_same ctx id n n' :
  all (ById id) n' = all (ById id) n →
  (∀ c, c ∈ ctx → Jq.find_in [c] (ById id) n' = Jq.find_in [c] (ById id) n) →
  Jq.find_id ctx id n' = Jq.find_id ctx id n.
Proof.
  intros Hall Hfind. unfold Jq.find_id.
  induction ctx as [|c ctx IH]; [done|]. cbn.
  rewrite IH, Hall, Hfind; [done|left|]. intros c' ?. apply Hfind. by right.
Qed.

End JqFacts.

(** ** The task script *)

Module TaskFacts.
Import Dom Sel DomFacts SelFacts JqFacts.

Lemma state_eta s : State (dom s) (editors s) = s.
Proof. by destruct s. Qed.

Lemma for_each_load key es d eds :
  for_each es (λ e : nat * value,
    d ← get_dom; modify_dom (Jq.val (controls key e.1 d) e.2)) (State d eds)
  = (State (load_all key es d) eds, Done ()).
Proof.
  revert d. induction es as [|e es IH]; intros d; [done|].
  cbn [for_each]. unfold mbind at 1, M_bind at 1. cbn. apply IH.
Qed.

Lemma strip_load_all key es d : strip (load_all key es d) = strip d.
Proof.
  unfold load_all. revert d. induction es as [|e es IH]; intros d; [done|]. simpl.
  rewrite IH. apply strip_val.
Qed.

Lemma controls_same key i d d' : strip d = strip d' → controls key i d = controls key i d'.
Proof. apply below_class_same. Qed.

Lemma elem_of_controls key i d p :
  p ∈ controls key i d →
  ∃ m, get p d = Some m ∧ matches (ByTagId "select" (key +:+ "_" +:+ pretty i)) m = true.
Proof.
  unfold controls, Jq.below_class. intros (c&q&m&_&_&_&_&Hm&Hs)%elem_of_find_in. eauto.
Qed.

(** The controls of two positions are different elements. *)
Lemma controls_disjoint key i j d p :
  p ∈ controls key i d → p ∈ controls key j d → i = j.
Proof.
  intros (m&Hm&Hi)%elem_of_controls (m'&Hm'&Hj)%elem_of_controls. simplify_eq.
  destruct m as [x|t a v ks]; [done|]. simpl in *.
  apply andb_true_iff in Hi as [_ Hi%bool_decide_eq_true].
  apply andb_true_iff in Hj as [_ Hj%bool_decide_eq_true].
  rewrite Hi in Hj. simplify_eq. by repeat (apply (inj _) in Hj).
Qed.

Lemma load_all_cons key e es d :
  load_all key (e :: es) d = load_all key es (Jq.val (controls key e.1 d) e.2 d).
Proof. done. Qed.

(** Nodes that are no control of an entry keep what is their own. *)
Lemma load_all_frame key es d p :
  (∀ e, e ∈ es → p ∉ controls key e.1 d) →
  own <$> get p (load_all key es d) = own <$> get p d.
Proof.
  revert d. induction es as [|e es IH]; intros d Hp; [done|].
  rewrite load_all_cons, IH.
  - rewrite get_val, decide_False by (apply Hp; left). by rewrite option_fmap_id.
  - intros e' He'. rewrite <-(controls_same key _ d) by (by rewrite strip_val).
    apply Hp. by right.
Qed.

(** A control of an entry gets the value of that entry. *)
Lemma load_all_set key es d i x p :
  NoDup es.*1 → (i, x) ∈ es → p ∈ controls key i d →
  own <$> get p (load_all key es d) = set_val x <$> (own <$> get p d).
Proof.
  revert d. induction es as [|e es IH]; intros d Hnd Hin Hp.
  { by apply elem_of_nil in Hin. }
  apply NoDup_cons in Hnd as [Hnew Hnd]. rewrite load_all_cons.
  apply elem_of_cons in Hin as [<-|Hin].
  - rewrite load_all_frame.
    + by rewrite get_val, decide_True.
    + intros [j y] Hj. rewrite <-(controls_same key _ d) by (by rewrite strip_val).
      intros Hpj. simpl in *. assert (i = j) as -> by eauto using controls_disjoint.
      apply Hnew. apply list_elem_of_fmap. by exists (j, y).
  - rewrite IH; [|done..|].
    + rewrite get_val, decide_False; [by rewrite option_fmap_id|].
      intros Hpe. assert (i = e.1) as -> by eauto using controls_disjoint.
      apply Hnew. apply list_elem_of_fmap. by exists (e.1, x).
    + by rewrite <-(controls_same key _ d) by (by rewrite strip_val).
Qed.

Lemma entries_fst (vs : list value) : (imap (λ i x, (i, x)) vs).*1 = seq 0 (length vs).
Proof.
  change (imap (λ i x, (i, x)) vs) with (imap (λ i x, (0 + i, x)) vs).
  generalize 0. induction vs as [|v vs IH]; intros n; [done|]. cbn.
  rewrite Nat.add_0_r. f_equal. rewrite <-IH. f_equal. apply imap_ext.
  intros i x _. simpl. f_equal. lia.
Qed.

Lemma elem_of_entries (vs : list value) i x :
  (i, x) ∈ imap (λ i x, (i, x)) vs ↔ vs !! i = Some x.
Proof.
  rewrite elem_of_lookup_imap. split.
  - by intros (j&y&?&?); simplify_eq.
  - intros ?. by exists i, x.
Qed.

(** The run of [load_input_matching] on a sequence. *)
Lemma load_input_run submissionid key input vs s :
  Js.has_key key input = Some true → Js.get_prop key input = VArr vs →
  load_input_matching submissionid key input s
  = (State (load_all key (imap (λ i x, (i, x)) vs) (dom s)) (editors s), Done ()).
Proof.
  intros Hkey Hvs. unfold load_input_matching, mbind, M_bind. rewrite Hkey, Hvs. cbn.
  rewrite <-(state_eta s) at 1. apply for_each_load.
Qed.

End TaskFacts.

(** ** The index scan *)

Module ScanFacts.
Import Dom Sel DomFacts SelFacts JqFacts.

Lemma by_id_nonempty id d : length (Jq.by_id id d) ≠ 0 ↔ all (ById id) d ≠ [].
Proof. unfold Jq.by_id. by destruct (all (ById id) d). Qed.

Lemma lookup_id_inj pid : Inj (=) (=) (lookup_id pid).
Proof.
  intros i j H. unfold lookup_id in H. do 3 apply (inj _) in H. by apply (inj _) in H.
Qed.

Lemma length_ids n : length (ids n) ≤ size n.
Proof.
  induction n as [x|t a v ks IH] using node_ind_kids; [done|]. cbn [ids size].
  rewrite length_app. assert (length (option_list (attr_get "id" a)) ≤ 1)
    by (destruct (attr_get "id" a); simpl; lia).
  enough (length (mjoin (ids <$> ks)) ≤ foldr (λ k acc, size k + acc) 0 ks) by lia.
  clear -IH. induction IH as [|k ks Hk _ IHks]; [done|]. csimpl.
  rewrite length_app. lia.
Qed.

Lemma all_ids id n : all (ById id) n ≠ [] → id ∈ ids n.
Proof.
  induction n as [x|t a v ks IH] using node_ind_kids; [done|].
  rewrite all_unfold. cbn [ids]. intros Hne. apply elem_of_app.
  destruct (matches (ById id) (Elem t a v ks)) eqn:Hm.
  - left. simpl in Hm. apply bool_decide_eq_true in Hm. rewrite Hm. by left.
  - right. simpl in Hne. unfold descendants in Hne. cbn [kids_of] in Hne.
    destruct (kids_paths (all (ById id)) 0 ks) as [|p ps] eqn:Hps; [done|].
    assert (p ∈ kids_paths (all (ById id)) 0 ks) as Hp by (rewrite Hps; left).
    apply elem_of_kids_paths in Hp as (j&k&q&Hj&Hq&_).
    rewrite Forall_lookup in IH. apply list_elem_of_join. exists (ids k). split.
    + apply (IH _ _ Hj). by intros Hnil; rewrite Hnil in Hq; apply elem_of_nil in Hq.
    + apply list_elem_of_fmap. exists k. split; [done|]. by eapply list_elem_of_lookup_2.
Qed.

(** Some index up to the number of elements is free. *)
Lemma free_index_exists pid d :
  ∃ j, j ≤ size d ∧ all (ById (lookup_id pid j)) d = [].
Proof.
  destruct (decide (Exists (λ j, all (ById (lookup_id pid j)) d = []) (seq 0 (S (size d)))))
    as [(j&Hj&Hfree)%Exists_exists|Hall].
  - exists j. apply elem_of_seq in Hj. split; [lia|done].
  - exfalso. apply not_Exists_Forall in Hall; [|intros j; apply _].
    rewrite Forall_forall in Hall.
    assert (lookup_id pid <$> seq 0 (S (size d)) ⊆+ ids d) as Hsub.
    { apply NoDup_submseteq.
      - apply (NoDup_fmap_2 _), NoDup_seq.
      - intros x (j&->&Hj)%list_elem_of_fmap. apply all_ids. by apply Hall. }
    apply submseteq_length in Hsub. rewrite length_fmap, length_seq in Hsub.
    pose proof (length_ids d). lia.
Qed.

Lemma scan_index_Some fuel pid d i k :
  scan_index fuel pid d i = Some k →
  i ≤ k ∧ all (ById (lookup_id pid k)) d = [] ∧
  ∀ j, i ≤ j < k → all (ById (lookup_id pid j)) d ≠ [].
Proof.
  revert i. induction fuel as [|fuel IH]; intros i; [done|]. simpl.
  case_bool_decide as Hi.
  - intros (?&?&Hlt)%IH. split_and!; [lia|done|]. intros j Hj.
    destruct (decide (j = i)) as [->|]; [by apply by_id_nonempty|apply Hlt; lia].
  - intros [= <-]. split_and!; [done| |intros; lia].
    destruct (decide (all (ById (lookup_id pid i)) d = [])) as [|Hne]; [done|].
    by apply by_id_nonempty in Hne.
Qed.

Lemma scan_index_is_Some fuel pid d i j :
  i ≤ j < i + fuel → all (ById (lookup_id pid j)) d = [] →
  is_Some (scan_index fuel pid d i).
Proof.
  revert i. induction fuel as [|fuel IH]; intros i Hj Hfree; [lia|]. simpl.
  case_bool_decide as Hi; [|done].
  apply IH; [|done]. destruct (decide (i = j)) as [->|]; [|lia].
  by apply by_id_nonempty in Hi.
Qed.

(** The scan ends, on the least index whose lookup id no element bears. *)
Lemma free_index_least pid d :
  ∃ i, free_index pid d = Some i ∧ all (ById (lookup_id pid i)) d = [] ∧
       ∀ j, j < i → all (ById (lookup_id pid j)) d ≠ [].
Proof.
  destruct (free_index_exists pid d) as (j&Hj&Hfree).
  destruct (scan_index_is_Some (S (size d)) pid d 0 j) as [i Hi]; [lia|done|].
  exists i. split; [done|]. apply scan_index_Some in Hi as (_&?&Hlt).
  split; [done|]. intros k ?. apply Hlt. lia.
Qed.

Lemma free_index_unique pid d k :
  all (ById (lookup_id pid k)) d = [] →
  (∀ j, j < k → all (ById (lookup_id pid j)) d ≠ []) →
  free_index pid d = Some k.
Proof.
  intros Hfree Hlt. destruct (free_index_least pid d) as (i&Hi&Hfree'&Hlt').
  rewrite Hi. f_equal. destruct (Nat.lt_trichotomy i k) as [?|[?|?]]; [|done|].
  - by destruct (Hlt i).
  - by destruct (Hlt' k).
Qed.

End ScanFacts.

(** ** The effects of the studio script *)

Module StudioFacts.
Import Dom Sel DomFacts SelFacts JqFacts TaskFacts ScanFacts.
Export Frame.

#[export] Instance keeps_preorder : PreOrder keeps.
Proof.
  split; [done|]. intros d1 d2 d3 H12 H23 p Hp. rewrite H23, H12; [done..|].
  specialize (H12 p Hp). destruct Hp as [m Hm]. rewrite Hm in H12.
  destruct (get p d2); [done|]. done.
Qed.

Lemma own_strip n : own (strip n) = strip (own n).
Proof. by destruct n. Qed.

Lemma keeps_strip d d' : strip d = strip d' → keeps d d'.
Proof.
  intros H p _. pose proof (get_strip p d) as H1. rewrite H, get_strip in H1.
  destruct (get p d), (get p d'); simplify_eq/=; [|done].
  f_equal. by rewrite <-!own_strip, H1.
Qed.

Lemma keeps_add_kid k t d : keeps d (alter_at (add_kid k) t d).
Proof.
  intros p Hp. destruct (decide (t `prefix_of` p)) as [[q ->]|Hpre].
  - rewrite get_alter_at. rewrite get_app in Hp |- *.
    destruct (get t d) as [m|]; [|done]. simpl in *.
    destruct q as [|j q]; [by destruct m|]. destruct m as [x|tg a v ks]; [done|].
    cbn [add_kid get kids_of] in *. destruct (ks !! j) as [kj|] eqn:Hj; [|by destruct Hp].
    by rewrite (lookup_app_l_Some _ _ _ _ Hj).
  - by rewrite !option_fmap_compose, (get_alter_at_off _ _ _ _ Hpre).
Qed.

Lemma keeps_append ps k d : keeps d (Jq.append ps k d).
Proof.
  unfold Jq.append. revert d. induction ps as [|t ps IH]; intros d; [done|]. simpl.
  etrans; [apply (keeps_add_kid k t)|apply IH].
Qed.

Lemma alter_at_id p n : alter_at id p n = n.
Proof.
  revert n. induction p as [|i p IH]; intros n; [done|].
  destruct n as [x|t a v ks]; [done|]. simpl. f_equal. by apply list_alter_id.
Qed.

(** [.val(x)] on elements below [r] is [.val(x)] inside the node at [r]. *)
Lemma val_prefixed r ps x d :
  Jq.val ((r ++.) <$> ps) x d = alter_at (Jq.val ps x) r d.
Proof.
  unfold Jq.val. revert d. induction ps as [|p ps IH]; intros d; simpl.
  - by rewrite alter_at_id.
  - rewrite IH, alter_at_app, alter_at_compose. done.
Qed.

Lemma alter_snoc {A} (f : A → A) (l : list A) x : alter f (length l) (l ++ [x]) = l ++ [f x].
Proof. induction l; simpl; by f_equal. Qed.

(** *** What a script may do to the state, however it ends *)

Section Effect.
Context (E : relation state) `{!PreOrder E}.

Lemma effect_ret {A} (a : A) : effect E (mret a).
Proof. by intros s. Qed.

Lemma effect_throw {A} : effect E (@throw A).
Proof. by intros s. Qed.

Lemma effect_raising {A} (o : option A) : effect E (raising o).
Proof. destruct o; [apply effect_ret|apply effect_throw]. Qed.

Lemma effect_scanned o : effect E (scanned o).
Proof. destruct o; by intros s. Qed.

Lemma effect_get_dom : effect E get_dom.
Proof. by intros s. Qed.

Lemma effect_bind {A B} (m : M A) (f : A → M B) :
  effect E m → (∀ a, effect E (f a)) → effect E (m ≫= f).
Proof.
  intros Hm Hf s. unfold mbind, M_bind. specialize (Hm s).
  destruct (m s) as [s1 [a| |]]; [|done..]. etrans; [apply Hm|apply Hf].
Qed.

Lemma effect_for_each {A} (l : list A) (f : A → M unit) :
  (∀ a, effect E (f a)) → effect E (for_each l f).
Proof.
  intros Hf. induction l as [|a l IH]; [apply effect_ret|].
  apply effect_bind; [apply Hf|done].
Qed.

End Effect.

#[export] Instance fills_preorder : PreOrder fills.
Proof.
  split; [done|]. intros s1 s2 s3 [H12 E12] [H23 E23]. split; [congruence|by etrans].
Qed.

#[export] Instance grows_preorder : PreOrder grows.
Proof.
  split; [done|]. intros s1 s2 s3 [H12 E12] [H23 E23]. split; by etrans.
Qed.

Lemma fills_grows s s' : fills s s' → grows s s'.
Proof. intros [H ?]. split; [by apply keeps_strip|done]. Qed.

Lemma effect_weaken {A} (E E' : relation state) (m : M A) :
  (∀ s s', E s s' → E' s s') → effect E m → effect E' m.
Proof. intros HE Hm s. apply HE, Hm. Qed.

Section Create.
Variable inner_html : list node → string.
Variable parse_html : string → list node.
Variable well_id : string → string.

Lemma editor_in_row_attached sel r x d eds row q :
  get r d = Some row → head (descendants sel row) = Some q →
  editor_in_row sel (Attached r) x (State d eds)
  = (State d (eds ++ [Editor (InDoc (r ++ q)) "rst" 1 (Some x)]), Done ()).
Proof.
  intros Hr Hq. unfold editor_in_row, mbind, M_bind, get_dom, find_in_row. cbn.
  rewrite Hr. cbn. rewrite app_nil_r, Hq. cbn. unfold setValue. cbn.
  by rewrite alter_snoc.
Qed.

Lemma editor_in_row_fills sel h x : effect fills (editor_in_row sel h x).
Proof.
  intros s. unfold editor_in_row, mbind, M_bind, get_dom. cbn.
  destruct (ref_in h <$> head (find_in_row sel h (dom s))) as [r|]; cbn; [|done].
  split; [done|]. rewrite alter_snoc. by eexists.
Qed.

Lemma val_in_row_attached sel r x d eds row :
  get r d = Some row →
  val_in_row sel (Attached r) x (State d eds)
  = (State (alter_at (Jq.val (descendants sel row) x) r d) eds, Done (Attached r)).
Proof.
  intros Hr. unfold val_in_row, find_in_row. cbn. rewrite Hr. cbn.
  by rewrite app_nil_r, val_prefixed.
Qed.

Lemma val_in_row_fills sel h x : effect fills (val_in_row sel h x).
Proof. intros s. destruct h; cbn; [|done]. split; [apply strip_val|done]. Qed.

(** A name that no object inherits is in an object when it is a field. *)
Lemma has_key_field name fs :
  name ∉ Js.object_members →
  Js.has_key name (VObj fs) = Some (bool_decide (is_Some (Js.assoc name fs))).
Proof.
  intros Hname. cbn [Js.has_key]. by rewrite (bool_decide_false (name ∈ _)), orb_false_r.
Qed.

Lemma present_field name fs :
  name ∉ Js.object_members →
  Js.present name (VObj fs) = bool_decide (is_Some (Js.assoc name fs)).
Proof. intros Hname. unfold Js.present. by rewrite has_key_field. Qed.

Lemma field_or_empty_run data name s :
  field_or_empty data name s =
  match Js.has_key name data with
  | Some _ => (s, Done (field_default data name))
  | None => (s, Thrown)
  end.
Proof.
  unfold field_or_empty, field_default, Js.present, mbind, M_bind.
  destruct (Js.has_key name data) as [[]|]; done.
Qed.

Lemma field_or_empty_obj fs name s :
  field_or_empty (VObj fs) name s = (s, Done (field_default (VObj fs) name)).
Proof. by rewrite field_or_empty_run. Qed.

Lemma bind_done {A B} (m : M A) (f : A → M B) s s1 a :
  m s = (s1, Done a) → (m ≫= f) s = f a s1.
Proof. intros H. unfold mbind, M_bind. by rewrite H. Qed.

Lemma field_or_empty_effect E `{!PreOrder E} data name : effect E (field_or_empty data name).
Proof. intros s. rewrite field_or_empty_run. by destruct (Js.has_key name data). Qed.

(** Filling a row changes values of controls and adds editors, nothing else;
    this holds however the call ends. *)
Lemma fill_row_fills question_data h : effect fills (fill_row question_data h).
Proof.
  unfold fill_row.
  apply effect_bind; [apply _|apply effect_raising, _|intros hq].
  apply effect_bind; [apply _| |intros h1].
  { destruct hq; [apply val_in_row_fills|apply effect_ret, _]. }
  apply effect_bind; [apply _|apply effect_raising, _|intros ha].
  apply effect_bind; [apply _| |intros h2].
  { destruct ha; [apply val_in_row_fills|apply effect_ret, _]. }
  apply effect_bind; [apply _|apply field_or_empty_effect, _|intros sf].
  apply effect_bind; [apply _|apply field_or_empty_effect, _|intros ef].
  apply effect_bind; [apply _|apply editor_in_row_fills|intros _].
  apply editor_in_row_fills.
Qed.

Lemma append_row_grows ps k : effect grows (append_row ps k).
Proof.
  intros s. unfold append_row. destruct (last ps); cbn; [|done].
  split; [apply keeps_append|done].
Qed.

Lemma create_at_grows pid question_data well index :
  effect grows (create_at inner_html parse_html pid question_data well index).
Proof.
  unfold create_at.
  apply effect_bind; [apply _|apply effect_get_dom, _|intros d].
  apply effect_bind; [apply _|apply effect_raising, _|intros row].
  apply effect_bind; [apply _|apply append_row_grows|intros h].
  eapply effect_weaken; [apply fills_grows|apply fill_row_fills].
Qed.

(** Creating a question is purely additive. *)
Lemma create_grows pid question_data :
  effect grows (studio_create_matching_question inner_html parse_html well_id pid question_data).
Proof.
  unfold studio_create_matching_question.
  apply effect_bind; [apply _|apply effect_get_dom, _|intros d].
  apply effect_bind; [apply _|apply effect_scanned, _|intros index].
  apply create_at_grows.
Qed.

(** The call is the rest of its body at the least free index. *)
Lemma create_unfold pid question_data s :
  ∃ i, free_index pid (dom s) = Some i ∧
       studio_create_matching_question inner_html parse_html well_id pid question_data s
       = create_at inner_html parse_html pid question_data
           (studio_get_problem well_id pid (dom s)) i s.
Proof.
  destruct (free_index_least pid (dom s)) as (i&Hi&_). exists i. split; [done|].
  unfold studio_create_matching_question, mbind, M_bind, get_dom.
  cbn -[free_index create_at studio_get_problem]. by rewrite Hi.
Qed.

End Create.
End StudioFacts.

(** ** Removing a row *)

Module RemoveFacts.
Import Dom Sel DomFacts SelFacts JqFacts.

Lemma prefix_cons_iff {A} (x y : A) (l k : list A) :
  x :: l `prefix_of` y :: k ↔ x = y ∧ l `prefix_of` k.
Proof.
  split.
  - intros [q Hq]. simplify_eq/=. split; [done|by exists q].
  - intros [-> ?]. by apply prefix_cons.
Qed.

(** What is selected after a removal is what was selected outside the
    removed subtree. *)
Lemma all_remove_at s r d :
  r ≠ [] →
  (∃ p, p ∈ all s (remove_at r d)) ↔ (∃ p, p ∈ all s d ∧ ¬ r `prefix_of` p).
Proof.
  setoid_rewrite all_spec. revert d. induction r as [|i r IH]; intros d Hr; [done|].
  destruct d as [x|t a v ks].
  { destruct r; simpl; split.
    - intros (p&m&Hm&Hs). destruct p; by simplify_eq/=.
    - intros (p&(m&Hm&Hs)&_). destruct p; by simplify_eq/=.
    - intros (p&m&Hm&Hs). destruct p; by simplify_eq/=.
    - intros (p&(m&Hm&Hs)&_). destruct p; by simplify_eq/=. }
  destruct r as [|i' r].
  - cbn [remove_at]. split.
    + intros ([|j q]&m&Hm&Hs).
      * exists []. split; [exists (Elem t a v ks); by simplify_eq/=|].
        by intros ?%prefix_nil_inv.
      * cbn [get kids_of] in Hm. destruct (decide (j < i)) as [Hlt|Hge].
        -- rewrite list_lookup_delete_lt in Hm by done. exists (j :: q).
           split; [by exists m|]. intros [? _]%prefix_cons_iff. lia.
        -- rewrite list_lookup_delete_ge in Hm by lia. exists (S j :: q).
           split; [by exists m|]. intros [? _]%prefix_cons_iff. lia.
    + intros ([|j q]&(m&Hm&Hs)&Hp).
      * exists [], (Elem t a v (delete i ks)). by simplify_eq/=.
      * cbn [get kids_of] in Hm. assert (j ≠ i) as Hji.
        { intros ->. apply Hp. apply prefix_cons, prefix_nil. }
        destruct (decide (j < i)) as [Hlt|Hge].
        -- exists (j :: q), m. cbn [get kids_of].
           by rewrite list_lookup_delete_lt by done.
        -- destruct j as [|j]; [lia|]. exists (j :: q), m. cbn [get kids_of].
           by rewrite list_lookup_delete_ge by lia.
  - change (remove_at (i :: i' :: r) (Elem t a v ks))
      with (Elem t a v (alter (remove_at (i' :: r)) i ks)).
    split.
    + intros ([|j q]&m&Hm&Hs).
      * exists []. split; [exists (Elem t a v ks); by simplify_eq/=|].
        by intros ?%prefix_nil_inv.
      * cbn [get kids_of] in Hm. destruct (decide (i = j)) as [->|Hij].
        -- rewrite list_lookup_alter_eq in Hm.
           destruct (ks !! j) as [k|] eqn:Hk; [|done]. cbn in Hm.
           destruct (proj1 (IH k ltac:(done))) as (q0&(m0&Hm0&Hs0)&Hq0); [by eauto|].
           exists (j :: q0). split; [exists m0; cbn [get kids_of]; by rewrite Hk|].
           by intros [_ ?]%prefix_cons_iff.
        -- rewrite list_lookup_alter_ne in Hm by done. exists (j :: q).
           split; [by exists m|]. by intros [? _]%prefix_cons_iff.
    + intros ([|j q]&(m&Hm&Hs)&Hp).
      * exists [], (Elem t a v (alter (remove_at (i' :: r)) i ks)). by simplify_eq/=.
      * cbn [get kids_of] in Hm. destruct (decide (i = j)) as [->|Hij].
        -- destruct (ks !! j) as [k|] eqn:Hk; [|done].
           destruct (proj2 (IH k ltac:(done))) as (q0&m0&Hm0&Hs0).
           { exists q. split; [by eauto|]. intros Hq. apply Hp. by apply prefix_cons. }
           exists (j :: q0), m0. cbn [get kids_of].
           by rewrite list_lookup_alter_eq, Hk.
        -- exists (j :: q), m. cbn [get kids_of]. by rewrite list_lookup_alter_ne.
Qed.

Lemma nonempty_exists {A} (l : list A) : l ≠ [] ↔ ∃ x, x ∈ l.
Proof.
  destruct l as [|x l]; split; try done.
  - by intros [x ?%elem_of_nil].
  - intros _. exists x. left.
Qed.

Lemma all_remove_at_nil s r d :
  r ≠ [] → Forall (λ p, r `prefix_of` p) (all s d) → all s (remove_at r d) = [].
Proof.
  intros Hr Hall. destruct (all s (remove_at r d)) as [|p ps] eqn:Hnil; [done|].
  destruct (proj1 (all_remove_at s r d Hr)) as (q&Hq&Hpre).
  { exists p. rewrite Hnil. left. }
  rewrite Forall_forall in Hall. destruct Hpre. by apply Hall.
Qed.

Lemma all_remove_at_cons s r d :
  r ≠ [] → Exists (λ p, ¬ r `prefix_of` p) (all s d) → all s (remove_at r d) ≠ [].
Proof.
  intros Hr (p&Hp&Hpre)%Exists_exists. apply nonempty_exists.
  apply all_remove_at; eauto.
Qed.

End RemoveFacts.

(** ** One creation, step by step *)

Module RowFacts.
Import Dom Sel DomFacts SelFacts JqFacts StudioFacts.

Lemma alter_at_ext_at f g r d :
  (∀ m, get r d = Some m → f m = g m) → alter_at f r d = alter_at g r d.
Proof.
  revert d. induction r as [|i r IH]; intros d Hfg; [by apply Hfg|].
  destruct d as [x|t a v ks]; [done|]. simpl. f_equal.
  apply list_alter_ext; [|done]. intros k Hk. apply IH. intros m Hm. apply Hfg.
  cbn [get kids_of]. by rewrite Hk.
Qed.

Lemma alter_at_same r d m : get r d = Some m → alter_at (λ _, m) r d = d.
Proof.
  intros Hm. rewrite <-(alter_at_id r d) at 2. apply alter_at_ext_at.
  intros m' Hm'. by simplify_eq.
Qed.

Lemma find_id_singleton ctx id d t :
  Jq.find_id ctx id d = [t] → ∃ tg a v ks, get t d = Some (Elem tg a v ks).
Proof.
  intros Ht. assert (t ∈ Jq.find_id ctx id d) as Hin by (rewrite Ht; left).
  apply elem_of_find_id, elem_of_find_in in Hin as (c&q&m&_&_&_&_&Hm&Hs).
  destruct m as [x|tg a v ks]; [done|]. by exists tg, a, v, ks.
Qed.

(** The row is the last child of the element it was appended to. *)
Lemma get_appended t k d tg a v ks :
  get t d = Some (Elem tg a v ks) →
  get (t ++ [length ks]) (alter_at (add_kid k) t d) = Some k.
Proof.
  intros Ht. rewrite get_alter_at, Ht. cbn.
  by rewrite lookup_app_r, Nat.sub_diag by done.
Qed.

Lemma get_append_here t k d tg a v ks :
  get t d = Some (Elem tg a v ks) →
  get t (alter_at (add_kid k) t d) = Some (Elem tg a v (ks ++ [k])).
Proof. intros Ht. by rewrite get_alter_at_here, Ht. Qed.

Lemma descendants_fill_class s c b x row :
  descendants s (fill_class c b x row) = descendants s row.
Proof. destruct b; [apply descendants_val|done]. Qed.

Lemma strip_fill_class c b x row : strip (fill_class c b x row) = strip row.
Proof. destruct b; [apply strip_val|done]. Qed.

Lemma descendants_fill_vals s question_data row :
  descendants s (fill_vals question_data row) = descendants s row.
Proof. unfold fill_vals. by rewrite !descendants_fill_class. Qed.

Lemma strip_fill_vals question_data row : strip (fill_vals question_data row) = strip row.
Proof. unfold fill_vals. by rewrite !strip_fill_class. Qed.

Lemma val_of_own n : val_of (own n) = val_of n.
Proof. by destruct n. Qed.

(** One [.val(x)] line on a row whose root is not of the class. *)
Lemma get_fill_class c b x row p m :
  matches (ByClass c) row = false → get p row = Some m →
  ∃ m', get p (fill_class c b x row) = Some m' ∧ strip m' = strip m ∧
        val_of m' = if b && matches (ByClass c) m then Some x else val_of m.
Proof.
  intros Hroot Hm.
  pose proof (get_strip p (fill_class c b x row)) as Hstrip.
  rewrite strip_fill_class, get_strip, Hm in Hstrip.
  destruct (get p (fill_class c b x row)) as [m'|] eqn:Hm'; [|done].
  exists m'. split; [done|]. split; [by simplify_eq/=|].
  destruct b; [|by simplify_eq/=]. unfold fill_class in Hm'.
  pose proof (get_val x (descendants (ByClass c) row) p row) as Hown.
  rewrite Hm', Hm in Hown. cbn in Hown. rewrite <-val_of_own. simplify_eq.
  rewrite Hown. destruct (decide (p ∈ _)) as [Hin|Hin].
  - apply descendants_spec in Hin as [_ (m0&?&Hs)]. simplify_eq. rewrite Hs. by destruct m.
  - destruct (matches (ByClass c) m) eqn:Hs; [|unfold id; by rewrite val_of_own].
    destruct Hin. apply descendants_spec. split; [|by eauto].
    intros ->. simplify_eq/=. congruence.
Qed.

Lemma matches_strip_eq s n m : strip n = strip m → matches s n = matches s m.
Proof. intros H. by rewrite <-(matches_strip s n), H, matches_strip. Qed.

(** The value of every node of a filled row. *)
Lemma get_fill_vals question_data row p m :
  attr_get "class" (attrs_of row) = None →
  get p row = Some m →
  ∃ m', get p (fill_vals question_data row) = Some m' ∧
        strip m' = strip m ∧ val_of m' = filled_val question_data m.
Proof.
  intros Hroot Hm.
  assert (∀ c n, strip n = strip row → matches (ByClass c) n = false) as Hrow.
  { intros c n Hn. rewrite (matches_strip_eq _ _ _ Hn).
    destruct row; [done|]. simpl in *. by rewrite Hroot. }
  unfold fill_vals, filled_val.
  edestruct (get_fill_class "subproblem_matching_question") as (m1&Hm1&Hs1&Hv1);
    [by apply Hrow|exact Hm|].
  edestruct (get_fill_class "subproblem_matching_answer") as (m2&Hm2&Hs2&Hv2);
    [apply Hrow, strip_fill_class|exact Hm1|].
  exists m2. split; [exact Hm2|]. split; [congruence|].
  rewrite Hv2, Hv1. by rewrite (matches_strip_eq _ _ _ Hs1).
Qed.

Section Row.
Variable inner_html : list node → string.
Variable parse_html : string → list node.
Variable well_id : string → string.

(** Filling a row of the document, when its fields can be read and its two
    feedback areas exist. *)
Lemma fill_row_attached fs r d eds row e1 e2 :
  get r d = Some row →
  head (descendants (ByClass "subproblem_matching_success_feedback") row) = Some e1 →
  head (descendants (ByClass "subproblem_matching_error_feedback") row) = Some e2 →
  fill_row (VObj fs) (Attached r) (State d eds)
  = (State (alter_at (fill_vals (VObj fs)) r d)
       (eds ++ [Editor (InDoc (r ++ e1)) "rst" 1
                  (Some (field_default (VObj fs) "success_feedback"));
                Editor (InDoc (r ++ e2)) "rst" 1
                  (Some (field_default (VObj fs) "error_feedback"))]),
     Done ()).
Proof.
  intros Hr He1 He2. unfold fill_row.
  set (q := VObj fs).
  set (row1 := fill_class "subproblem_matching_question" (Js.present "question" q)
                 (Js.get_prop "question" q) row).
  set (d1 := alter_at (λ _, row1) r d).
  assert (get r d1 = Some row1) as Hr1 by (subst d1; by rewrite get_alter_at_here, Hr).
  assert (alter_at (fill_vals q) r d = alter_at (λ _, fill_vals q row) r d1) as ->.
  { subst d1. rewrite alter_at_compose. apply alter_at_ext_at. intros m Hm. by simplify_eq. }
  unfold mbind at 1, M_bind at 1. assert ("question" ∉ Js.object_members) as Hnq by by_compute.
  rewrite (has_key_field "question" fs Hnq : Js.has_key "question" q = _).
  cbn [raising mret M_ret q].
  unfold mbind at 1, M_bind at 1.
  assert ((if bool_decide (is_Some (Js.assoc "question" fs))
           then val_in_row (ByClass "subproblem_matching_question") (Attached r)
                  (Js.get_prop "question" q)
           else mret (Attached r)) (State d eds)
          = (State d1 eds, Done (Attached r))) as ->.
  { subst d1 row1. unfold fill_class. rewrite (present_field "question" fs Hnq : Js.present "question" q = _).
    case_bool_decide as Hq.
    - rewrite (val_in_row_attached _ _ _ _ _ row) by done. do 2 f_equal.
      apply alter_at_ext_at. intros m Hm. by simplify_eq.
    - by rewrite alter_at_same. }
  unfold mbind at 1, M_bind at 1. assert ("answer" ∉ Js.object_members) as Hna by by_compute.
  rewrite (has_key_field "answer" fs Hna : Js.has_key "answer" q = _).
  cbn [raising mret M_ret].
  unfold mbind at 1, M_bind at 1.
  set (d2 := alter_at (λ _, fill_vals q row) r d1).
  assert (get r d2 = Some (fill_vals q row)) as Hr2
    by (subst d2; by rewrite get_alter_at_here, Hr1).
  assert ((if bool_decide (is_Some (Js.assoc "answer" fs))
           then val_in_row (ByClass "subproblem_matching_answer") (Attached r)
                  (Js.get_prop "answer" q)
           else mret (Attached r)) (State d1 eds)
          = (State d2 eds, Done (Attached r))) as ->.
  { subst d2. unfold fill_vals. fold row1. unfold fill_class at 1.
    rewrite (present_field "answer" fs Hna : Js.present "answer" q = _). case_bool_decide as Ha.
    - rewrite (val_in_row_attached _ _ _ _ _ row1) by done. do 2 f_equal.
      apply alter_at_ext_at. intros m Hm. by simplify_eq.
    - by rewrite alter_at_same. }
  erewrite bind_done; [|apply field_or_empty_obj].
  erewrite bind_done; [|apply field_or_empty_obj].
  erewrite bind_done;
    [|apply (editor_in_row_attached _ _ _ _ _ (fill_vals q row) e1);
      by rewrite ?descendants_fill_vals].
  rewrite (editor_in_row_attached _ _ _ _ _ (fill_vals q row) e2)
    by (by rewrite ?descendants_fill_vals).
  by rewrite <-(assoc_L (++)).
Qed.

(** The body of a creation up to the append, with one container. *)
Lemma create_at_run pid question_data well i d eds tpl t tg a v ks :
  template_markup inner_html d = Some tpl →
  Jq.find_id well ("questions-" +:+ pid) d = [t] →
  get t d = Some (Elem tg a v ks) →
  create_at inner_html parse_html pid question_data well i (State d eds)
  = fill_row question_data (Attached (t ++ [length ks]))
      (State (alter_at (add_kid (make_row parse_html pid i (new_row_content tpl pid i))) t d)
         eds).
Proof.
  intros Htpl Ht Hget. unfold create_at, mbind, M_bind, get_dom. cbn [dom].
  rewrite Htpl. cbn [raising mret M_ret]. rewrite Ht. unfold append_row. cbn [last dom editors].
  by rewrite Hget.
Qed.

End Row.
End RowFacts.

(** ** The initialization, step by step *)

Module InitFacts.
Import Dom Sel DomFacts SelFacts JqFacts TaskFacts StudioFacts RowFacts.

Lemma attr_set_attr_set name v a : attr_set name v (attr_set name v a) = attr_set name v a.
Proof.
  induction a as [|[n w] a IH]; simpl.
  - by rewrite decide_True.
  - destruct (decide (n = name)) as [->|Hn]; simpl.
    + by rewrite decide_True.
    + by rewrite decide_False, IH.
Qed.

Lemma set_attr_set_attr name v n : set_attr name v (set_attr name v n) = set_attr name v n.
Proof. destruct n; [done|]. simpl. by rewrite attr_set_attr_set. Qed.

Lemma get_set_attr_below name v q m : q ≠ [] → get q (set_attr name v m) = get q m.
Proof. intros Hq. destruct q; [done|]. by destruct m. Qed.

(** [.attr(name, v)] on one element: that element gets the attribute, every
    other node keeps what is its own. *)
Lemma get_alter_at_set_attr name v c p n :
  own <$> get p (alter_at (set_attr name v) c n)
  = (if decide (p = c) then set_attr name v else id) <$> (own <$> get p n).
Proof.
  case_decide as Hpc.
  - subst p. rewrite get_alter_at_here. destruct (get c n) as [[?|????]|]; done.
  - rewrite option_fmap_id. destruct (decide (c `prefix_of` p)) as [[q ->]|Hpre].
    + rewrite get_alter_at, get_app. destruct (get c n) as [m|]; [|done]. simpl.
      rewrite get_set_attr_below; [done|]. intros ->. by rewrite app_nil_r in Hpc.
    + by apply get_alter_at_off.
Qed.

Lemma get_attr name v ps p n :
  own <$> get p (Jq.attr ps name v n)
  = (if decide (p ∈ ps) then set_attr name v else id) <$> (own <$> get p n).
Proof.
  unfold Jq.attr. revert n. induction ps as [|c ps IH]; intros n; simpl.
  - by rewrite option_fmap_id.
  - rewrite IH, get_alter_at_set_attr.
    destruct (decide (p = c)) as [->|Hpc].
    + rewrite (decide_True (P := c ∈ c :: ps)) by left.
      destruct (get c n) as [m|]; [|by case_decide]. simpl.
      case_decide; simpl; by rewrite ?set_attr_set_attr.
    + rewrite option_fmap_id. destruct (decide (p ∈ ps)) as [Hin|Hin].
      * by rewrite decide_True by by right.
      * rewrite decide_False; [done|]. by intros [?|?]%elem_of_cons.
Qed.

(** An alteration that keeps the children of a node and what a selection
    sees leaves what is found from any context. *)
Lemma find_in_alter_at f c p s d :
  (∀ m, matches s (f m) = matches s m) →
  (∀ m, descendants s (f m) = descendants s m) →
  (∀ m q, q ≠ [] → get q (f m) = get q m) →
  Jq.find_in [c] s (alter_at f p d) = Jq.find_in [c] s d.
Proof.
  intros Hm Hd Hkids. unfold Jq.find_in. cbn. f_equal.
  destruct (decide (c `prefix_of` p)) as [[q ->]|Hcp].
  - rewrite alter_at_app, get_alter_at_here. destruct (get c d) as [k|]; [|done]. cbn.
    by rewrite descendants_alter_at.
  - enough (get c (alter_at f p d) = get c d) as -> by done.
    destruct (decide (p `prefix_of` c)) as [[q ->]|Hpc].
    + rewrite get_alter_at, get_app. destruct (get p d) as [m|]; [|done]. cbn.
      apply Hkids. intros ->. destruct Hcp. by rewrite app_nil_r.
    + revert Hcp Hpc. clear. revert c d.
      induction p as [|i p IH]; intros c d Hcp Hpc. { destruct Hpc. apply prefix_nil. }
      destruct c as [|j c]. { destruct Hcp. apply prefix_nil. }
      destruct d as [x|t a v ks]; [done|]. cbn [get alter_at kids_of].
      destruct (decide (i = j)) as [->|Hij].
      * rewrite list_lookup_alter_eq. destruct (ks !! j) as [k|]; [|done]. cbn.
        apply IH; intros ?; [apply Hcp|apply Hpc]; by apply prefix_cons.
      * by rewrite list_lookup_alter_ne.
Qed.

Lemma find_in_attr_checked c s v ps n :
  Jq.find_in [c] s (Jq.attr ps "checked" v n) = Jq.find_in [c] s n.
Proof.
  unfold Jq.attr. revert n. induction ps as [|p ps IH]; intros n; [done|]. simpl.
  rewrite IH. apply find_in_alter_at;
    [apply matches_set_attr_checked|apply descendants_set_attr|].
  intros m q Hq. by apply get_set_attr_below.
Qed.

Lemma all_attr_checked s v ps n : all s (Jq.attr ps "checked" v n) = all s n.
Proof.
  unfold Jq.attr. revert n. induction ps as [|c ps IH]; intros n; [done|]. simpl.
  rewrite IH. apply all_alter_at; [apply matches_set_attr_checked|apply descendants_set_attr].
Qed.

Lemma by_id_check_box id well pid problem name d :
  Jq.by_id id (check_box well pid problem name d) = Jq.by_id id d.
Proof.
  unfold Jq.by_id, check_box. case_match; [|done]. by rewrite all_attr_checked.
Qed.

(** Only a value that is no object makes [in] raise, whatever the key. *)
Lemma has_key_None k v k' : Js.has_key k v = None → Js.has_key k' v = None.
Proof. by destruct v. Qed.

Lemma find_id_check_box ctx id well pid problem name d :
  Jq.find_id ctx id (check_box well pid problem name d) = Jq.find_id ctx id d.
Proof.
  unfold check_box. case_match; [|done].
  apply find_id_same; [apply all_attr_checked|intros c _; apply find_in_attr_checked].
Qed.

Lemma init_checkbox_run well pid problem name s :
  init_checkbox well pid problem name s
  = (State (check_box well pid problem name (dom s)) (editors s),
     match Js.has_key name problem with Some _ => Done () | None => Thrown end).
Proof.
  unfold init_checkbox, check_box, Js.present, mbind, M_bind.
  destruct (Js.has_key name problem) as [b|]; cbn; [|by rewrite state_eta].
  destruct (b && Js.truthy (Js.get_prop name problem)); cbn; [done|].
  by rewrite state_eta.
Qed.

(** A box that is selected for a line is set as the line says; any other
    node keeps what is its own. *)
Lemma get_check_box well pid problem name d p :
  own <$> get p (check_box well pid problem name d)
  = (if decide (p ∈ Jq.find_id [well] (name +:+ "-" +:+ pid) d)
     then (if Js.present name problem && Js.truthy (Js.get_prop name problem)
           then set_attr "checked" "checked" else id)
     else id) <$> (own <$> get p d).
Proof.
  unfold check_box. destruct (_ && _).
  - apply get_attr.
  - case_decide; by rewrite option_fmap_id.
Qed.

Lemma feedback_editor_run pid name x d eds p :
  head (Jq.by_id (name +:+ "-" +:+ pid) d) = Some p →
  feedback_editor pid name x (State d eds)
  = (State d (eds ++ [Editor (InDoc p) "rst" 1 (Some x)]), Done ()).
Proof.
  intros Hp. unfold feedback_editor, mbind, M_bind, get_dom. cbn. rewrite Hp. cbn.
  unfold setValue. cbn. by rewrite alter_snoc.
Qed.

Lemma feedback_editor_fills pid name x : effect fills (feedback_editor pid name x).
Proof.
  intros s. unfold feedback_editor, mbind, M_bind, get_dom. cbn.
  destruct (InDoc <$> head (Jq.by_id (name +:+ "-" +:+ pid) (dom s))) as [r|]; cbn; [|done].
  split; [done|]. rewrite alter_snoc. by eexists.
Qed.

Lemma init_feedback_fills pid problem : effect fills (init_feedback pid problem).
Proof.
  unfold init_feedback.
  apply effect_bind; [apply _|apply field_or_empty_effect, _|intros x1].
  apply effect_bind; [apply _|apply field_or_empty_effect, _|intros x2].
  apply effect_bind; [apply _|apply field_or_empty_effect, _|intros x3].
  apply effect_bind; [apply _|apply feedback_editor_fills|intros _].
  apply effect_bind; [apply _|apply feedback_editor_fills|intros _].
  apply feedback_editor_fills.
Qed.

Lemma init_feedback_run pid fs d eds p1 p2 p3 :
  head (Jq.by_id ("all_success_feedback-" +:+ pid) d) = Some p1 →
  head (Jq.by_id ("partial_success_feedback-" +:+ pid) d) = Some p2 →
  head (Jq.by_id ("all_error_feedback-" +:+ pid) d) = Some p3 →
  init_feedback pid (VObj fs) (State d eds)
  = (State d
       (eds ++
          [Editor (InDoc p1) "rst" 1 (Some (field_default (VObj fs) "all_success_feedback"));
           Editor (InDoc p2) "rst" 1 (Some (field_default (VObj fs) "partial_success_feedback"));
           Editor (InDoc p3) "rst" 1 (Some (field_default (VObj fs) "all_error_feedback"))]),
     Done ()).
Proof.
  intros H1 H2 H3. unfold init_feedback.
  do 3 (erewrite bind_done; [|apply field_or_empty_obj]).
  erewrite bind_done; [|by apply feedback_editor_run].
  erewrite bind_done; [|by apply feedback_editor_run].
  rewrite (feedback_editor_run _ _ _ _ _ p3) by done.
  by rewrite <-!(assoc_L (++)).
Qed.

(** The ids of the two checkboxes differ. *)
Lemma checkbox_ids_differ pid :
  "unshuffle" +:+ "-" +:+ pid ≠ "centralize" +:+ "-" +:+ pid.
Proof. intros H. vm_compute in H. discriminate. Qed.

Lemma attrs_of_own n : attrs_of (own n) = attrs_of n.
Proof. by destruct n. Qed.

Lemma attrs_of_strip n : attrs_of (strip n) = attrs_of n.
Proof. by destruct n. Qed.

Lemma attrs_of_set_attr name v n :
  is_elem n = true → attrs_of (set_attr name v n) = attr_set name v (attrs_of n).
Proof. by destruct n. Qed.

Lemma matches_by_id id n : matches (ById id) n = true → id_of n = Some id.
Proof. destruct n; [done|]. simpl. by intros ?%bool_decide_eq_true. Qed.

Lemma id_of_own n : id_of (own n) = id_of n.
Proof. by destruct n. Qed.

Lemma id_of_set_attr_checked v n : id_of (set_attr "checked" v n) = id_of n.
Proof. destruct n; [done|]. unfold id_of. simpl. by rewrite attr_get_set_ne. Qed.

(** A box selected by one checkbox line is not selected by the other. *)
Lemma find_in_checkbox_other ctx ctx' id id' d d' p :
  id ≠ id' →
  p ∈ Jq.find_in ctx (ById id) d →
  id_of ∘ own <$> get p d' = id_of ∘ own <$> get p d →
  p ∉ Jq.find_in ctx' (ById id') d'.
Proof.
  intros Hne (c&q&m&_&_&_&_&Hm&Hs)%elem_of_find_in Hsame
    (c'&q'&m'&_&_&_&_&Hm'&Hs')%elem_of_find_in.
  rewrite Hm, Hm' in Hsame. simplify_eq/=. rewrite !id_of_own in Hsame.
  apply matches_by_id in Hs, Hs'. congruence.
Qed.

Section Init.
Variable inner_html : list node → string.
Variable parse_html : string → list node.
Variable well_id : string → string.

Lemma init_questions_grows pid problem :
  effect grows (init_questions inner_html parse_html well_id pid problem).
Proof.
  unfold init_questions.
  apply effect_bind; [apply _|apply effect_raising, _|intros qs].
  apply effect_for_each; [apply _|]. intros q. apply create_grows.
Qed.

(** After the two checkbox lines, the initialization is purely additive. *)
Lemma init_rest_grows pid problem :
  effect grows (init_feedback pid problem;;
                init_questions inner_html parse_html well_id pid problem).
Proof.
  apply effect_bind; [apply _| |intros _; apply init_questions_grows].
  eapply effect_weaken; [apply fills_grows|apply init_feedback_fills].
Qed.

(** The initialization after its two checkbox lines. *)
Lemma init_run well pid problem s :
  studio_init_template_matching inner_html parse_html well_id well pid problem s
  = match Js.has_key "unshuffle" problem, Js.has_key "centralize" problem with
    | None, _ => (s, Thrown)
    | Some _, None =>
        (State (check_box well pid problem "centralize"
                  (check_box well pid problem "unshuffle" (dom s))) (editors s), Thrown)
    | Some _, Some _ =>
        (init_feedback pid problem;;
         init_questions inner_html parse_html well_id pid problem)
          (State (check_box well pid problem "centralize"
                    (check_box well pid problem "unshuffle" (dom s))) (editors s))
    end.
Proof.
  unfold studio_init_template_matching.
  unfold mbind at 1, M_bind at 1. rewrite init_checkbox_run.
  destruct (Js.has_key "unshuffle" problem) as [bu|] eqn:Hu.
  2:{ unfold check_box, Js.present. rewrite Hu. cbn. by rewrite state_eta. }
  unfold mbind at 1, M_bind at 1. rewrite init_checkbox_run. cbn [dom editors].
  by destruct (Js.has_key "centralize" problem).
Qed.

(** The document of the initialization is that of the two checkbox lines,
    grown. *)
Lemma init_dom well pid problem s :
  keeps (check_box well pid problem "centralize"
           (check_box well pid problem "unshuffle" (dom s)))
        (dom (studio_init_template_matching inner_html parse_html well_id
                well pid problem s).1).
Proof.
  rewrite init_run.
  destruct (Js.has_key "unshuffle" problem) as [bu|] eqn:Hu.
  - destruct (Js.has_key "centralize" problem) as [bc|] eqn:Hc; [|done].
    match goal with |- keeps _ (dom (?m ?s0).1) =>
      destruct (init_rest_grows pid problem s0) as [Hk _]; apply Hk end.
  - unfold check_box, Js.present. rewrite Hu, (has_key_None _ _ "centralize" Hu). done.
Qed.

End Init.
End InitFacts.

(** ** Creations in sequence *)

Module StepsFacts.
Import Dom Sel DomFacts SelFacts JqFacts ScanFacts StudioFacts RemoveFacts RowFacts InitFacts.

Lemma get_alter_at_apart f c p n :
  ¬ c `prefix_of` p → ¬ p `prefix_of` c → get p (alter_at f c n) = get p n.
Proof.
  revert p n. induction c as [|i c IH]; intros p n Hcp Hpc.
  { destruct Hcp. apply prefix_nil. }
  destruct p as [|j p]. { destruct Hpc. apply prefix_nil. }
  destruct n as [x|t a v ks]; [done|]. cbn [get alter_at kids_of].
  destruct (decide (i = j)) as [->|Hij].
  - rewrite list_lookup_alter_eq. destruct (ks !! j) as [k|]; [|done]. cbn.
    apply IH; intros ?; [apply Hcp|apply Hpc]; by apply prefix_cons.
  - by rewrite list_lookup_alter_ne.
Qed.

Lemma prefix_snoc_inv {A} (p t : list A) x :
  p `prefix_of` t ++ [x] → p `prefix_of` t ∨ p = t ++ [x].
Proof.
  intros [k Hk]. destruct k as [|y k _] using rev_ind.
  - right. by rewrite app_nil_r in Hk.
  - left. rewrite (assoc_L (++)) in Hk. apply app_inj_tail in Hk as [-> _]. by exists k.
Qed.

Lemma get_prefix p q n : p `prefix_of` q → is_Some (get q n) → is_Some (get p n).
Proof. intros [k ->]. rewrite get_app. by destruct (get p n). Qed.

(** A node that is no ancestor of the container is untouched by an append. *)
Lemma get_add_kid_old k t d p :
  is_Some (get p d) → ¬ p `prefix_of` t → get p (alter_at (add_kid k) t d) = get p d.
Proof.
  intros Hp Hpt. destruct (decide (t `prefix_of` p)) as [[q ->]|Htp].
  - rewrite get_alter_at. rewrite get_app in Hp |- *.
    destruct (get t d) as [m|]; [|done]. cbn in *.
    destruct q as [|j q]. { destruct Hpt. by rewrite app_nil_r. }
    destruct m as [x|tg a v ks]; [done|]. cbn [add_kid get kids_of] in *.
    destruct (ks !! j) as [kj|] eqn:Hj; [|by destruct Hp].
    by rewrite (lookup_app_l_Some _ _ _ _ Hj).
  - by apply get_alter_at_apart.
Qed.

Lemma matches_label s n m : strip (own n) = strip (own m) → matches s n = matches s m.
Proof.
  intros H. by rewrite <-(matches_own s n), <-(matches_own s m), <-!(matches_strip s (own _)), H.
Qed.

(** What is selected after an append: what was, and what the new child
    brings. *)
Lemma all_add_kid_nonempty s k t d tg a v ks :
  get t d = Some (Elem tg a v ks) →
  all s (alter_at (add_kid k) t d) ≠ [] ↔ all s d ≠ [] ∨ all s k ≠ [].
Proof.
  intros Ht. rewrite !nonempty_exists. setoid_rewrite all_spec. split.
  - intros (p&m1&Hm1&Hs).
    destruct (decide ((t ++ [length ks]) `prefix_of` p)) as [[q ->]|Hnew].
    { right. exists q, m1. split; [|done].
      by rewrite get_app, (get_appended _ _ _ tg a v) in Hm1. }
    left. destruct (decide (t `prefix_of` p)) as [[q ->]|Htp].
    + rewrite get_alter_at, Ht in Hm1. cbn in Hm1.
      destruct q as [|j q].
      * exists t, (Elem tg a v ks). rewrite app_nil_r in *. by simplify_eq/=.
      * exists (t ++ j :: q), m1. split; [|done]. rewrite get_app, Ht. cbn in *.
        destruct (decide (j < length ks)) as [Hlt|Hge].
        -- by rewrite lookup_app_l in Hm1.
        -- destruct (decide (j = length ks)) as [->|Hne].
           { destruct Hnew. exists q. by rewrite <-(assoc_L (++)). }
           rewrite lookup_ge_None_2 in Hm1; [done|]. rewrite length_app. simpl. lia.
    + pose proof (get_alter_at_off (add_kid k) t p d Htp) as Hown. rewrite Hm1 in Hown.
      destruct (get p d) as [m|] eqn:Hm; [|done]. exists p, m. split; [done|].
      simplify_eq/=. by rewrite <-(matches_own_eq _ _ _ Hown).
  - intros [(p&m&Hm&Hs)|(q&m&Hm&Hs)].
    + pose proof (keeps_add_kid k t d p ltac:(by rewrite Hm)) as Hk. rewrite Hm in Hk.
      destruct (get p (alter_at _ t d)) as [m1|] eqn:Hm1; [|done].
      exists p, m1. split; [done|]. simplify_eq/=. by rewrite (matches_label _ _ _ Hk).
    + exists ((t ++ [length ks]) ++ q), m. split; [|done].
      by rewrite get_app, (get_appended _ _ _ tg a v).
Qed.

(** Alterations below a context leave what is found from it. *)
Lemma find_in_below f w p s d :
  (∀ m, matches s (f m) = matches s m) →
  (∀ m, descendants s (f m) = descendants s m) →
  w `prefix_of` p →
  Jq.find_in [w] s (alter_at f p d) = Jq.find_in [w] s d.
Proof.
  intros Hm Hd [q ->]. unfold Jq.find_in. cbn. f_equal.
  rewrite alter_at_app, get_alter_at_here. destruct (get w d) as [k|]; [|done]. cbn.
  by rewrite descendants_alter_at.
Qed.

Lemma matches_fill_vals s question_data m : matches s (fill_vals question_data m) = matches s m.
Proof. apply matches_strip_eq, strip_fill_vals. Qed.

Lemma id_of_fill_vals question_data m : id_of (fill_vals question_data m) = id_of m.
Proof.
  pose proof (strip_fill_vals question_data m) as H. unfold id_of.
  by rewrite <-(attrs_of_strip (fill_vals _ _)), H, attrs_of_strip.
Qed.

End StepsFacts.

Module SequenceFacts.
Import Dom Sel DomFacts SelFacts JqFacts ScanFacts StudioFacts RemoveFacts RowFacts StepsFacts.

Section Sequence.
Variable inner_html : list node → string.
Variable parse_html : string → list node.
Variable well_id : string → string.
Variables (pid : string) (N : nat) (w t tp : path) (tpl : string).

Local Abbreviation row k := (make_row parse_html pid k (new_row_content tpl pid k)).
Local Abbreviation create :=
  (studio_create_matching_question inner_html parse_html well_id pid).
Local Abbreviation ready := (ready inner_html well_id pid N w t tp tpl).

Hypothesis rows_marked : ∀ k, k < N → row_marked well_id pid N k (row k) = true.

Lemma rows_marked_facts k :
  k < N →
  all (ById (well_id pid)) (row k) = [] ∧
  all (ById ("questions-" +:+ pid)) (row k) = [] ∧
  all (ById template_id) (row k) = [] ∧
  (∀ j, j < N → all (ById (lookup_id pid j)) (row k) ≠ [] ↔ j = k) ∧
  is_Some (head (descendants (ByClass "subproblem_matching_success_feedback") (row k))) ∧
  is_Some (head (descendants (ByClass "subproblem_matching_error_feedback") (row k))).
Proof.
  intros Hk. pose proof (rows_marked k Hk) as H. unfold row_marked in H.
  repeat (apply andb_true_iff in H as [H ?]).
  repeat match goal with H : bool_decide _ = true |- _ => apply bool_decide_eq_true in H end.
  split_and!; try done. intros j Hj.
  match goal with H : forallb _ _ = true |- _ => rewrite forallb_forall in H;
    specialize (H j); rewrite <-list_elem_of_In, elem_of_seq in H;
    apply bool_decide_eq_true in H; [done|lia] end.
Qed.

Lemma all_step s fs r k d :
  all s (row k) = [] →
  all s (alter_at (fill_vals (VObj fs)) r (alter_at (add_kid (row k)) t d)) = all s d.
Proof.
  intros Hnone.
  rewrite all_alter_at by (intros; apply matches_fill_vals || apply descendants_fill_vals).
  apply all_alter_at; intros; [apply matches_add_kid|by apply descendants_add_kid].
Qed.

(** One creation on a ready panel. *)
Lemma create_step k d eds fs tg a v ks :
  ready k d → k < N → get t d = Some (Elem tg a v ks) →
  ∃ d' eds',
    create (VObj fs) (State d eds) = (State d' eds', Done ()) ∧
    ready (S k) d' ∧
    get t d' = Some (Elem tg a v (ks ++ [fill_vals (VObj fs) (row k)])).
Proof.
  intros (Hw&Ht&Htp&Htpl&Hapart&Hmarks) Hk Hget.
  destruct (rows_marked_facts k Hk) as (Rw&Rq&Rtp&Rmarks&[e1 He1]&[e2 He2]).
  assert (free_index pid d = Some k) as Hfree.
  { apply free_index_unique.
    - destruct (all (ById (lookup_id pid k)) d) eqn:Hall; [done|].
      destruct (Nat.lt_irrefl k). apply (Hmarks k Hk). by rewrite Hall.
    - intros j Hj. apply Hmarks; lia. }
  assert (w `prefix_of` t) as Hwt.
  { assert (t ∈ Jq.find_id [w] ("questions-" +:+ pid) d) as Hin by (rewrite Ht; left).
    apply elem_of_find_id, elem_of_find_in in Hin as (c&q&_&->%list_elem_of_singleton&->&_).
    by exists q. }
  set (r := t ++ [length ks]).
  set (d1 := alter_at (add_kid (row k)) t d).
  set (d2 := alter_at (fill_vals (VObj fs)) r d1).
  exists d2. eexists. split_and!.
  - destruct (create_unfold inner_html parse_html well_id pid (VObj fs) (State d eds))
      as (i&Hi&->). cbn [dom] in *. simplify_eq.
    unfold studio_get_problem. rewrite Hw.
    rewrite (create_at_run _ _ _ _ _ _ _ _ tpl t tg a v ks) by done.
    by rewrite (fill_row_attached _ _ _ _ (row k) e1 e2)
      by (done || by apply (get_appended _ _ _ tg a v)).
  - assert (get tp d2 = get tp d) as Hsame.
    { destruct (get tp d) as [tnode|] eqn:Htnode.
      2:{ unfold template_markup in Htpl. rewrite Htp in Htpl. cbn in Htpl.
          by rewrite Htnode in Htpl. }
      rewrite <-Htnode. subst d2 d1. rewrite get_alter_at_apart.
      - apply get_add_kid_old; [by rewrite Htnode|done].
      - intros Hr. apply (get_prefix _ _ d) in Hr; [|by rewrite Htnode].
        subst r. rewrite get_app, Hget in Hr. cbn in Hr.
        rewrite lookup_ge_None_2 in Hr by done. by destruct Hr.
      - intros [?| ->]%prefix_snoc_inv; [done|].
        rewrite get_app, Hget in Htnode. cbn in Htnode.
        by rewrite lookup_ge_None_2 in Htnode. }
    assert (∀ id, all (ById id) (row k) = [] → Jq.by_id id d2 = Jq.by_id id d) as Hby.
    { intros id Hid. unfold Jq.by_id. subst d2 d1. by rewrite all_step. }
    unfold ready. split_and!.
    + by rewrite Hby.
    + rewrite <-Ht. apply find_id_same; [subst d2 d1; by apply all_step|].
      intros c ->%list_elem_of_singleton. subst d2 d1. rewrite find_in_below;
        [|intros; apply matches_fill_vals|intros; apply descendants_fill_vals
         |by etrans; [|apply prefix_app_r]].
      rewrite find_in_below; [done|intros; apply matches_add_kid| |done].
      intros m. by apply descendants_add_kid.
    + by rewrite Hby.
    + unfold template_markup in *. rewrite Hby by done. rewrite Htp in *. cbn in *.
      by rewrite Hsame.
    + done.
    + intros j Hj. subst d2.
      rewrite all_alter_at
        by (intros; apply matches_fill_vals || apply descendants_fill_vals).
      subst d1. rewrite (all_add_kid_nonempty _ _ _ _ tg a v ks) by done.
      rewrite (Hmarks j Hj), (Rmarks j Hj). lia.
  - subst d2 r. rewrite alter_at_app, get_alter_at_here. subst d1.
    rewrite (get_append_here _ _ _ tg a v ks) by done. cbn. by rewrite alter_snoc.
Qed.

(** The creations for a list of question records, from the index [k] on. *)
Lemma create_all qs k d eds tg a v ks :
  Forall (λ q, Js.is_object q = true) qs → k + length qs ≤ N →
  ready k d → get t d = Some (Elem tg a v ks) →
  ∃ d' eds',
    for_each qs create (State d eds) = (State d' eds', Done ()) ∧
    get t d' = Some (Elem tg a v (ks ++ imap (λ i q, fill_vals q (row (k + i))) qs)).
Proof.
  intros Hqs. revert k d eds ks.
  induction Hqs as [|q qs Hq _ IH]; intros k d eds ks Hlen Hready Hget.
  { exists d, eds. by rewrite app_nil_r. }
  destruct q as [| | | | | |fs]; try done. cbn [length] in Hlen.
  destruct (create_step k d eds fs tg a v ks) as (d1&eds1&Hrun&Hready1&Hget1);
    [done|lia|done|].
  destruct (IH (S k) d1 eds1 _ ltac:(lia) Hready1 Hget1) as (d'&eds'&Hrun'&Hget').
  exists d', eds'. split.
  - cbn [for_each]. by erewrite bind_done.
  - rewrite Hget'. do 2 f_equal. rewrite <-(assoc_L (++)). f_equal. cbn.
    rewrite Nat.add_0_r. f_equal. apply imap_ext. intros i x _. cbn.
    by replace (k + S i) with (S (k + i)) by lia.
Qed.

End Sequence.

Lemma id_of_rows parse_html pid tpl (qs : list value) k :
  id_of <$> imap (λ i q, fill_vals q (make_row parse_html pid (k + i)
                                        (new_row_content tpl pid (k + i)))) qs
  = (λ i, Some (row_id pid i)) <$> seq k (length qs).
Proof.
  revert k. induction qs as [|q qs IH]; intros k; [done|]. cbn.
  rewrite id_of_fill_vals, Nat.add_0_r. f_equal. rewrite <-IH. f_equal.
  apply imap_ext. intros i x _. cbn. by replace (k + S i) with (S (k + i)) by lia.
Qed.

End SequenceFacts.

(** ** The words of the specification *)

Module SpecFacts.
Import Dom Sel DomFacts SelFacts JqFacts TaskFacts StudioFacts Spec.

Lemma assoc_app_fresh {A} name (fs1 fs2 : list (string * A)) :
  name ∉ fs1.*1 → Js.assoc name (fs1 ++ fs2) = Js.assoc name fs2.
Proof.
  induction fs1 as [|[k x] fs1 IH]; [done|]. csimpl. intros Hk.
  apply not_elem_of_cons in Hk as [Hne Hk]. rewrite decide_False by done. by apply IH.
Qed.

Lemma assoc_None {A} name (fs : list (string * A)) : name ∉ fs.*1 → Js.assoc name fs = None.
Proof. intros H. rewrite <-(app_nil_r fs). by rewrite assoc_app_fresh. Qed.

(** The lookup of a field is what the record has. *)
Lemma field_assoc fs name o : field fs name o → Js.assoc name fs = o.
Proof.
  destruct o as [v|]; simpl.
  - intros (fs1&fs2&->&Hfresh). rewrite assoc_app_fresh by done. simpl. by rewrite decide_True.
  - apply assoc_None.
Qed.

Lemma field_has_key fs name o :
  name ∉ Js.object_members → field fs name o →
  Js.has_key name (VObj fs) = Some (bool_decide (is_Some o)).
Proof. intros Hname Ho. by rewrite has_key_field, (field_assoc _ _ o). Qed.

Lemma field_present fs name o :
  name ∉ Js.object_members → field fs name o →
  Js.present name (VObj fs) = bool_decide (is_Some o).
Proof. intros Hname Ho. unfold Js.present. by rewrite (field_has_key _ _ o). Qed.

Lemma field_get_prop fs name v : field fs name (Some v) → Js.get_prop name (VObj fs) = v.
Proof. intros Ho. simpl. by rewrite (field_assoc _ _ (Some v)). Qed.

Lemma field_default_field fs name o :
  name ∉ Js.object_members → field fs name o →
  field_default (VObj fs) name = default (VStr "") o.
Proof.
  intros Hname Ho. unfold field_default. rewrite (field_present _ _ o) by done.
  destruct o as [v|]; [|done]. rewrite bool_decide_true by done. by apply field_get_prop.
Qed.

(** The test of a checkbox line on a record. *)
Lemma field_flag fs name o :
  name ∉ Js.object_members → field fs name o →
  Js.present name (VObj fs) && Js.truthy (Js.get_prop name (VObj fs)) = truthy_field o.
Proof.
  intros Hname Ho. rewrite (field_present _ _ o) by done.
  destruct o as [v|]; [|done]. rewrite bool_decide_true by done.
  by rewrite (field_get_prop _ _ v).
Qed.

Lemma matches_of_class c m : matches (ByClass c) m = of_class c m.
Proof.
  destruct m; [|done]. symmetry. apply bool_decide_eq_false_2.
  change (c ∉ []). apply not_elem_of_nil.
Qed.

(** The controls of a position are the select controls with its id in a form
    region. *)
Lemma elem_of_controls_iff key i d p :
  p ∈ controls key i d ↔ select_in_problem (key +:+ "_" +:+ pretty i) d p.
Proof.
  unfold controls, Jq.below_class, select_in_problem. rewrite elem_of_find_in. split.
  - intros (c&q&m&Hc&->&Hq&_&Hm&Hs). apply all_spec in Hc as (region&Hregion&Hclass).
    destruct m as [x|t a v ks]; [done|]. simpl in Hs.
    apply andb_true_iff in Hs as [->%bool_decide_eq_true Hid%bool_decide_eq_true].
    exists c, q, region, a, v, ks. by rewrite <-matches_of_class.
  - intros (c&q&region&a&v&ks&->&Hq&Hregion&Hclass&Hm&Hid).
    exists c, q, (Elem "select" a v ks).
    split; [apply all_spec; exists region; by rewrite matches_of_class|].
    do 2 (split; [done|]). split; [by eexists|]. split; [done|].
    simpl. by rewrite !bool_decide_true.
Qed.

Lemma attr_get_set_eq name v a : attr_get name (attr_set name v a) = Some v.
Proof.
  unfold attr_get. induction a as [|[n w] a IH]; simpl.
  - by rewrite decide_True.
  - destruct (decide (n = name)) as [->|]; simpl.
    + by rewrite decide_True.
    + by rewrite decide_False.
Qed.

(** The value of a control of a filled row, from the fields of the record. *)
Lemma filled_val_field fs oq oa m :
  Spec.field fs "question" oq → Spec.field fs "answer" oa →
  filled_val (VObj fs) m
  = if bool_decide (is_Some oa) && Spec.of_class "subproblem_matching_answer" m then oa
    else if bool_decide (is_Some oq) && Spec.of_class "subproblem_matching_question" m then oq
    else val_of m.
Proof.
  intros Hq Ha. unfold filled_val.
  rewrite (field_present _ _ oa), (field_present _ _ oq), !matches_of_class;
    [|by_compute|done|by_compute|done].
  destruct oa as [xa|], oq as [xq|]; cbn [is_Some bool_decide];
    rewrite ?bool_decide_true, ?bool_decide_false by (by inversion 1 || by eexists);
    cbn [andb]; rewrite ?(field_get_prop _ _ xa), ?(field_get_prop _ _ xq) by done; done.
Qed.

End SpecFacts.

(** ** Substitution over a text cut at the occurrences of the pattern *)

Module FillFacts.
Import Str StrFacts Spec.














End FillFacts.

(** * The claims *)

Import Dom Sel DomFacts SelFacts JqFacts TaskFacts ScanFacts StudioFacts RemoveFacts.
Import StrFacts RowFacts InitFacts StepsFacts SequenceFacts.
Import SpecFacts FillFacts.

(** ** Initialization *)

(** For each of the two flags, every checkbox of the panel with the id
    [{flag}-{pid}] has, after the initialization, the attribute [checked]
    set when the test of the script holds, and the attributes it had
    otherwise.  This holds however the initialization ends. *)
Lemma init_box_attrs
    (inner_html : list node → string) (parse_html : string → list node)
    (well_id : string → string) well pid problem s name p :
  name ∈ ["unshuffle"; "centralize"] →
  p ∈ Jq.find_id [well] (name +:+ "-" +:+ pid) (dom s) →
  attrs_of <$> get p (dom (studio_init_template_matching inner_html parse_html well_id
                             well pid problem s).1)
  = (if Js.present name problem && Js.truthy (Js.get_prop name problem)
     then attr_set "checked" "checked" else id) ∘ attrs_of <$> get p (dom s).
Proof.
  intros Hname Hp.
  pose proof (init_dom inner_html parse_html well_id well pid problem s) as Hkeeps.
  set (d1 := check_box well pid problem "unshuffle" (dom s)) in *.
  set (d2 := check_box well pid problem "centralize" d1) in *.
  pose proof (elem_of_find_id _ _ _ _ Hp) as (c&q&m&Hc&->&Hq&Hwell&Hm&Hs)%elem_of_find_in.
  apply list_elem_of_singleton in Hc as ->.
  assert (is_elem m = true) as Helem by by eapply matches_is_elem.
  pose proof (get_check_box well pid problem "unshuffle" (dom s) (well ++ q)) as H1.
  pose proof (get_check_box well pid problem "centralize" d1 (well ++ q)) as H2.
  fold d1 in H1. fold d2 in H2.
  enough (own <$> get (well ++ q) d2
          = (if Js.present name problem && Js.truthy (Js.get_prop name problem)
             then set_attr "checked" "checked" else id) <$> (own <$> get (well ++ q) (dom s)))
    as Hd2.
  { rewrite Hm in Hd2. cbn in Hd2.
    destruct (get (well ++ q) d2) as [m2|] eqn:Hm2; [|done].
    specialize (Hkeeps (well ++ q) ltac:(by rewrite Hm2)). rewrite Hm2 in Hkeeps.
    rewrite Hm. destruct (get (well ++ q) (dom _)) as [m'|]; [|done]. cbn in *.
    f_equal. simplify_eq.
    rewrite <-(attrs_of_own m'), <-attrs_of_strip, Hkeeps, attrs_of_strip, Hd2.
    destruct (Js.present name problem && Js.truthy (Js.get_prop name problem));
      [|unfold id; by rewrite attrs_of_own].
    rewrite attrs_of_set_attr by (by destruct m). by rewrite attrs_of_own. }
  apply elem_of_cons in Hname as [->|Hname].
  - rewrite decide_True in H1 by done.
    rewrite decide_False, option_fmap_id in H2; [by rewrite H2|].
    intros Hin%elem_of_find_id. revert Hin.
    apply (find_in_checkbox_other [well] [well] _ _ (dom s) d1 _ (checkbox_ids_differ pid));
      [by apply elem_of_find_id|].
    rewrite !option_fmap_compose, H1, Hm. cbn. f_equal.
    destruct (Js.present "unshuffle" problem && Js.truthy (Js.get_prop "unshuffle" problem));
      [|done]. by rewrite id_of_set_attr_checked.
  - apply list_elem_of_singleton in Hname as ->.
    rewrite decide_False, option_fmap_id in H1.
    2:{ intros Hin%elem_of_find_id. revert Hin.
        apply (find_in_checkbox_other [well] [well] ("centralize" +:+ "-" +:+ pid) _
                 (dom s) (dom s));
          [by intros ?%symmetry%checkbox_ids_differ|by apply elem_of_find_id|done]. }
    rewrite decide_True in H2; [by rewrite H2, H1|].
    subst d1. by rewrite find_id_check_box.
Qed.

(** C4.  For a problem record and each of the two flags, a checkbox of the
    panel with the id [{flag}-{pid}] has after the initialization, however
    it ends, the attribute [checked] (with the value [checked]) besides the
    attributes it had, when the field of the flag is present in the record
    and truthy, and exactly the attributes it had when the field is absent
    or falsy. *)
Theorem init_checks_boxes
    (inner_html : list node → string) (parse_html : string → list node)
    (well_id : string → string) well pid fs s name p a o :
  name ∈ ["unshuffle"; "centralize"] →
  p ∈ Jq.find_id [well] (name +:+ "-" +:+ pid) (dom s) →
  attrs_of <$> get p (dom s) = Some a →
  Spec.field fs name o →
  ∃ a',
    attrs_of <$> get p (dom (studio_init_template_matching inner_html parse_html well_id
                               well pid (VObj fs) s).1) = Some a' ∧
    (Spec.truthy_field o = true →
       a' = attr_set "checked" "checked" a ∧ attr_get "checked" a' = Some "checked" ∧
       ∀ n, n ≠ "checked" → attr_get n a' = attr_get n a) ∧
    (Spec.truthy_field o = false → a' = a).
Proof.
  intros Hname Hp Ha Ho.
  assert (name ∉ Js.object_members) as Hown.
  { apply elem_of_cons in Hname as [->|Hname]; [by_compute|].
    apply list_elem_of_singleton in Hname as ->. by_compute. }
  rewrite (init_box_attrs inner_html parse_html well_id well pid (VObj fs) s name p) by done.
  rewrite (field_flag _ _ o) by done.
  rewrite option_fmap_compose, Ha. cbn.
  destruct (Spec.truthy_field o).
  - eexists. split; [done|]. split; [|done]. intros _. split_and!; [done|..].
    + apply attr_get_set_eq.
    + intros n Hn. by apply attr_get_set_ne.
  - eexists. split; [done|]. by split.
Qed.

Lemma init_checks_boxes_witness :
  attrs_of <$> get [0; 0]
    (dom (Page.init Page.well "p1" (VObj [("unshuffle", VBool true); ("questions", VArr [])])
            (Page.start (Page.studio Page.marked_template []))).1)
  = Some [("type", "checkbox"); ("id", "unshuffle-p1"); ("checked", "checked")] ∧
  attrs_of <$> get [0; 1]
    (dom (Page.init Page.well "p1" (VObj [("unshuffle", VBool true); ("questions", VArr [])])
            (Page.start (Page.studio Page.marked_template []))).1)
  = Some [("type", "checkbox"); ("id", "centralize-p1")].
Proof.
  split.
  - destruct (init_checks_boxes Markup.print_all Markup.parse Page.well_id Page.well "p1"
                [("unshuffle", VBool true); ("questions", VArr [])]
                (Page.start (Page.studio Page.marked_template [])) "unshuffle" [0; 0]
                [("type", "checkbox"); ("id", "unshuffle-p1")] (Some (VBool true)))
      as (a'&Ha'&Hset&_).
    + by_compute.
    + by_compute.
    + reflexivity.
    + exists [], [("questions", VArr [])]. split; [reflexivity|apply not_elem_of_nil].
    + unfold Page.init. rewrite Ha'. destruct (Hset eq_refl) as (->&_). reflexivity.
  - destruct (init_checks_boxes Markup.print_all Markup.parse Page.well_id Page.well "p1"
                [("unshuffle", VBool true); ("questions", VArr [])]
                (Page.start (Page.studio Page.marked_template [])) "centralize" [0; 1]
                [("type", "checkbox"); ("id", "centralize-p1")] None)
      as (a'&Ha'&_&Hkeep).
    + by_compute.
    + by_compute.
    + reflexivity.
    + by_compute.
    + unfold Page.init. rewrite Ha'. by rewrite (Hkeep eq_refl).
Defined.

Example init_flags :
  let d' := dom (Page.init Page.well "p1"
                   (VObj [("unshuffle", VBool true); ("centralize", VBool false)])
                   (Page.start (Page.studio Page.marked_template []))).1 in
  (attr_get "checked" ∘ attrs_of <$> get [0; 0] d',
   attr_get "checked" ∘ attrs_of <$> get [0; 1] d')
  = (Some (Some "checked"), Some None).
Proof. vm_compute. reflexivity. Qed.

(** When the three elements with the ids [all_success_feedback-{pid}],
    [partial_success_feedback-{pid}] and [all_error_feedback-{pid}] exist,
    the initialization from a problem record makes, in this order, an editor
    on the first element of each id, in mode [rst] with one line, and gives
    it the field of that name, unchanged, or the empty string when the field
    is absent.  The editors of the question rows come after them. *)
Lemma init_editors_run
    (inner_html : list node → string) (parse_html : string → list node)
    (well_id : string → string) well pid fs s p1 p2 p3 :
  head (Jq.by_id ("all_success_feedback-" +:+ pid) (dom s)) = Some p1 →
  head (Jq.by_id ("partial_success_feedback-" +:+ pid) (dom s)) = Some p2 →
  head (Jq.by_id ("all_error_feedback-" +:+ pid) (dom s)) = Some p3 →
  ∃ more,
    editors (studio_init_template_matching inner_html parse_html well_id
               well pid (VObj fs) s).1
    = editors s ++
      [Editor (InDoc p1) "rst" 1
         (Some (if Js.present "all_success_feedback" (VObj fs)
                then Js.get_prop "all_success_feedback" (VObj fs) else VStr ""));
       Editor (InDoc p2) "rst" 1
         (Some (if Js.present "partial_success_feedback" (VObj fs)
                then Js.get_prop "partial_success_feedback" (VObj fs) else VStr ""));
       Editor (InDoc p3) "rst" 1
         (Some (if Js.present "all_error_feedback" (VObj fs)
                then Js.get_prop "all_error_feedback" (VObj fs) else VStr ""))] ++ more.
Proof.
  intros H1 H2 H3. rewrite init_run. cbn [Js.has_key].
  erewrite bind_done.
  2:{ apply (init_feedback_run _ _ _ _ p1 p2 p3); by rewrite !by_id_check_box. }
  match goal with |- ∃ _, editors (?m ?s0).1 = _ =>
    destruct (init_questions_grows inner_html parse_html well_id pid (VObj fs) s0)
      as [_ [more Hmore]] end.
  exists more. rewrite Hmore. cbn [editors]. by rewrite <-!(assoc_L (++)).
Qed.

(** C5.  When the three elements with the ids [all_success_feedback-{pid}],
    [partial_success_feedback-{pid}] and [all_error_feedback-{pid}] exist,
    the initialization from a problem record makes, in this order, an editor
    on the first element of each id, in mode [rst] with one line, and gives
    it the value the record has for the field of that name, unchanged, or the
    empty string when the record has no such field.  The editors of the
    question rows come after them. *)
Theorem init_feedback_editors
    (inner_html : list node → string) (parse_html : string → list node)
    (well_id : string → string) well pid fs s p1 p2 p3 o1 o2 o3 :
  head (Jq.by_id ("all_success_feedback-" +:+ pid) (dom s)) = Some p1 →
  head (Jq.by_id ("partial_success_feedback-" +:+ pid) (dom s)) = Some p2 →
  head (Jq.by_id ("all_error_feedback-" +:+ pid) (dom s)) = Some p3 →
  Spec.field fs "all_success_feedback" o1 →
  Spec.field fs "partial_success_feedback" o2 →
  Spec.field fs "all_error_feedback" o3 →
  ∃ more,
    editors (studio_init_template_matching inner_html parse_html well_id
               well pid (VObj fs) s).1
    = editors s ++
      [Editor (InDoc p1) "rst" 1 (Some (default (VStr "") o1));
       Editor (InDoc p2) "rst" 1 (Some (default (VStr "") o2));
       Editor (InDoc p3) "rst" 1 (Some (default (VStr "") o3))] ++ more.
Proof.
  intros H1 H2 H3 F1 F2 F3.
  destruct (init_editors_run inner_html parse_html well_id well pid fs s p1 p2 p3 H1 H2 H3)
    as [more Hmore].
  exists more. rewrite Hmore.
  change (if Js.present "all_success_feedback" (VObj fs)
          then Js.get_prop "all_success_feedback" (VObj fs) else VStr "")
    with (field_default (VObj fs) "all_success_feedback").
  change (if Js.present "partial_success_feedback" (VObj fs)
          then Js.get_prop "partial_success_feedback" (VObj fs) else VStr "")
    with (field_default (VObj fs) "partial_success_feedback").
  change (if Js.present "all_error_feedback" (VObj fs)
          then Js.get_prop "all_error_feedback" (VObj fs) else VStr "")
    with (field_default (VObj fs) "all_error_feedback").
  rewrite (field_default_field _ _ o1), (field_default_field _ _ o2),
    (field_default_field _ _ o3); [done|by_compute|done|by_compute|done|by_compute|done].
Qed.

Lemma init_feedback_editors_witness :
  ∃ more,
    editors (Page.init Page.well "p1"
               (VObj [("all_success_feedback", VStr "Well done"); ("questions", VArr [VObj []])])
               (Page.start (Page.studio Page.marked_template []))).1
    = [] ++
      [Editor (InDoc [0; 2]) "rst" 1 (Some (VStr "Well done"));
       Editor (InDoc [0; 3]) "rst" 1 (Some (VStr ""));
       Editor (InDoc [0; 4]) "rst" 1 (Some (VStr ""))] ++ more.
Proof.
  apply (init_feedback_editors Markup.print_all Markup.parse Page.well_id Page.well "p1"
           [("all_success_feedback", VStr "Well done"); ("questions", VArr [VObj []])]
           (Page.start (Page.studio Page.marked_template [])) [0; 2] [0; 3] [0; 4]
           (Some (VStr "Well done")) None None); [reflexivity..| | |].
  - exists [], [("questions", VArr [VObj []])]. split; [reflexivity|apply not_elem_of_nil].
  - by_compute.
  - by_compute.
Defined.

Example init_editors :
  editors (Page.init Page.well "p1" (VObj [("all_success_feedback", VStr "Well done")])
             (Page.start (Page.studio Page.marked_template []))).1
  = [Editor (InDoc [0; 2]) "rst" 1 (Some (VStr "Well done"));
     Editor (InDoc [0; 3]) "rst" 1 (Some (VStr ""));
     Editor (InDoc [0; 4]) "rst" 1 (Some (VStr ""))].
Proof. vm_compute. reflexivity. Qed.

Example init_three_marked :
  Page.row_ids
    (dom (Page.init Page.well "p1" (VObj [("questions", VArr [VObj []; VObj []; VObj []])])
            (Page.start (Page.studio Page.marked_template []))).1)
  = [Some "question-0-p1"; Some "question-1-p1"; Some "question-2-p1"].
Proof. vm_compute. reflexivity. Qed.

(** From a problem record whose three feedback
    elements exist, the initialization is its checkbox and editor lines
    followed by one creation per entry of [questions], in order.  Creations
    for [N] question records in sequence, on a panel with one questions
    container and no element with an id [question-{pid}-{j}], [j < N], end
    normally and leave the container with [N] more children, in creation
    order, with the ids [question-0-{pid}] to [question-{N-1}-{pid}] and the
    markup of the template for their index, provided the row of each index
    is marked for it ([row_marked]: it bears the id [question-{pid}-{i}] of
    its own index and of no other, as a template with an element of id
    [question-PID-QUESTION] makes it). *)
Lemma init_creates_rows_in_order
    (inner_html : list node → string) (parse_html : string → list node)
    (well_id : string → string) pid :
  (∀ well fs qs s p1 p2 p3,
     Js.get_prop "questions" (VObj fs) = VArr qs →
     head (Jq.by_id ("all_success_feedback-" +:+ pid) (dom s)) = Some p1 →
     head (Jq.by_id ("partial_success_feedback-" +:+ pid) (dom s)) = Some p2 →
     head (Jq.by_id ("all_error_feedback-" +:+ pid) (dom s)) = Some p3 →
     studio_init_template_matching inner_html parse_html well_id well pid (VObj fs) s
     = for_each qs (studio_create_matching_question inner_html parse_html well_id pid)
         (State (check_box well pid (VObj fs) "centralize"
                   (check_box well pid (VObj fs) "unshuffle" (dom s)))
            (editors s ++
               [Editor (InDoc p1) "rst" 1
                  (Some (field_default (VObj fs) "all_success_feedback"));
                Editor (InDoc p2) "rst" 1
                  (Some (field_default (VObj fs) "partial_success_feedback"));
                Editor (InDoc p3) "rst" 1
                  (Some (field_default (VObj fs) "all_error_feedback"))]))) ∧
  (∀ qs s w t tp tpl,
     Jq.by_id (well_id pid) (dom s) = [w] →
     Jq.find_id [w] ("questions-" +:+ pid) (dom s) = [t] →
     head (Jq.by_id template_id (dom s)) = Some tp →
     ¬ tp `prefix_of` t →
     template_markup inner_html (dom s) = Some tpl →
     (∀ j, j < length qs → all (ById (lookup_id pid j)) (dom s) = []) →
     (∀ k, k < length qs →
        row_marked well_id pid (length qs) k
          (make_row parse_html pid k (new_row_content tpl pid k)) = true) →
     Forall (λ q, Js.is_object q = true) qs →
     ∃ d' eds' tg a v ks rows,
       for_each qs (studio_create_matching_question inner_html parse_html well_id pid) s
       = (State d' eds', Done ()) ∧
       get t (dom s) = Some (Elem tg a v ks) ∧
       get t d' = Some (Elem tg a v (ks ++ rows)) ∧
       id_of <$> rows = (λ i, Some (row_id pid i)) <$> seq 0 (length qs) ∧
       strip <$> rows
       = (λ i, strip (make_row parse_html pid i (new_row_content tpl pid i)))
           <$> seq 0 (length qs)).
Proof.
  split.
  - intros well fs qs s p1 p2 p3 Hqs H1 H2 H3. rewrite init_run. cbn [Js.has_key].
    erewrite bind_done.
    2:{ apply (init_feedback_run _ _ _ _ p1 p2 p3); by rewrite !by_id_check_box. }
    unfold init_questions. rewrite Hqs. cbn [Js.each_items]. by erewrite bind_done.
  - intros qs s w t tp tpl Hw Ht Htp Hapart Htpl Hempty Hrows Hqs.
    destruct (find_id_singleton _ _ _ _ Ht) as (tg&a&v&ks&Hget).
    destruct s as [d eds]. cbn [dom] in *.
    destruct (create_all inner_html parse_html well_id pid (length qs) w t tp tpl Hrows
                qs 0 d eds tg a v ks) as (d'&eds'&Hrun&Hget'); [done|lia| |done|].
    { split_and!; try done. intros j Hj. split; [|lia]. by rewrite Hempty. }
    exists d', eds', tg, a, v, ks. eexists. split_and!; [done..| |].
    + apply (id_of_rows parse_html pid tpl qs 0).
    + clear. generalize 0. induction qs as [|q qs IH]; intros k; [done|]. cbn.
      rewrite strip_fill_vals, Nat.add_0_r. f_equal. rewrite <-IH. f_equal.
      apply imap_ext. intros i x _. cbn. by replace (k + S i) with (S (k + i)) by lia.
Qed.

Lemma init_creates_rows_in_order_witness :
  ∃ d' eds' tg a v ks rows,
    for_each [VObj [("question", VStr "2+2")]; VObj []; VObj [("answer", VStr "4")]]
      (Page.create "p1") (Page.start (Page.studio Page.marked_template []))
    = (State d' eds', Done ()) ∧
    get [0; 5] (Page.studio Page.marked_template []) = Some (Elem tg a v ks) ∧
    get [0; 5] d' = Some (Elem tg a v (ks ++ rows)) ∧
    id_of <$> rows = (λ i, Some (row_id "p1" i)) <$> seq 0 3 ∧
    strip <$> rows
    = (λ i, strip (make_row Markup.parse "p1" i
                     (new_row_content (Markup.print_all Page.marked_template) "p1" i)))
        <$> seq 0 3.
Proof.
  apply (proj2 (init_creates_rows_in_order Markup.print_all Markup.parse Page.well_id "p1")
           [VObj [("question", VStr "2+2")]; VObj []; VObj [("answer", VStr "4")]]
           (Page.start (Page.studio Page.marked_template []))
           [0] [0; 5] [1] (Markup.print_all Page.marked_template)).
  - reflexivity.
  - reflexivity.
  - reflexivity.
  - apply (bool_decide_unpack _). vm_compute. exact I.
  - reflexivity.
  - intros j Hj. destruct j as [|[|[|j]]]; [vm_compute; reflexivity..|simpl in Hj; lia].
  - intros k Hk. destruct k as [|[|[|k]]]; [vm_compute; reflexivity..|simpl in Hk; lia].
  - repeat constructor.
Defined.

(** C2.  The rows of an initialization are not numbered in sequence: the
    scan looks for the id [question-{pid}-{i}] and a row is given the id
    [question-{i}-{pid}].  On the page with the empty panels of the problems
    [0] and [1], with a row template whose question input bears the id
    [question-PID-QUESTION] as with one that bears none, the initialization of
    [0] and then of [1], each from two questions, ends normally and leaves the
    panel of [1] with the rows [question-1-1] and [question-2-1]: the second
    row of [0] has the id the scan looks for first for [1].  On the page of
    one problem [p1] whose template bears no such id, the initialization
    from two questions leaves two rows of the same id [question-0-p1]. *)
Theorem init_rows_out_of_sequence :
  let two := VObj [("questions", VArr [VObj []; VObj []])] in
  (∀ template, template ∈ [Page.marked_template; Page.plain_template] →
     let r0 := Page.init [0] "0" two (Page.start (Page.studio_pair template)) in
     let r1 := Page.init [1] "1" two r0.1 in
     r0.2 = Done () ∧ r1.2 = Done () ∧
     Page.rows_of 0 (dom r1.1) = [Some "question-0-0"; Some "question-1-0"] ∧
     Page.rows_of 1 (dom r1.1) = [Some "question-1-1"; Some "question-2-1"]) ∧
  (let r := Page.init Page.well "p1" two (Page.start (Page.studio Page.plain_template [])) in
   r.2 = Done () ∧
   Page.row_ids (dom r.1) = [Some "question-0-p1"; Some "question-0-p1"]).
Proof.
  split.
  - intros template [->|[->|[]%elem_of_nil]%elem_of_cons]%elem_of_cons;
      vm_compute; by split_and!.
  - vm_compute. by split_and!.
Qed.

(** ** Creation of a question *)

Example delete_then_create_marked :
  let d := Page.studio Page.marked_template (Page.row Page.marked_template <$> [0; 1; 2]) in
  let s1 := (studio_delete_matching_question "p1" 1 (Page.start d)).1 in
  Page.row_ids (dom (Page.create "p1" (VObj []) s1).1)
  = [Some "question-0-p1"; Some "question-2-p1"; Some "question-1-p1"].
Proof. vm_compute. reflexivity. Qed.

(** The index [studio_create_matching_question]
    chooses is the smallest [i] such that no element of the document has the
    id [question-{pid}-{i}], and the scan that finds it always ends.  After
    the row of index [k] is deleted, the next creation chooses [k] provided
    that, before the deletion, every element with id [question-{pid}-{k}]
    lies in that row and each id [question-{pid}-{j}] with [j < k] is borne
    by an element outside it. *)
Lemma create_index_least_and_reused
    (inner_html : list node → string) (parse_html : string → list node)
    (well_id : string → string) pid question_data s :
  (∃ i, all (ById (lookup_id pid i)) (dom s) = [] ∧
        (∀ j, j < i → all (ById (lookup_id pid j)) (dom s) ≠ []) ∧
        studio_create_matching_question inner_html parse_html well_id pid question_data s
        = create_at inner_html parse_html pid question_data
            (studio_get_problem well_id pid (dom s)) i s) ∧
  (∀ k r,
     Jq.by_id (row_id pid k) (dom s) = [r] → r ≠ [] →
     Forall (λ p, r `prefix_of` p) (all (ById (lookup_id pid k)) (dom s)) →
     (∀ j, j < k →
        Exists (λ p, ¬ r `prefix_of` p) (all (ById (lookup_id pid j)) (dom s))) →
     ∃ s1, studio_delete_matching_question pid k s = (s1, Done ()) ∧
           studio_create_matching_question inner_html parse_html well_id pid question_data s1
           = create_at inner_html parse_html pid question_data
               (studio_get_problem well_id pid (dom s1)) k s1).
Proof.
  split.
  - destruct (create_unfold inner_html parse_html well_id pid question_data s)
      as (i&Hi&Hrun).
    exists i. destruct (free_index_least pid (dom s)) as (i'&Hi'&Hfree&Hleast).
    by simplify_eq.
  - intros k r Hr Hr0 Hin Hout. eexists. split.
    { unfold studio_delete_matching_question, mbind, M_bind, get_dom, modify_dom. cbn.
      rewrite Hr. reflexivity. }
    unfold Jq.detach. cbn [foldr dom].
    match goal with |- _ ?s1 = _ =>
      destruct (create_unfold inner_html parse_html well_id pid question_data s1)
        as (i&Hi&Hrun) end.
    rewrite Hrun. cbn [dom] in Hi |- *.
    rewrite (free_index_unique pid (remove_at r (dom s)) k) in Hi.
    + by simplify_eq.
    + by apply all_remove_at_nil.
    + intros j Hj. apply all_remove_at_cons; auto.
Qed.

Lemma create_index_least_and_reused_witness :
  let d := Page.studio Page.marked_template (Page.row Page.marked_template <$> [0; 1; 2]) in
  ∃ s1, studio_delete_matching_question "p1" 1 (Page.start d) = (s1, Done ()) ∧
        Page.create "p1" (VObj []) s1
        = create_at Markup.print_all Markup.parse "p1" (VObj [])
            (studio_get_problem Page.well_id "p1" (dom s1)) 1 s1.
Proof.
  apply (proj2 (create_index_least_and_reused Markup.print_all Markup.parse Page.well_id
                  "p1" (VObj [])
                  (Page.start (Page.studio Page.marked_template
                                 (Page.row Page.marked_template <$> [0; 1; 2]))))
           1 [0; 5; 1]).
  - reflexivity.
  - discriminate.
  - apply (bool_decide_unpack _). vm_compute. exact I.
  - intros j Hj. assert (j = 0) as -> by lia.
    apply (bool_decide_unpack _). vm_compute. exact I.
Defined.


(** C3.  With the template markup [tpl] and one questions container [t] in
    the panel, a creation that chooses the index [i] leaves the container
    with one more child, the last: a [div] whose id is [question-{i}-{pid}]
    (index before pid) and whose content is the markup [tpl] with [PID]
    replaced by [pid] and [QUESTION] by [i], everywhere.  This holds however
    the call ends. *)
Theorem create_appends_row
    (inner_html : list node → string) (parse_html : string → list node)
    (well_id : string → string) pid question_data s i t tpl :
  free_index pid (dom s) = Some i →
  template_markup inner_html (dom s) = Some tpl →
  Jq.find_id (studio_get_problem well_id pid (dom s)) ("questions-" +:+ pid) (dom s) = [t] →
  ∃ tg a v ks,
    get t (dom s) = Some (Elem tg a v ks) ∧
    strip <$> get t (dom (studio_create_matching_question inner_html parse_html well_id
                            pid question_data s).1)
    = Some (Elem tg a None
              (strip <$> ks ++
                 [Elem "div" [("id", "question-" +:+ pretty i +:+ "-" +:+ pid)] None
                    (parse_html (Str.replace_all "QUESTION" (pretty i)
                                   (Str.replace_all "PID" pid tpl)))])).
Proof.
  intros Hi Htpl Ht. destruct (find_id_singleton _ _ _ _ Ht) as (tg&a&v&ks&Hget).
  exists tg, a, v, ks. split; [done|].
  destruct (create_unfold inner_html parse_html well_id pid question_data s) as (i'&Hi'&->).
  simplify_eq. destruct s as [d eds]. cbn [dom] in *.
  rewrite (create_at_run _ _ _ _ _ _ _ _ tpl t tg a v ks) by done.
  destruct (fill_row_fills question_data (Attached (t ++ [length ks]))
              (State (alter_at (add_kid (make_row parse_html pid i (new_row_content tpl pid i))) t d) eds))
    as [Hstrip _].
  cbn [dom] in Hstrip. rewrite <-get_strip, Hstrip, get_strip.
  by rewrite (get_append_here _ _ _ tg a v ks).
Qed.

Lemma create_appends_row_witness :
  ∃ tg a v ks,
    get [0; 5] (Page.studio Page.marked_template [Page.row Page.marked_template 0])
    = Some (Elem tg a v ks) ∧
    strip <$> get [0; 5]
      (dom (Page.create "p1" (VObj [("question", VStr "2+2")])
              (Page.start (Page.studio Page.marked_template
                             [Page.row Page.marked_template 0]))).1)
    = Some (Elem tg a None
              (strip <$> ks ++
                 [Elem "div" [("id", "question-" +:+ pretty 1 +:+ "-" +:+ "p1")] None
                   (Markup.parse
                      (Str.replace_all "QUESTION" (pretty 1)
                         (Str.replace_all "PID" "p1"
                            (Markup.print_all Page.marked_template))))])).
Proof.
  apply (create_appends_row Markup.print_all Markup.parse Page.well_id "p1"
           (VObj [("question", VStr "2+2")])
           (Page.start (Page.studio Page.marked_template [Page.row Page.marked_template 0]))
           1 [0; 5] (Markup.print_all Page.marked_template)); vm_compute; reflexivity.
Defined.

(** A question with a text and no answer: the question input gets the text,
    the answer input keeps the value of its markup. *)
Example create_question_only :
  let d' := dom (Page.create "p1" (VObj [("question", VStr "2+2")])
                   (Page.start (Page.studio Page.marked_template []))).1 in
  (val_of <$> get [0; 5; 0; 0] d', get [0; 5; 0; 1] d')
  = (Some (Some (VStr "2+2")),
     Some (Page.input [("class", "subproblem_matching_answer"); ("value", "?")])).
Proof. vm_compute. reflexivity. Qed.

(** For a question record [question_data], a creation at index [i] on
    a panel with one questions container [t], whose new row has its two
    feedback areas, ends normally.  In the row, a control of class
    [subproblem_matching_answer] holds [question_data.answer] when that
    field is present, one of class [subproblem_matching_question] holds
    [question_data.question] when that field is present, and every other
    node, as every control whose field is absent, has the value the row
    markup gave it.  Two editors are added, on the first success and error
    feedback areas of the row, in mode [rst] with one line, holding the
    fields [success_feedback] and [error_feedback], or the empty string for
    an absent field. *)
Lemma create_row_run
    (inner_html : list node → string) (parse_html : string → list node)
    (well_id : string → string) pid fs s i t tpl e1 e2 :
  free_index pid (dom s) = Some i →
  template_markup inner_html (dom s) = Some tpl →
  Jq.find_id (studio_get_problem well_id pid (dom s)) ("questions-" +:+ pid) (dom s) = [t] →
  head (descendants (ByClass "subproblem_matching_success_feedback")
          (make_row parse_html pid i (new_row_content tpl pid i))) = Some e1 →
  head (descendants (ByClass "subproblem_matching_error_feedback")
          (make_row parse_html pid i (new_row_content tpl pid i))) = Some e2 →
  ∃ d' n,
    studio_create_matching_question inner_html parse_html well_id pid (VObj fs) s
    = (State d'
         (editors s ++
            [Editor (InDoc (t ++ n :: e1)) "rst" 1
               (Some (if Js.present "success_feedback" (VObj fs)
                      then Js.get_prop "success_feedback" (VObj fs) else VStr ""));
             Editor (InDoc (t ++ n :: e2)) "rst" 1
               (Some (if Js.present "error_feedback" (VObj fs)
                      then Js.get_prop "error_feedback" (VObj fs) else VStr ""))]),
       Done ()) ∧
    length ∘ kids_of <$> get t (dom s) = Some n ∧
    ∀ p m, get p (make_row parse_html pid i (new_row_content tpl pid i)) = Some m →
      ∃ m', get (t ++ n :: p) d' = Some m' ∧ strip m' = strip m ∧
            val_of m' = filled_val (VObj fs) m.
Proof.
  intros Hi Htpl Ht He1 He2. destruct (find_id_singleton _ _ _ _ Ht) as (tg&a&v&ks&Hget).
  set (row := make_row parse_html pid i (new_row_content tpl pid i)) in *.
  exists (alter_at (fill_vals (VObj fs)) (t ++ [length ks]) (alter_at (add_kid row) t (dom s))),
    (length ks).
  split_and!.
  - destruct (create_unfold inner_html parse_html well_id pid (VObj fs) s) as (i'&Hi'&->).
    simplify_eq. destruct s as [d eds]. cbn [dom editors] in *.
    rewrite (create_at_run _ _ _ _ _ _ _ _ tpl t tg a v ks) by done. fold row.
    rewrite (fill_row_attached fs _ _ _ row e1 e2);
      [|by apply (get_appended _ _ _ tg a v)|done..].
    by rewrite <-!(assoc_L (++)).
  - by rewrite Hget.
  - intros p m Hm. rewrite (assoc_L (++) t [length ks] p : t ++ length ks :: p = _).
    rewrite get_alter_at, (get_appended _ _ _ tg a v) by done. cbn.
    by apply get_fill_vals.
Qed.

(** C6.  For a question record, a creation at index [i] on a panel with one
    questions container [t], whose new row has its two feedback areas, ends
    normally.  In the row, a control of class [subproblem_matching_answer]
    holds the value the record has for [answer] when it has that field, one
    of class [subproblem_matching_question] the value it has for [question]
    when it has that field, and every other node, as every control whose
    field is absent, has the value the row markup gave it.  Two editors are
    added, on the first success and error feedback areas of the row, in mode
    [rst] with one line, holding the values the record has for
    [success_feedback] and [error_feedback], or the empty string for an
    absent field. *)
Theorem create_fills_row
    (inner_html : list node → string) (parse_html : string → list node)
    (well_id : string → string) pid fs s i t tpl e1 e2 oq oa os oe :
  free_index pid (dom s) = Some i →
  template_markup inner_html (dom s) = Some tpl →
  Jq.find_id (studio_get_problem well_id pid (dom s)) ("questions-" +:+ pid) (dom s) = [t] →
  head (descendants (ByClass "subproblem_matching_success_feedback")
          (make_row parse_html pid i (new_row_content tpl pid i))) = Some e1 →
  head (descendants (ByClass "subproblem_matching_error_feedback")
          (make_row parse_html pid i (new_row_content tpl pid i))) = Some e2 →
  Spec.field fs "question" oq → Spec.field fs "answer" oa →
  Spec.field fs "success_feedback" os → Spec.field fs "error_feedback" oe →
  ∃ d' n,
    studio_create_matching_question inner_html parse_html well_id pid (VObj fs) s
    = (State d'
         (editors s ++
            [Editor (InDoc (t ++ n :: e1)) "rst" 1 (Some (default (VStr "") os));
             Editor (InDoc (t ++ n :: e2)) "rst" 1 (Some (default (VStr "") oe))]),
       Done ()) ∧
    length ∘ kids_of <$> get t (dom s) = Some n ∧
    ∀ p m, get p (make_row parse_html pid i (new_row_content tpl pid i)) = Some m →
      ∃ m', get (t ++ n :: p) d' = Some m' ∧ strip m' = strip m ∧
            val_of m'
            = if bool_decide (is_Some oa) && Spec.of_class "subproblem_matching_answer" m
              then oa
              else if bool_decide (is_Some oq)
                      && Spec.of_class "subproblem_matching_question" m
              then oq
              else val_of m.
Proof.
  intros Hi Htpl Ht He1 He2 Fq Fa Fs Fe.
  destruct (create_row_run inner_html parse_html well_id pid fs s i t tpl e1 e2)
    as (d'&n&Hrun&Hn&Hrow); [done..|].
  exists d', n. split_and!; [|done|].
  - rewrite Hrun.
    change (if Js.present "success_feedback" (VObj fs)
            then Js.get_prop "success_feedback" (VObj fs) else VStr "")
      with (field_default (VObj fs) "success_feedback").
    change (if Js.present "error_feedback" (VObj fs)
            then Js.get_prop "error_feedback" (VObj fs) else VStr "")
      with (field_default (VObj fs) "error_feedback").
    rewrite (field_default_field _ _ os), (field_default_field _ _ oe);
      [done|by_compute|done|by_compute|done].
  - intros p m Hm. destruct (Hrow p m Hm) as (m'&Hm'&Hstrip&Hval).
    exists m'. split_and!; [done..|]. by rewrite Hval, (filled_val_field _ oq oa).
Qed.

Lemma create_fills_row_witness :
  ∃ d',
    Page.create "p1" (VObj [("question", VStr "2+2"); ("success_feedback", VStr "yes")])
      (Page.start (Page.studio Page.marked_template []))
    = (State d'
         [Editor (InDoc [0; 5; 0; 2]) "rst" 1 (Some (VStr "yes"));
          Editor (InDoc [0; 5; 0; 3]) "rst" 1 (Some (VStr ""))],
       Done ()) ∧
    val_of <$> get [0; 5; 0; 0] d' = Some (Some (VStr "2+2")) ∧
    val_of <$> get [0; 5; 0; 1] d' = Some None.
Proof.
  destruct (create_fills_row Markup.print_all Markup.parse Page.well_id "p1"
              [("question", VStr "2+2"); ("success_feedback", VStr "yes")]
              (Page.start (Page.studio Page.marked_template []))
              0 [0; 5] (Markup.print_all Page.marked_template) [2] [3]
              (Some (VStr "2+2")) None (Some (VStr "yes")) None)
    as (d'&n&Hrun&Hn&Hrow).
  - vm_compute. reflexivity.
  - vm_compute. reflexivity.
  - vm_compute. reflexivity.
  - vm_compute. reflexivity.
  - vm_compute. reflexivity.
  - exists [], [("success_feedback", VStr "yes")]. split; [reflexivity|apply not_elem_of_nil].
  - by_compute.
  - exists [("question", VStr "2+2")], []. split; [reflexivity|by_compute].
  - by_compute.
  - assert (n = 0) as -> by (vm_compute in Hn; congruence).
    exists d'. split; [exact Hrun|]. split.
    + destruct (Hrow [0] (Page.input [("class", "subproblem_matching_question");
                                      ("id", "question-p1-0")]))
        as (m'&Hm'&_&Hval); [vm_compute; reflexivity|].
      change ([0; 5; 0; 0]) with ([0; 5] ++ 0 :: [0]). rewrite Hm'. cbn. by rewrite Hval.
    + destruct (Hrow [1] (Page.input [("class", "subproblem_matching_answer");
                                      ("value", "?")]))
        as (m'&Hm'&_&Hval); [vm_compute; reflexivity|].
      change ([0; 5; 0; 1]) with ([0; 5] ++ 0 :: [1]). rewrite Hm'. cbn. by rewrite Hval.
Defined.

(** A problem named [QUESTION]: its name, once put in place of [PID], is
    replaced by the index. *)
Example substitution_in_pid :
  new_row_content "id=PID-QUESTION" "QUESTION" 3 = "id=3-3".
Proof. reflexivity. Qed.



(** ** Deletion of a question *)

(** C8.  When no element has the id [question-{question}-{pid}],
    [studio_delete_matching_question] ends normally and leaves the state as
    it was. *)
Theorem delete_absent_row_is_noop pid question s :
  all (ById (row_id pid question)) (dom s) = [] →
  studio_delete_matching_question pid question s = (s, Done ()).
Proof.
  intros Hnone.
  unfold studio_delete_matching_question, mbind, M_bind, get_dom, modify_dom, Jq.by_id. cbn.
  rewrite Hnone. unfold Jq.detach. cbn. by rewrite state_eta.
Qed.

Lemma delete_absent_row_is_noop_witness :
  let s := Page.start (Page.studio Page.plain_template [Page.row Page.plain_template 0]) in
  studio_delete_matching_question "p1" 3 s = (s, Done ()).
Proof.
  apply (delete_absent_row_is_noop "p1" 3
           (Page.start (Page.studio Page.plain_template [Page.row Page.plain_template 0]))).
  vm_compute. reflexivity.
Defined.

(** Deleting twice is deleting once, when one element bore the id. *)
Example delete_twice :
  let s := Page.start (Page.studio Page.plain_template (Page.row Page.plain_template <$> [0; 1])) in
  let s1 := (studio_delete_matching_question "p1" 1 s).1 in
  studio_delete_matching_question "p1" 1 s1 = (s1, Done ()).
Proof. vm_compute. reflexivity. Qed.

(** ** The task script *)

(** The payload of the review examples: [{q1: ["a", "b", "c"]}]. *)
Example load_input_abc :
  let s' := (load_input_matching "sub1" "q1"
               (VObj [("q1", VArr [VStr "a"; VStr "b"; VStr "c"])])
               (Page.start (Page.review ["q1_0"; "q1_1"; "q1_2"]))).1 in
  (val_of <$> get [0; 0] (dom s'), val_of <$> get [0; 1] (dom s'),
   val_of <$> get [0; 2] (dom s'), val_of <$> get [1] (dom s'))
  = (Some (Some (VStr "a")), Some (Some (VStr "b")), Some (Some (VStr "c")), Some None).
Proof. vm_compute. reflexivity. Qed.

Example load_input_missing :
  load_input_matching "sub1" "missing" (VObj [])
    (Page.start (Page.review ["q1_0"; "q1_1"; "q1_2"]))
  = (Page.start (Page.review ["q1_0"; "q1_1"; "q1_2"]), Done ()).
Proof. reflexivity. Qed.

(** C7.  For a payload record: when it has no field [key],
    [load_input_matching] changes nothing, and ends normally unless [key]
    names a member every object inherits.  When its field [key] is the
    sequence [vs], it ends normally and only values of controls change:
    every select control with id [key_i] in the form region of a problem
    holds the value at position [i] of [vs], and a node that is no such
    control for a position of [vs] (a control beyond the length of [vs],
    among others) keeps what it had; a value whose control does not exist
    changes nothing. *)
Theorem load_input_matching_sets_controls submissionid key fs s :
  (Spec.field fs key None →
     (load_input_matching submissionid key (VObj fs) s).1 = s ∧
     (key ∉ Js.object_members →
        (load_input_matching submissionid key (VObj fs) s).2 = Done ())) ∧
  (∀ vs, Spec.field fs key (Some (VArr vs)) →
     ∃ d', load_input_matching submissionid key (VObj fs) s
           = (State d' (editors s), Done ()) ∧
           strip d' = strip (dom s) ∧
           (∀ i x p, vs !! i = Some x →
              Spec.select_in_problem (key +:+ "_" +:+ pretty i) (dom s) p →
              val_of <$> get p d' = Some (Some x)) ∧
           (∀ p, (∀ i, i < length vs →
                    ¬ Spec.select_in_problem (key +:+ "_" +:+ pretty i) (dom s) p) →
              own <$> get p d' = own <$> get p (dom s))).
Proof.
  split.
  - intros Hkey. apply (field_assoc _ _ None) in Hkey.
    assert (Js.has_key key (VObj fs) = Some (bool_decide (key ∈ Js.object_members))) as Hin.
    { cbn. by rewrite Hkey. }
    assert (Js.entries (Js.get_prop key (VObj fs)) = None) as Hes.
    { cbn. rewrite Hkey. by destruct (decide (key = "__proto__")). }
    unfold load_input_matching, mbind, M_bind. rewrite Hin.
    case_bool_decide as Hk; cbn -[Js.entries Js.get_prop].
    + rewrite Hes. cbn. by split.
    + done.
  - intros vs Hkey.
    assert (Js.has_key key (VObj fs) = Some true) as Hin.
    { cbn. by rewrite (field_assoc _ _ (Some (VArr vs))). }
    pose proof (field_get_prop _ _ _ Hkey) as Hvs.
    exists (load_all key (imap (λ i x, (i, x)) vs) (dom s)).
    split_and!.
    + by apply load_input_run.
    + apply strip_load_all.
    + intros i x p Hi Hp%elem_of_controls_iff.
      pose proof (load_all_set key (imap (λ i x, (i, x)) vs) (dom s) i x p) as H.
      rewrite entries_fst in H. specialize (H (NoDup_seq _ _)).
      rewrite elem_of_entries in H. specialize (H Hi Hp).
      apply elem_of_controls in Hp as (m&Hm&Hs). rewrite Hm in H.
      destruct (get p (load_all _ _ _)) as [m'|]; [|done].
      destruct m as [?|t a v ks]; [done|]. destruct m'; by simplify_eq/=.
    + intros p Hp. apply load_all_frame. intros [i x] Hix. simpl.
      apply elem_of_entries in Hix. rewrite elem_of_controls_iff.
      apply Hp. by eapply lookup_lt_Some.
Qed.

Lemma load_input_matching_sets_controls_witness :
  load_input_matching "sub1" "q2" (VObj [("q1", VArr [VStr "a"; VStr "b"; VStr "c"])])
    (Page.start (Page.review ["q1_0"; "q1_1"]))
  = (Page.start (Page.review ["q1_0"; "q1_1"]), Done ()) ∧
  ∃ d', load_input_matching "sub1" "q1" (VObj [("q1", VArr [VStr "a"; VStr "b"; VStr "c"])])
          (Page.start (Page.review ["q1_0"; "q1_1"]))
        = (State d' [], Done ()) ∧
        val_of <$> get [0; 0] d' = Some (Some (VStr "a")) ∧
        val_of <$> get [0; 1] d' = Some (Some (VStr "b")) ∧
        own <$> get [1] d' = Some (Elem "select" [("id", "q1_0")] None []).
Proof.
  split.
  { destruct (proj1 (load_input_matching_sets_controls "sub1" "q2"
                       [("q1", VArr [VStr "a"; VStr "b"; VStr "c"])]
                       (Page.start (Page.review ["q1_0"; "q1_1"]))))
      as [Hstate Hend].
    { by_compute. }
    assert ("q2" ∉ Js.object_members) as Hown by by_compute.
    specialize (Hend Hown).
    destruct (load_input_matching "sub1" "q2" _ _) as [s' o]. simpl in Hstate, Hend.
    by rewrite Hstate, Hend. }
  destruct (proj2 (load_input_matching_sets_controls "sub1" "q1"
                     [("q1", VArr [VStr "a"; VStr "b"; VStr "c"])]
                     (Page.start (Page.review ["q1_0"; "q1_1"])))
              [VStr "a"; VStr "b"; VStr "c"])
    as (d'&Hrun&_&Hset&Hkeep).
  { exists [], []. split; [reflexivity|apply not_elem_of_nil]. }
  exists d'. split; [exact Hrun|]. split_and!.
  - apply (Hset 0); [reflexivity|].
    exists [0], [0]. do 4 eexists. split_and!; [reflexivity|discriminate|reflexivity..].
  - apply (Hset 1); [reflexivity|].
    exists [0], [1]. do 4 eexists. split_and!; [reflexivity|discriminate|reflexivity..].
  - rewrite Hkeep; [reflexivity|].
    intros i _ (c&q&region&a&v&ks&Hp&Hq&Hregion&Hclass&_).
    destruct c as [|j c].
    + cbn in Hregion. injection Hregion as <-. discriminate Hclass.
    + destruct c; [|discriminate Hp]. cbn in Hp. destruct q; [done|discriminate Hp].
Defined.

(** C10.  With [key] present in the payload, [load_input_matching] ends
    normally when [payload[key]] is a sequence, and raises an error, having
    changed nothing, when it is anything else (a mapping, [null], a string). *)
Theorem load_input_matching_needs_sequence submissionid key input s :
  Js.has_key key input = Some true →
  (∀ vs, Js.get_prop key input = VArr vs →
     ∃ s', load_input_matching submissionid key input s = (s', Done ())) ∧
  ((∀ vs, Js.get_prop key input ≠ VArr vs) →
     load_input_matching submissionid key input s = (s, Thrown)).
Proof.
  intros Hkey. split.
  - intros vs Hvs. rewrite (load_input_run _ _ _ vs) by done. eauto.
  - intros Hvs. unfold load_input_matching, mbind, M_bind. rewrite Hkey. cbn.
    destruct (Js.get_prop key input) as [| | | | |vs|]; try done. by destruct (Hvs vs).
Qed.

Lemma load_input_matching_needs_sequence_witness :
  Js.has_key "q1" (VObj [("q1", VObj [("0", VStr "a")])]) = Some true ∧
  load_input_matching "sub1" "q1" (VObj [("q1", VObj [("0", VStr "a")])])
    (Page.start (Page.review ["q1_0"]))
  = (Page.start (Page.review ["q1_0"]), Thrown).
Proof.
  split; [reflexivity|].
  apply (load_input_matching_needs_sequence "sub1" "q1"
           (VObj [("q1", VObj [("0", VStr "a")])])); [reflexivity|].
  intros vs. simpl. discriminate.
Defined.

Example load_input_null :
  load_input_matching "sub1" "q1" (VObj [("q1", VNull)]) (Page.start (Page.review ["q1_0"]))
  = (Page.start (Page.review ["q1_0"]), Thrown).
Proof. reflexivity. Qed.

(** * Further properties of the scripts

    Error cases, what the scripts leave in place, and how their calls
    compose. *)

Import View.

(** ** What a creation leaves in place *)

Module AdditiveFacts.
Import View.

#[export] Instance keeps_own_preorder : PreOrder keeps_own.
Proof.
  split; [done|]. intros d1 d2 d3 H12 H23 p Hp. rewrite H23, H12; [done..|].
  specialize (H12 p Hp). destruct Hp as [m Hm]. rewrite Hm in H12.
  by destruct (get p d2).
Qed.

#[export] Instance adds_preorder : PreOrder adds.
Proof.
  split; [done|]. intros s1 s2 s3 [H12 E12] [H23 E23]. split; by etrans.
Qed.

#[export] Instance adds_below_preorder r : PreOrder (adds_below r).
Proof.
  split; [done|]. intros s1 s2 s3 [H12 E12] [H23 E23]. split; [|by etrans].
  intros p Hp. by rewrite H23, H12.
Qed.

#[export] Instance same_dom_preorder : PreOrder same_dom.
Proof.
  split; [done|]. intros s1 s2 s3 [H12 E12] [H23 E23]. split; [congruence|by etrans].
Qed.

Lemma keeps_own_add_kid k t d : keeps_own d (alter_at (add_kid k) t d).
Proof.
  intros p Hp. destruct (decide (t `prefix_of` p)) as [[q ->]|Hpre].
  - rewrite get_alter_at. rewrite get_app in Hp |- *.
    destruct (get t d) as [m|]; [|done]. simpl in *.
    destruct q as [|j q]; [by destruct m|]. destruct m as [x|tg a v ks]; [done|].
    cbn [add_kid get kids_of] in *. destruct (ks !! j) as [kj|] eqn:Hj; [|by destruct Hp].
    by rewrite (lookup_app_l_Some _ _ _ _ Hj).
  - by apply get_alter_at_off.
Qed.

Lemma keeps_own_append ps k d : keeps_own d (Jq.append ps k d).
Proof.
  unfold Jq.append. revert d. induction ps as [|t ps IH]; intros d; [done|]. simpl.
  etrans; [apply (keeps_own_add_kid k t)|apply IH].
Qed.

#[export] Instance under_preorder h : PreOrder (under h).
Proof. destruct h; apply _. Qed.

Lemma under_same_place h h' : same_place h h' → under h' = under h.
Proof. destruct h, h'; simpl; by try intros ->. Qed.

Lemma same_dom_under h s s' : same_dom s s' → under h s s'.
Proof.
  intros [Hd He]. destruct h as [r|n]; [|done]. split; [|done]. intros p _. by rewrite Hd.
Qed.

Lemma effect_bind_val {A B} (E : relation state) `{!PreOrder E} (Q : A → Prop)
    (m : M A) (f : A → M B) :
  effect E m → (∀ s s' a, m s = (s', Done a) → Q a) → (∀ a, Q a → effect E (f a)) →
  effect E (m ≫= f).
Proof.
  intros Hm HQ Hf s. unfold mbind, M_bind. specialize (Hm s). specialize (HQ s).
  destruct (m s) as [s1 [a| |]]; [|done..]. etrans; [apply Hm|]. apply Hf. by eapply HQ.
Qed.

Lemma val_in_row_under sel h x : effect (under h) (val_in_row sel h x).
Proof.
  intros s. destruct h as [r|n]; cbn; [|done]. split; [|done]. cbn.
  intros q0 Hp. rewrite get_val, decide_False; [by rewrite option_fmap_id|].
  intros (q&->&_)%list_elem_of_fmap. apply Hp. by exists q.
Qed.

Lemma val_in_row_place sel h x s s' h' :
  val_in_row sel h x s = (s', Done h') → same_place h h'.
Proof. destruct h; cbn; intros; by simplify_eq. Qed.

Lemma editor_in_row_same sel h x : effect same_dom (editor_in_row sel h x).
Proof.
  intros s. unfold editor_in_row, mbind, M_bind, get_dom. cbn.
  destruct (ref_in h <$> head (find_in_row sel h (dom s))) as [r|]; cbn; [|done].
  split; [done|]. rewrite alter_snoc. by eexists.
Qed.

Lemma editor_in_row_under sel h h' x : effect (under h') (editor_in_row sel h x).
Proof. eapply effect_weaken; [apply same_dom_under|apply editor_in_row_same]. Qed.

(** Filling a row touches the row alone. *)
Lemma fill_row_under question_data h : effect (under h) (fill_row question_data h).
Proof.
  unfold fill_row.
  apply effect_bind; [apply _|apply effect_raising, _|intros hq].
  apply (effect_bind_val (under h) (same_place h)); [| |intros h1 H1].
  { destruct hq; [apply val_in_row_under|apply effect_ret, _]. }
  { intros s s' a. destruct hq; [apply val_in_row_place|]. intros [= _ <-]. by destruct h. }
  apply effect_bind; [apply _|apply effect_raising, _|intros ha].
  apply (effect_bind_val (under h) (same_place h)); [| |intros h2 H2].
  { destruct ha; [|apply effect_ret, _].
    rewrite <-(under_same_place _ _ H1). apply val_in_row_under. }
  { intros s s' a. destruct ha.
    - intros H%val_in_row_place. destruct h, h1, a; simpl in *; by simplify_eq.
    - by intros [= _ <-]. }
  apply effect_bind; [apply _|apply field_or_empty_effect, _|intros sf].
  apply effect_bind; [apply _|apply field_or_empty_effect, _|intros ef].
  apply effect_bind; [apply _|apply editor_in_row_under|intros _].
  apply editor_in_row_under.
Qed.

(** The row that was appended stands at a path the document did not have. *)
Lemma append_row_run targets k s :
  ∃ s1 h, append_row targets k s = (s1, Done h) ∧ adds s s1 ∧
          (targets = [] → s1 = s ∧ h = Loose k) ∧
          ∀ r, h = Attached r → get r (dom s) = None.
Proof.
  unfold append_row. destruct (last targets) as [t|] eqn:Hlast.
  - eexists _, _. split; [done|]. split_and!.
    + split; [apply keeps_own_append|done].
    + by intros ->.
    + intros r [= <-]. rewrite get_app. destruct (get t (dom s)) as [m|]; [|done]. cbn.
      by rewrite lookup_ge_None_2.
  - exists s, (Loose k). split_and!; done.
Qed.

Section Create.
Variable inner_html : list node → string.
Variable parse_html : string → list node.
Variable well_id : string → string.

Lemma template_markup_None d :
  all (ById template_id) d = [] → template_markup inner_html d = None.
Proof. intros H. unfold template_markup, Jq.by_id. by rewrite H. Qed.

Lemma create_at_adds pid question_data well index :
  effect adds (create_at inner_html parse_html pid question_data well index).
Proof.
  intros s. unfold create_at, mbind at 1 2, M_bind at 1 2, get_dom.
  destruct (template_markup inner_html (dom s)) as [tpl|]; [|done]. cbn [raising mret M_ret].
  unfold mbind, M_bind.
  destruct (append_row_run (Jq.find_id well ("questions-" +:+ pid) (dom s))
              (make_row parse_html pid index (new_row_content tpl pid index)) s)
    as (s1&h&->&[Hk He]&_&Hfresh).
  pose proof (fill_row_under question_data h s1) as Hfill.
  destruct h as [r|n]; cbn in Hfill.
  - destruct Hfill as [Hd He']. split; [|by etrans]. intros p Hp.
    rewrite Hd, Hk; [done..|]. intros Hr. apply (get_prefix _ _ (dom s)) in Hr; [|done].
    rewrite (Hfresh r) in Hr by done. by destruct Hr.
  - destruct Hfill as [Hd He']. split; [by rewrite Hd|by etrans].
Qed.

Lemma create_adds pid question_data :
  effect adds (studio_create_matching_question inner_html parse_html well_id pid question_data).
Proof.
  unfold studio_create_matching_question.
  apply effect_bind; [apply _|apply effect_get_dom, _|intros d].
  apply effect_bind; [apply _|apply effect_scanned, _|intros index].
  apply create_at_adds.
Qed.

Lemma create_at_loose pid question_data well index s :
  Jq.find_id well ("questions-" +:+ pid) (dom s) = [] →
  same_dom s (create_at inner_html parse_html pid question_data well index s).1.
Proof.
  intros Hnone. unfold create_at, mbind at 1 2, M_bind at 1 2, get_dom.
  destruct (template_markup inner_html (dom s)) as [tpl|]; [|done]. cbn [raising mret M_ret].
  unfold mbind, M_bind. rewrite Hnone. cbn.
  apply (fill_row_under question_data (Loose _) s).
Qed.

End Create.
End AdditiveFacts.

(** ** What the initialization leaves in place *)

Module InitFrameFacts.
Import View AdditiveFacts.

Lemma check_box_own well pid problem name d p :
  own <$> get p (check_box well pid problem name d) = own <$> get p d ∨
  own <$> get p (check_box well pid problem name d)
  = set_attr "checked" "checked" <$> (own <$> get p d).
Proof.
  rewrite get_check_box. case_decide; [|left; by rewrite option_fmap_id].
  destruct (_ && _); [by right|left; by rewrite option_fmap_id].
Qed.

Lemma check_box_twice well pid problem name name' d p :
  own <$> get p (check_box well pid problem name' (check_box well pid problem name d))
  = own <$> get p d ∨
  own <$> get p (check_box well pid problem name' (check_box well pid problem name d))
  = set_attr "checked" "checked" <$> (own <$> get p d).
Proof.
  destruct (check_box_own well pid problem name' (check_box well pid problem name d) p) as [->| ->];
    destruct (check_box_own well pid problem name d p) as [->| ->]; auto.
  right. rewrite <-option_fmap_compose. apply option_fmap_ext. intros m.
  apply set_attr_set_attr.
Qed.

Lemma feedback_editor_same pid name x : effect same_dom (feedback_editor pid name x).
Proof.
  intros s. unfold feedback_editor, mbind, M_bind, get_dom. cbn.
  destruct (InDoc <$> head (Jq.by_id (name +:+ "-" +:+ pid) (dom s))) as [r|]; cbn; [|done].
  split; [done|]. rewrite alter_snoc. by eexists.
Qed.

Lemma same_dom_adds s s' : same_dom s s' → adds s s'.
Proof. intros [Hd He]. split; [by rewrite Hd|done]. Qed.

Lemma init_feedback_same pid problem : effect same_dom (init_feedback pid problem).
Proof.
  unfold init_feedback.
  apply effect_bind; [apply _|apply field_or_empty_effect, _|intros x1].
  apply effect_bind; [apply _|apply field_or_empty_effect, _|intros x2].
  apply effect_bind; [apply _|apply field_or_empty_effect, _|intros x3].
  apply effect_bind; [apply _|apply feedback_editor_same|intros _].
  apply effect_bind; [apply _|apply feedback_editor_same|intros _].
  apply feedback_editor_same.
Qed.

Section Init.
Variable inner_html : list node → string.
Variable parse_html : string → list node.
Variable well_id : string → string.

Lemma init_rest_adds pid problem :
  effect adds (init_feedback pid problem;;
               init_questions inner_html parse_html well_id pid problem).
Proof.
  apply effect_bind; [apply _| |intros _].
  - eapply effect_weaken; [apply same_dom_adds|apply init_feedback_same].
  - unfold init_questions.
    apply effect_bind; [apply _|apply effect_raising, _|intros qs].
    apply effect_for_each; [apply _|]. intros q. apply create_adds.
Qed.

End Init.
End InitFrameFacts.

(** ** The editors a script makes *)

Module CountFacts.
Import View.

Lemma added_refl s : added 0 s s.
Proof. exists []. by rewrite app_nil_r. Qed.

Lemma added_trans n k s1 s2 s3 : added n s1 s2 → added k s2 s3 → added (n + k) s1 s3.
Proof.
  intros (l1&E1&L1&F1) (l2&E2&L2&F2). exists (l1 ++ l2). split_and!.
  - by rewrite E2, E1, (assoc_L (++)).
  - rewrite length_app. lia.
  - by apply Forall_app.
Qed.

Lemma ends_bind {A B} n k (m : M A) (f : A → M B) :
  ends (added n) m → (∀ a, ends (added k) (f a)) → ends (added (n + k)) (m ≫= f).
Proof.
  intros Hm Hf s s' b. unfold mbind, M_bind. specialize (Hm s).
  destruct (m s) as [s1 [a| |]]; [|done..]. intros Hrun.
  eapply added_trans; [by eapply Hm|by eapply Hf].
Qed.

Lemma ends_same {A} (m : M A) :
  (∀ s, editors (m s).1 = editors s) → ends (added 0) m.
Proof.
  intros Hm s s' a Hrun. specialize (Hm s). rewrite Hrun in Hm. exists [].
  by rewrite app_nil_r.
Qed.

Lemma ends_raising {A} (o : option A) : ends (added 0) (raising o).
Proof. apply ends_same. by destruct o. Qed.

Lemma ends_field_or_empty data name : ends (added 0) (field_or_empty data name).
Proof. apply ends_same. intros s. rewrite field_or_empty_run. by destruct (Js.has_key _ _). Qed.

Lemma ends_for_each {A} k (l : list A) (f : A → M unit) :
  (∀ a, ends (added k) (f a)) → ends (added (k * length l)) (for_each l f).
Proof.
  intros Hf. induction l as [|a l IH].
  - rewrite Nat.mul_0_r. apply ends_same. done.
  - cbn [for_each length]. replace (k * S (length l)) with (k + k * length l) by lia.
    apply ends_bind; [apply Hf|done].
Qed.

Lemma ends_editor target x :
  ends (added 1) (e ← registerCodeEditor target "rst" 1; setValue e x).
Proof.
  intros s s' a. unfold mbind, M_bind. destruct target as [r|]; cbn; [|done].
  intros [= <- _]. eexists. cbn. rewrite alter_snoc. split_and!; [done..|].
  repeat constructor. by eexists.
Qed.

Lemma ends_editor_in_row sel h x : ends (added 1) (editor_in_row sel h x).
Proof.
  unfold editor_in_row. apply (ends_bind 0 1); [by apply ends_same|].
  intros d. apply ends_editor.
Qed.

Lemma ends_feedback_editor pid name x : ends (added 1) (feedback_editor pid name x).
Proof.
  unfold feedback_editor. apply (ends_bind 0 1); [by apply ends_same|].
  intros d. apply ends_editor.
Qed.

Lemma ends_val_in_row sel h x : ends (added 0) (val_in_row sel h x).
Proof. apply ends_same. intros s. by destruct h. Qed.

Lemma ends_fill_row question_data h : ends (added 2) (fill_row question_data h).
Proof.
  unfold fill_row.
  apply (ends_bind 0 2); [apply ends_raising|intros hq].
  apply (ends_bind 0 2); [destruct hq; [apply ends_val_in_row|by apply ends_same]|intros h1].
  apply (ends_bind 0 2); [apply ends_raising|intros ha].
  apply (ends_bind 0 2); [destruct ha; [apply ends_val_in_row|by apply ends_same]|intros h2].
  apply (ends_bind 0 2); [apply ends_field_or_empty|intros sf].
  apply (ends_bind 0 2); [apply ends_field_or_empty|intros ef].
  apply (ends_bind 1 1); [apply ends_editor_in_row|intros _].
  apply ends_editor_in_row.
Qed.

Lemma ends_init_checkbox well pid problem name :
  ends (added 0) (init_checkbox well pid problem name).
Proof. apply ends_same. intros s. by rewrite init_checkbox_run. Qed.

Lemma ends_init_feedback pid problem : ends (added 3) (init_feedback pid problem).
Proof.
  unfold init_feedback.
  apply (ends_bind 0 3); [apply ends_field_or_empty|intros x1].
  apply (ends_bind 0 3); [apply ends_field_or_empty|intros x2].
  apply (ends_bind 0 3); [apply ends_field_or_empty|intros x3].
  apply (ends_bind 1 2); [apply ends_feedback_editor|intros _].
  apply (ends_bind 1 1); [apply ends_feedback_editor|intros _].
  apply ends_feedback_editor.
Qed.

Section Create.
Variable inner_html : list node → string.
Variable parse_html : string → list node.
Variable well_id : string → string.

Lemma ends_create pid question_data :
  ends (added 2)
    (studio_create_matching_question inner_html parse_html well_id pid question_data).
Proof.
  unfold studio_create_matching_question.
  apply (ends_bind 0 2); [by apply ends_same|intros d].
  apply (ends_bind 0 2); [apply ends_same; intros s; by destruct (free_index _ _)|intros i].
  unfold create_at.
  apply (ends_bind 0 2); [by apply ends_same|intros d'].
  apply (ends_bind 0 2); [apply ends_raising|intros row].
  apply (ends_bind 0 2); [|intros h; apply ends_fill_row].
  apply ends_same. intros s. unfold append_row. by destruct (last _).
Qed.

Lemma ends_init_questions pid problem qs :
  Js.get_prop "questions" problem = VArr qs →
  ends (added (2 * length qs)) (init_questions inner_html parse_html well_id pid problem).
Proof.
  intros Hqs. unfold init_questions. rewrite Hqs. intros s s' a Hrun.
  change (for_each qs (studio_create_matching_question inner_html parse_html well_id pid) s
          = (s', Done a)) in Hrun.
  revert Hrun. apply ends_for_each. intros q. apply ends_create.
Qed.

Lemma ends_init well pid problem qs :
  Js.get_prop "questions" problem = VArr qs →
  ends (added (3 + 2 * length qs))
    (studio_init_template_matching inner_html parse_html well_id well pid problem).
Proof.
  intros Hqs. unfold studio_init_template_matching.
  apply (ends_bind 0 (3 + 2 * length qs)); [apply ends_init_checkbox|intros _].
  apply (ends_bind 0 (3 + 2 * length qs)); [apply ends_init_checkbox|intros _].
  apply (ends_bind 3 (2 * length qs)); [apply ends_init_feedback|intros _].
  by apply ends_init_questions.
Qed.

End Create.
End CountFacts.

(** ** The scripts end *)

Module HaltFacts.
Import View.

Lemma halts_bind {A B} (m : M A) (f : A → M B) :
  halts m → (∀ a, halts (f a)) → halts (m ≫= f).
Proof.
  intros Hm Hf s. unfold mbind, M_bind. specialize (Hm s).
  destruct (m s) as [s1 [a| |]]; [apply Hf|done..].
Qed.

Lemma halts_raising {A} (o : option A) : halts (raising o).
Proof. by destruct o. Qed.

Lemma halts_for_each {A} (l : list A) (f : A → M unit) :
  (∀ a, halts (f a)) → halts (for_each l f).
Proof. intros Hf. induction l as [|a l IH]; [done|]. by apply halts_bind. Qed.

Lemma halts_editor target x : halts (e ← registerCodeEditor target "rst" 1; setValue e x).
Proof. intros s. unfold mbind, M_bind. by destruct target. Qed.

Lemma halts_editor_in_row sel h x : halts (editor_in_row sel h x).
Proof. apply halts_bind; [done|]. intros d. apply halts_editor. Qed.

Lemma halts_field_or_empty data name : halts (field_or_empty data name).
Proof. intros s. rewrite field_or_empty_run. by destruct (Js.has_key _ _). Qed.

Lemma halts_val_in_row sel h x : halts (val_in_row sel h x).
Proof. intros s. by destruct h. Qed.

Lemma halts_fill_row question_data h : halts (fill_row question_data h).
Proof.
  unfold fill_row.
  apply halts_bind; [apply halts_raising|intros hq].
  apply halts_bind; [destruct hq; [apply halts_val_in_row|done]|intros h1].
  apply halts_bind; [apply halts_raising|intros ha].
  apply halts_bind; [destruct ha; [apply halts_val_in_row|done]|intros h2].
  apply halts_bind; [apply halts_field_or_empty|intros sf].
  apply halts_bind; [apply halts_field_or_empty|intros ef].
  apply halts_bind; [apply halts_editor_in_row|intros _].
  apply halts_editor_in_row.
Qed.

Lemma halts_init_feedback pid problem : halts (init_feedback pid problem).
Proof.
  unfold init_feedback.
  apply halts_bind; [apply halts_field_or_empty|intros x1].
  apply halts_bind; [apply halts_field_or_empty|intros x2].
  apply halts_bind; [apply halts_field_or_empty|intros x3].
  apply halts_bind; [|intros _; apply halts_bind; [|intros _]];
    (apply halts_bind; [done|intros d; apply halts_editor]).
Qed.

Section Create.
Variable inner_html : list node → string.
Variable parse_html : string → list node.
Variable well_id : string → string.

Lemma halts_create_at pid question_data well index :
  halts (create_at inner_html parse_html pid question_data well index).
Proof.
  unfold create_at.
  apply halts_bind; [done|intros d].
  apply halts_bind; [apply halts_raising|intros row].
  apply halts_bind; [|intros h; apply halts_fill_row].
  intros s. unfold append_row. by destruct (last _).
Qed.

(** The index scan ends, so a creation does. *)
Lemma halts_create pid question_data :
  halts (studio_create_matching_question inner_html parse_html well_id pid question_data).
Proof.
  intros s.
  destruct (create_unfold inner_html parse_html well_id pid question_data s) as (i&_&->).
  apply halts_create_at.
Qed.

Lemma halts_init well pid problem :
  halts (studio_init_template_matching inner_html parse_html well_id well pid problem).
Proof.
  unfold studio_init_template_matching.
  apply halts_bind; [|intros _].
  { intros s. rewrite init_checkbox_run. by destruct (Js.has_key _ _). }
  apply halts_bind; [|intros _].
  { intros s. rewrite init_checkbox_run. by destruct (Js.has_key _ _). }
  apply halts_bind; [apply halts_init_feedback|intros _].
  unfold init_questions. apply halts_bind; [apply halts_raising|intros qs].
  apply halts_for_each. intros q. apply halts_create.
Qed.

End Create.
End HaltFacts.

(** ** Removal, in document order *)

Module DeleteFacts.
Import View.

Lemma remove_at_snoc t n d : remove_at (t ++ [n]) d = alter_at (drop_kid n) t d.
Proof.
  revert d. induction t as [|i t IH]; intros d.
  - by destruct d.
  - destruct d as [x|tg a v ks]; cbn [app].
    + simpl. by case_match.
    + cbn [alter_at]. trans (Elem tg a v (alter (remove_at (t ++ [n])) i ks)).
      { by destruct t. }
      f_equal. apply list_alter_ext; [|done]. intros k _. apply IH.
Qed.

Lemma delete_snoc {A} (l : list A) x : delete (length l) (l ++ [x]) = l.
Proof. induction l; simpl; by f_equal. Qed.

(** Removing the row that was appended and filled gives the document back. *)
Lemma remove_appended f k t d tg a v ks :
  get t d = Some (Elem tg a v ks) →
  remove_at (t ++ [length ks]) (alter_at f (t ++ [length ks]) (alter_at (add_kid k) t d)) = d.
Proof.
  intros Ht. rewrite remove_at_snoc, alter_at_app, !alter_at_compose.
  rewrite <-(alter_at_id t d) at 2. apply alter_at_ext_at. intros m Hm. simplify_eq.
  cbn. by rewrite alter_snoc, delete_snoc.
Qed.

Lemma kids_paths_nil f i ks : Forall (λ k, f k = []) ks → kids_paths f i ks = [].
Proof.
  intros H. revert i. induction H as [|k ks Hk _ IH]; intros i; [done|]. simpl.
  by rewrite Hk, IH.
Qed.

Lemma kids_paths_nil_inv f i ks : kids_paths f i ks = [] → Forall (λ k, f k = []) ks.
Proof.
  revert i. induction ks as [|k ks IH]; intros i; [done|]. simpl.
  intros [Hk Hks]%app_eq_nil. constructor; [by destruct (f k)|by eapply IH].
Qed.

(** What is selected after an append to a document in which nothing was:
    what the new child brings. *)
Lemma all_add_kid_fresh s k t d tg a v ks :
  get t d = Some (Elem tg a v ks) → all s d = [] →
  all s (alter_at (add_kid k) t d) = ((t ++ [length ks]) ++.) <$> all s k.
Proof.
  revert d. induction t as [|i t IH]; intros d Ht Hnone.
  - cbn in Ht. simplify_eq. cbn [alter_at add_kid]. rewrite all_unfold in Hnone |- *.
    apply app_eq_nil in Hnone as [Hroot Hkids]. unfold descendants in *. cbn [kids_of] in *.
    replace (matches s (Elem tg a v (ks ++ [k]))) with (matches s (Elem tg a v ks)) by done.
    rewrite Hroot, kids_paths_app, Hkids. cbn. by rewrite app_nil_r.
  - destruct d as [x|tg' a' v' ks']; [done|]. cbn [get kids_of] in Ht.
    destruct (ks' !! i) as [ki|] eqn:Hi; [|done].
    cbn [alter_at]. rewrite all_unfold in Hnone |- *.
    apply app_eq_nil in Hnone as [Hroot Hkids]. unfold descendants in *. cbn [kids_of] in *.
    replace (matches s (Elem tg' a' v' (alter (alter_at (add_kid k) t) i ks')))
      with (matches s (Elem tg' a' v' ks')) by done.
    rewrite Hroot. cbn [app].
    apply kids_paths_nil_inv in Hkids.
    apply list_elem_of_split_length in Hi as (l1&l2&->&->).
    apply Forall_app in Hkids as [H1 [Hki H2]%Forall_cons].
    rewrite <-(Nat.add_0_r (length l1)) at 1. rewrite alter_app_r. cbn [alter].
    rewrite kids_paths_app. cbn. rewrite !kids_paths_nil by done.
    rewrite app_nil_r, (IH ki) by done. cbn.
    rewrite <-list_fmap_compose. by apply list_fmap_ext.
Qed.

(** *** The nodes in document order *)

Lemma flat_kids_middle (l1 l2 : list node) k :
  mjoin (flat <$> l1 ++ k :: l2) = mjoin (flat <$> l1) ++ flat k ++ mjoin (flat <$> l2).
Proof. by rewrite fmap_app, join_app. Qed.

Lemma alter_middle {A} (f : A → A) (l1 l2 : list A) x :
  alter f (length l1) (l1 ++ x :: l2) = l1 ++ f x :: l2.
Proof. induction l1; simpl; by f_equal. Qed.

(** Where nothing is selected, no node matches. *)
Lemma all_nil_flat s n : all s n = [] → Forall (λ m, matches s m = false) (flat n).
Proof.
  induction n as [x|t a v ks IH] using node_ind_kids; [by repeat constructor|].
  rewrite all_unfold. intros [Hroot Hkids]%app_eq_nil. cbn [flat]. constructor.
  { change (matches s (Elem t a v ks) = false). by destruct (matches s (Elem t a v ks)). }
  unfold descendants in Hkids. cbn [kids_of] in Hkids. apply kids_paths_nil_inv in Hkids.
  clear Hroot. induction IH as [|k ks Hk _ IHks]; [constructor|].
  apply Forall_cons in Hkids as [Hk0 Hks]. csimpl. apply Forall_app. auto.
Qed.

(** The first selected element lies in the child [k]: nothing is selected
    before that child, and the first of [k] is the one. *)
Lemma head_all_kid s t a v l1 k l2 q :
  head (all s (Elem t a v (l1 ++ k :: l2))) = Some (length l1 :: q) →
  matches s (Elem t a v (l1 ++ k :: l2)) = false ∧
  Forall (λ k', all s k' = []) l1 ∧ head (all s k) = Some q.
Proof.
  rewrite all_unfold. unfold descendants. cbn [kids_of].
  destruct (matches s (Elem t a v (l1 ++ k :: l2))); [done|]. cbn [app].
  rewrite kids_paths_app. intros Hhead. split; [done|].
  destruct (kids_paths (all s) 0 l1) as [|p ps] eqn:H1.
  - split; [by eapply kids_paths_nil_inv|]. cbn in Hhead.
    destruct (all s k) as [|q' qs]; cbn in Hhead; [|by simplify_eq].
    exfalso. destruct (kids_paths (all s) (S (length l1)) l2) as [|p ps] eqn:H2; [done|].
    assert (p ∈ kids_paths (all s) (S (length l1)) l2) as Hp by (rewrite H2; left).
    apply elem_of_kids_paths in Hp as (j&?&?&_&_&->). cbn in Hhead. simplify_eq. lia.
  - exfalso. assert (p ∈ kids_paths (all s) 0 l1) as Hp by (rewrite H1; left).
    apply elem_of_kids_paths in Hp as (j&?&?&Hj%lookup_lt_Some&_&->). cbn in Hhead.
    simplify_eq. lia.
Qed.

(** Removing a subtree removes its nodes from the document order, and
    nothing else; before the first selected element no node matches. *)
Lemma flat_remove_at r d row :
  r ≠ [] → get r d = Some row →
  ∃ before after,
    flat d = before ++ flat row ++ after ∧
    flat (remove_at r d) = before ++ after ∧
    ∀ s, head (all s d) = Some r → Forall (λ m, matches s m = false) before.
Proof.
  revert d. induction r as [|i r IH]; intros d Hr Hget; [done|].
  destruct d as [x|t a v ks]; [done|]. cbn [get kids_of] in Hget.
  destruct (ks !! i) as [k|] eqn:Hi; [|done].
  apply list_elem_of_split_length in Hi as (l1&l2&->&->).
  destruct r as [|j r].
  - cbn in Hget. simplify_eq. cbn [remove_at flat]. rewrite delete_middle.
    exists (Elem t a v [] :: mjoin (flat <$> l1)), (mjoin (flat <$> l2)). split_and!.
    + by rewrite flat_kids_middle.
    + by rewrite fmap_app, join_app.
    + intros s (Hroot&H1&_)%head_all_kid. constructor; [done|].
      clear -H1. induction H1 as [|k ks Hk _ IHks]; [constructor|]. csimpl.
      apply Forall_app. split; [by apply all_nil_flat|done].
  - destruct (IH k ltac:(done) Hget) as (before&after&Hflat&Hflat'&Hfirst).
    change (remove_at (length l1 :: j :: r) (Elem t a v (l1 ++ k :: l2)))
      with (Elem t a v (alter (remove_at (j :: r)) (length l1) (l1 ++ k :: l2))).
    rewrite alter_middle. cbn [flat]. rewrite !flat_kids_middle, Hflat, Hflat'.
    exists (Elem t a v [] :: mjoin (flat <$> l1) ++ before), (after ++ mjoin (flat <$> l2)).
    split_and!.
    + cbn [app]. f_equal. by rewrite <-!(assoc_L (++)).
    + cbn [app]. f_equal. by rewrite <-!(assoc_L (++)).
    + intros s (Hroot&H1&Hk)%head_all_kid. constructor; [done|].
      apply Forall_app. split; [|by apply Hfirst].
      clear -H1. induction H1 as [|k' ks Hk' _ IHks]; [constructor|]. csimpl.
      apply Forall_app. split; [by apply all_nil_flat|done].
Qed.

Lemma matches_by_id_false id m : matches (ById id) m = false → id_of m ≠ Some id.
Proof. destruct m; [done|]. simpl. by intros ?%bool_decide_eq_false. Qed.

Lemma delete_run pid question s :
  studio_delete_matching_question pid question s
  = (State (Jq.detach (Jq.by_id (row_id pid question) (dom s)) (dom s)) (editors s), Done ()).
Proof. done. Qed.

End DeleteFacts.

(** ** Tokens and ids *)

Module TokenFacts.
Import Str.

(** Where the pattern does not occur, a replacement changes nothing. *)
Lemma replace_all_absent pat rep s : occurs_in pat s = false → replace_all pat rep s = s.
Proof.
  induction s as [|c s IH]; [done|]. cbn [occurs_in].
  intros [Hp Hs]%orb_false_elim. rewrite replace_all_skip by done. by rewrite IH.
Qed.

(** A piece of [q] at the head of the result of replacing another pattern
    was at the head of the input, when [rep] shares no character with [q]. *)
Lemma prefix_replace_other pat rep q0 q s :
  pat ≠ "" → apart q0 rep → (∀ c, c ∈ chars q → c ∈ chars q0) →
  prefix q (replace_all pat rep s) = true → prefix q s = true.
Proof.
  intros Hpat Hap. revert s. induction q as [|a q IH]; intros s Hq Hp; [done|].
  destruct s as [|c s]; [done|].
  destruct (prefix pat (String c s)) eqn:Hm.
  - rewrite replace_all_match in Hp by done.
    by rewrite (prefix_app_apart q0 rep) in Hp.
  - rewrite replace_all_skip in Hp by done. simpl in *.
    case_decide; [|done]. apply IH; [|done]. intros c' ?. apply Hq. by right.
Qed.

(** Replacing one pattern by such a [rep] does not make [q] occur. *)
Lemma occurs_in_replace_go_other q pat rep k s :
  pat ≠ "" → q ≠ "" → apart q rep →
  occurs_in q s = false → occurs_in q (replace_go pat rep k s) = false.
Proof.
  intros Hpat Hq Hap. revert k. induction s as [|c s IH]; intros k Hs.
  - destruct k; simpl; by destruct q.
  - cbn [occurs_in] in Hs. apply orb_false_elim in Hs as [Hhead Hs].
    destruct k as [|k]; [|by apply IH]. cbn [replace_go].
    destruct (prefix pat (String c s)) eqn:Hm.
    + rewrite occurs_in_app_apart; [by apply IH|done..|apply Hap].
    + cbn [occurs_in]. rewrite IH, orb_false_r by done.
      destruct (prefix q (String c (replace_go pat rep 0 s))) eqn:Hp; [|done].
      change (replace_go pat rep 0 s) with (replace_all pat rep s) in Hp.
      rewrite <-(replace_all_skip pat rep) in Hp by done.
      apply (prefix_replace_other pat rep q) in Hp; [congruence|done..].
Qed.

Lemma pretty_nat_head (n : nat) : ∃ c rest, pretty n = String c rest ∧ digit c.
Proof.
  pose proof (pretty_nat_nonempty n) as Hne. pose proof (pretty_nat_digits n) as Hd.
  destruct (pretty n) as [|c rest]; [done|]. exists c, rest. split; [done|].
  by apply Forall_cons in Hd as [? _].
Qed.

(** The id of a row is no id the index scan looks for, for a problem whose
    identifier does not begin with a digit. *)
Lemma lookup_id_row_id pid i j :
  (∀ c rest, pid = String c rest → ¬ digit c) → lookup_id pid i ≠ row_id pid j.
Proof.
  intros Hpid H. unfold lookup_id, row_id in H. apply (inj _) in H.
  destruct (pretty_nat_head j) as (c&rest&Hj&Hc). rewrite Hj in H.
  destruct pid as [|c' pid].
  - change ("-" +:+ pretty i) with (String "-" (pretty i)) in H. cbn in H.
    simplify_eq. by destruct Hc.
  - cbn in H. simplify_eq. by eapply Hpid.
Qed.

End TokenFacts.

(** ** Loading twice, loading another field *)

Module ReloadFacts.

(** Two trees with the same nodes at the same paths are the same tree. *)
Lemma node_ext x y : (∀ p, own <$> get p x = own <$> get p y) → x = y.
Proof.
  revert y. induction x as [s|t a v ks IH] using node_ind_kids; intros y H.
  - specialize (H []). destruct y; by simplify_eq/=.
  - pose proof (H []) as Hroot. destruct y as [s|t' a' v' ks']; simplify_eq/=.
    f_equal. apply list_eq. intros i. rewrite Forall_lookup in IH.
    pose proof (H [i]) as Hi. cbn in Hi.
    destruct (ks !! i) as [k|] eqn:Hk, (ks' !! i) as [k'|] eqn:Hk'; simplify_eq/=; [|done].
    f_equal. apply (IH _ _ Hk). intros q. specialize (H (i :: q)). cbn in H.
    by rewrite Hk, Hk' in H.
Qed.

(** Loading the same entries a second time changes nothing. *)
Lemma load_all_idem key es d :
  NoDup es.*1 → load_all key es (load_all key es d) = load_all key es d.
Proof.
  intros Hnd. apply node_ext. intros p.
  assert (∀ i, controls key i (load_all key es d) = controls key i d) as Hsame.
  { intros i. apply controls_same, strip_load_all. }
  destruct (decide (Exists (λ e, p ∈ controls key e.1 d) es)) as [Hin|Hout].
  - apply Exists_exists in Hin as ([i x]&Hix&Hp). cbn in Hp.
    rewrite (load_all_set key es _ i x p) by (by rewrite ?Hsame).
    rewrite (load_all_set key es d i x p) by done.
    destruct (get p d) as [m|]; [|done]. cbn. by rewrite set_val_set_val.
  - apply load_all_frame. intros e He Hp. apply Hout, Exists_exists. exists e.
    by rewrite Hsame in Hp.
Qed.

(** The run of [load_input_matching], case by case. *)
Lemma load_input_unfold submissionid key input s :
  load_input_matching submissionid key input s
  = match Js.has_key key input with
    | None => (s, Thrown)
    | Some false => (s, Done ())
    | Some true =>
        match Js.entries (Js.get_prop key input) with
        | None => (s, Thrown)
        | Some es => (State (load_all key es (dom s)) (editors s), Done ())
        end
    end.
Proof.
  unfold load_input_matching, mbind, M_bind.
  destruct (Js.has_key key input) as [[]|]; [|done..]. cbn.
  destruct (Js.entries (Js.get_prop key input)) as [es|]; [|done]. cbn.
  rewrite <-(state_eta s) at 1. apply for_each_load.
Qed.

Lemma entries_NoDup v es : Js.entries v = Some es → NoDup es.*1.
Proof.
  destruct v; try done. intros [= <-]. rewrite entries_fst. apply NoDup_seq.
Qed.

Lemma chars_app s1 s2 : Str.chars (s1 +:+ s2) = Str.chars s1 ++ Str.chars s2.
Proof. induction s1; simpl; by f_equal. Qed.

Lemma underscore_not_in_index s1 s2 (i : nat) : pretty i ≠ s1 +:+ "_" +:+ s2.
Proof.
  intros H. pose proof (pretty_nat_digits i) as Hd. rewrite H, chars_app in Hd.
  apply Forall_app in Hd as [_ Hd]. apply Forall_cons in Hd as [[n Hn] _]. done.
Qed.

(** The id of a control tells its field and its position. *)
Lemma control_id_inj key key' (i j : nat) :
  key +:+ "_" +:+ pretty i = key' +:+ "_" +:+ pretty j → key = key' ∧ i = j.
Proof.
  revert key'. induction key as [|c key IH]; intros [|c' key'] H.
  - split; [done|]. by repeat (apply (inj _) in H).
  - exfalso. change ("" +:+ "_" +:+ pretty i) with (String "_" (pretty i)) in H.
    change (String c' key' +:+ "_" +:+ pretty j)
      with (String c' (key' +:+ "_" +:+ pretty j)) in H.
    simplify_eq. by eapply underscore_not_in_index.
  - exfalso. change ("" +:+ "_" +:+ pretty j) with (String "_" (pretty j)) in H.
    change (String c key +:+ "_" +:+ pretty i)
      with (String c (key +:+ "_" +:+ pretty i)) in H.
    simplify_eq. by eapply underscore_not_in_index.
  - change (String c key +:+ "_" +:+ pretty i)
      with (String c (key +:+ "_" +:+ pretty i)) in H.
    change (String c' key' +:+ "_" +:+ pretty j)
      with (String c' (key' +:+ "_" +:+ pretty j)) in H.
    simplify_eq. destruct (IH key') as [-> ->]; done.
Qed.

(** The controls of two fields are different elements. *)
Lemma controls_other key key' i j d p :
  p ∈ controls key i d → p ∈ controls key' j d → key = key'.
Proof.
  intros (m&Hm&Hi)%elem_of_controls (m'&Hm'&Hj)%elem_of_controls. simplify_eq.
  destruct m as [x|t a v ks]; [done|]. simpl in *.
  apply andb_true_iff in Hi as [_ Hi%bool_decide_eq_true].
  apply andb_true_iff in Hj as [_ Hj%bool_decide_eq_true].
  rewrite Hi in Hj. simplify_eq. by apply control_id_inj in Hj as [? _].
Qed.

End ReloadFacts.

Import AdditiveFacts InitFrameFacts CountFacts HaltFacts DeleteFacts TokenFacts ReloadFacts.

(** ** Creation of a question *)

(** X1.  When no element of the document has the id
    [subproblem_matching_questions], [studio_create_matching_question]
    raises an error and leaves the state as it was: the markup of the
    template is [undefined], and [replace] is called on it before anything
    is changed. *)
Theorem create_without_template
    (inner_html : list node → string) (parse_html : string → list node)
    (well_id : string → string) pid question_data s :
  all (ById template_id) (dom s) = [] →
  studio_create_matching_question inner_html parse_html well_id pid question_data s
  = (s, Thrown).
Proof.
  intros Hnone.
  destruct (create_unfold inner_html parse_html well_id pid question_data s) as (i&_&->).
  unfold create_at, mbind, M_bind, get_dom. cbn [dom].
  by rewrite template_markup_None.
Qed.

Lemma create_without_template_witness :
  Page.create "p1" (VObj []) (Page.start (Page.review ["q1_0"]))
  = (Page.start (Page.review ["q1_0"]), Thrown).
Proof.
  apply (create_without_template Markup.print_all Markup.parse Page.well_id "p1" (VObj [])
           (Page.start (Page.review ["q1_0"]))).
  vm_compute. reflexivity.
Defined.

(** X2.  When [question_data] is no object ([null], a number, a string:
    the test ["question" in question_data] raises), a creation on a panel
    with its template and one questions container [t] raises an error after
    the row was appended: the document is left with the new row, unfilled, as
    the last child of [t], and no editor was made. *)
Theorem create_from_primitive
    (inner_html : list node → string) (parse_html : string → list node)
    (well_id : string → string) pid question_data s i t tpl :
  Js.has_key "question" question_data = None →
  free_index pid (dom s) = Some i →
  template_markup inner_html (dom s) = Some tpl →
  Jq.find_id (studio_get_problem well_id pid (dom s)) ("questions-" +:+ pid) (dom s) = [t] →
  studio_create_matching_question inner_html parse_html well_id pid question_data s
  = (State (alter_at (add_kid (make_row parse_html pid i (new_row_content tpl pid i))) t (dom s))
       (editors s), Thrown).
Proof.
  intros Hq Hi Htpl Ht. destruct (find_id_singleton _ _ _ _ Ht) as (tg&a&v&ks&Hget).
  destruct (create_unfold inner_html parse_html well_id pid question_data s) as (i'&Hi'&->).
  simplify_eq. destruct s as [d eds]. cbn [dom editors] in *.
  rewrite (create_at_run _ _ _ _ _ _ _ _ tpl t tg a v ks) by done.
  unfold fill_row, mbind, M_bind. by rewrite Hq.
Qed.

Lemma create_from_primitive_witness :
  Page.create "p1" VNull (Page.start (Page.studio Page.marked_template []))
  = (State (alter_at (add_kid (Page.row Page.marked_template 0)) [0; 5]
              (Page.studio Page.marked_template [])) [], Thrown).
Proof.
  apply (create_from_primitive Markup.print_all Markup.parse Page.well_id "p1" VNull
           (Page.start (Page.studio Page.marked_template []))
           0 [0; 5] (Markup.print_all Page.marked_template)); vm_compute; reflexivity.
Defined.

(** X3.  When the panel has no questions container, or there is no
    panel, a creation leaves the document as it was, however it ends: the
    row is built and appended to nothing. *)
Theorem create_without_container
    (inner_html : list node → string) (parse_html : string → list node)
    (well_id : string → string) pid question_data s :
  Jq.find_id (studio_get_problem well_id pid (dom s)) ("questions-" +:+ pid) (dom s) = [] →
  dom (studio_create_matching_question inner_html parse_html well_id pid question_data s).1
  = dom s.
Proof.
  intros Hnone.
  destruct (create_unfold inner_html parse_html well_id pid question_data s) as (i&_&->).
  by apply create_at_loose.
Qed.

Lemma create_without_container_witness :
  dom (Page.create "p1" (VObj [("question", VStr "2+2")])
         (Page.start (Sample.template_only Page.marked_template))).1
  = Sample.template_only Page.marked_template.
Proof.
  apply (create_without_container Markup.print_all Markup.parse Page.well_id "p1"
           (VObj [("question", VStr "2+2")])
           (Page.start (Sample.template_only Page.marked_template))).
  vm_compute. reflexivity.
Defined.

(** X4.  However a creation ends, every node of the document is
    afterwards at the same path with the same tag, attributes and value, and
    the editors made before it are the first of the editors after it. *)
Theorem create_keeps_what_exists
    (inner_html : list node → string) (parse_html : string → list node)
    (well_id : string → string) pid question_data s :
  (∀ p, is_Some (get p (dom s)) →
     own <$> get p (dom (studio_create_matching_question inner_html parse_html well_id
                           pid question_data s).1)
     = own <$> get p (dom s)) ∧
  editors s `prefix_of`
    editors (studio_create_matching_question inner_html parse_html well_id
               pid question_data s).1.
Proof. apply create_adds. Qed.

(** X5.  For a problem identifier that does not begin with a digit,
    the id [question-{i}-{pid}] looked for by the index scan is never the id
    [question-{j}-{pid}] given to a row.  For the identifier that is the
    decimal form of [i], the two ids of index [i] are the same string. *)
Theorem lookup_id_is_not_row_id pid i j :
  ((∀ c rest, pid = String c rest → ¬ Str.digit c) → lookup_id pid i ≠ row_id pid j) ∧
  lookup_id (pretty i) i = row_id (pretty i) i.
Proof. split; [apply lookup_id_row_id|done]. Qed.

(** X6.  On a panel with its template and one questions container,
    when [pid] does not begin with a digit and the content built for the
    index [i] the scan gives has no element with the id
    [question-{pid}-{i}], the scan gives [i] again after the creation,
    however the creation ends: the next row gets the same id. *)
Theorem create_plain_row_keeps_index
    (inner_html : list node → string) (parse_html : string → list node)
    (well_id : string → string) pid question_data s i t tpl :
  (∀ c rest, pid = String c rest → ¬ Str.digit c) →
  free_index pid (dom s) = Some i →
  template_markup inner_html (dom s) = Some tpl →
  Jq.find_id (studio_get_problem well_id pid (dom s)) ("questions-" +:+ pid) (dom s) = [t] →
  Forall (λ k, all (ById (lookup_id pid i)) k = []) (parse_html (new_row_content tpl pid i)) →
  free_index pid
    (dom (studio_create_matching_question inner_html parse_html well_id
            pid question_data s).1)
  = Some i.
Proof.
  intros Hpid Hi Htpl Ht Hplain. destruct (find_id_singleton _ _ _ _ Ht) as (tg&a&v&ks&Hget).
  destruct (create_unfold inner_html parse_html well_id pid question_data s) as (i'&Hi'&->).
  simplify_eq. destruct s as [d eds]. cbn [dom] in *.
  rewrite (create_at_run _ _ _ _ _ _ _ _ tpl t tg a v ks) by done.
  set (row := make_row parse_html pid i (new_row_content tpl pid i)).
  destruct (fill_row_fills question_data (Attached (t ++ [length ks]))
              (State (alter_at (add_kid row) t d) eds)) as [Hstrip _].
  cbn [dom] in Hstrip.
  assert (∀ sel, all sel (dom (fill_row question_data (Attached (t ++ [length ks]))
                                 (State (alter_at (add_kid row) t d) eds)).1) ≠ []
                 ↔ all sel d ≠ [] ∨ all sel row ≠ []) as Hall.
  { intros sel. rewrite <-all_strip, Hstrip, all_strip.
    by apply (all_add_kid_nonempty _ _ _ _ tg a v ks). }
  assert (all (ById (lookup_id pid i)) row = []) as Hrow.
  { rewrite all_unfold. unfold descendants. cbn [row make_row matches kids_of].
    rewrite bool_decide_false, kids_paths_nil; [done|done|].
    intros H%(inj Some). symmetry in H. by eapply lookup_id_row_id. }
  unfold free_index in Hi. apply scan_index_Some in Hi as (_&Hfree&Hleast).
  apply free_index_unique.
  - destruct (all _ (dom _)) eqn:Hd'; [done|]. exfalso.
    assert (all (ById (lookup_id pid i)) d ≠ [] ∨ all (ById (lookup_id pid i)) row ≠ [])
      as [?|?]; [|done..]. apply Hall. by rewrite Hd'.
  - intros j Hj. apply Hall. left. apply Hleast. lia.
Qed.

Lemma create_plain_row_keeps_index_witness :
  free_index "p1"
    (dom (Page.create "p1" (VObj []) (Page.start (Page.studio Page.plain_template []))).1)
  = Some 0.
Proof.
  apply (create_plain_row_keeps_index Markup.print_all Markup.parse Page.well_id "p1" (VObj [])
           (Page.start (Page.studio Page.plain_template []))
           0 [0; 5] (Markup.print_all Page.plain_template)).
  - intros c rest [= <- <-] [n Hn]. discriminate Hn.
  - vm_compute. reflexivity.
  - vm_compute. reflexivity.
  - vm_compute. reflexivity.
  - apply (bool_decide_unpack _). vm_compute. exact I.
Defined.

(** X7.  The index scan ends, on an index that is at most the number of
    elements of the document. *)
Theorem free_index_bounded pid d :
  ∃ i, free_index pid d = Some i ∧ i ≤ size d.
Proof.
  destruct (free_index_least pid d) as (i&Hi&_&Hleast). exists i. split; [done|].
  destruct (free_index_exists pid d) as (j&Hj&Hfree).
  destruct (decide (i ≤ j)) as [|Hlt]; [lia|]. destruct (Hleast j); [lia|done].
Qed.

(** X8.  Neither a creation nor the initialization runs for ever: from
    every state each of them ends normally or raises an error. *)
Theorem studio_scripts_end
    (inner_html : list node → string) (parse_html : string → list node)
    (well_id : string → string) well pid problem question_data s :
  (studio_create_matching_question inner_html parse_html well_id pid question_data s).2
  ≠ Diverged ∧
  (studio_init_template_matching inner_html parse_html well_id well pid problem s).2
  ≠ Diverged.
Proof. split; [apply halts_create|apply halts_init]. Qed.

(** X9.  A template markup in which neither [PID] nor [QUESTION]
    occurs is the markup of every row, unchanged. *)
Theorem new_row_content_without_tokens row pid index :
  Str.occurs_in "PID" row = false → Str.occurs_in "QUESTION" row = false →
  new_row_content row pid index = row.
Proof.
  intros Hpid Hq. unfold new_row_content. by rewrite (replace_all_absent "PID"), replace_all_absent.
Qed.

Lemma new_row_content_without_tokens_witness :
  new_row_content "<input class=x>" "p1" 4 = "<input class=x>".
Proof.
  apply (new_row_content_without_tokens "<input class=x>" "p1" 4); reflexivity.
Defined.

(** X10.  When [pid] is not empty and has none of the characters [P],
    [I] and [D] (and no [$], which [replace] reads as a pattern), no
    occurrence of [PID] is left in the markup of a row: the first replacement
    removes them all, and the second, by the digits of the index, makes
    none. *)
Theorem new_row_content_no_pid_left row pid index :
  Str.apart "PID" pid → "$"%char ∉ Str.chars pid →
  Str.occurs_in "PID" (new_row_content row pid index) = false.
Proof.
  intros Hap _. unfold new_row_content. apply occurs_in_replace_go_other; [done..| |].
  - apply apart_pretty. by repeat constructor.
  - by apply occurs_in_replace_all.
Qed.

Lemma new_row_content_no_pid_left_witness :
  Str.occurs_in "PID" (new_row_content "<input id=question-PID-QUESTION name=PID>" "p1" 4)
  = false.
Proof.
  apply (new_row_content_no_pid_left _ "p1" 4).
  - split; [discriminate|].
    apply (Forall_forall (λ c, c ∉ Str.chars "PID") (Str.chars "p1")).
    apply (bool_decide_unpack _). vm_compute. exact I.
  - apply (bool_decide_unpack _). vm_compute. exact I.
Defined.

(** ** Deletion of a question *)

(** X11.  When the first element of the document with the id
    [question-{question}-{pid}] is at the path [r], below the root, the
    deletion ends normally and removes the nodes of the subtree at [r], which
    follow each other in document order, and no other node; no node before
    them has the id, and the editors are left as they were. *)
Theorem delete_removes_first_bearer pid question s r :
  Jq.by_id (row_id pid question) (dom s) = [r] → r ≠ [] →
  ∃ row before after,
    get r (dom s) = Some row ∧ id_of row = Some (row_id pid question) ∧
    flat (dom s) = before ++ flat row ++ after ∧
    Forall (λ m, id_of m ≠ Some (row_id pid question)) before ∧
    flat (dom (studio_delete_matching_question pid question s).1) = before ++ after ∧
    editors (studio_delete_matching_question pid question s).1 = editors s ∧
    (studio_delete_matching_question pid question s).2 = Done ().
Proof.
  intros Hr Hr0. rewrite delete_run, Hr. unfold Jq.detach. cbn [fst snd dom editors foldr].
  assert (head (all (ById (row_id pid question)) (dom s)) = Some r) as Hhead.
  { unfold Jq.by_id in Hr. by destruct (all _ (dom s)) as [|? ?]; simplify_eq/=. }
  assert (r ∈ all (ById (row_id pid question)) (dom s)) as (row&Hrow&Hs)%all_spec.
  { destruct (all _ (dom s)); simplify_eq/=. left. }
  destruct (flat_remove_at r (dom s) row Hr0 Hrow) as (before&after&Hflat&Hflat'&Hfirst).
  exists row, before, after. split_and!; try done.
  - by apply matches_by_id.
  - eapply Forall_impl; [by apply Hfirst|]. intros m. apply matches_by_id_false.
Qed.

Lemma delete_removes_first_bearer_witness :
  let s := Page.start (Page.studio Page.plain_template (Page.row Page.plain_template <$> [0; 0])) in
  ∃ row before after,
    get [0; 5; 0] (dom s) = Some row ∧ id_of row = Some (row_id "p1" 0) ∧
    View.flat (dom s) = before ++ View.flat row ++ after ∧
    Forall (λ m, id_of m ≠ Some (row_id "p1" 0)) before ∧
    View.flat (dom (studio_delete_matching_question "p1" 0 s).1) = before ++ after ∧
    editors (studio_delete_matching_question "p1" 0 s).1 = editors s ∧
    (studio_delete_matching_question "p1" 0 s).2 = Done ().
Proof.
  apply (delete_removes_first_bearer "p1" 0
           (Page.start (Page.studio Page.plain_template (Page.row Page.plain_template <$> [0; 0])))
           [0; 5; 0]); [reflexivity|discriminate].
Defined.

(** X12.  After the deletion of the first element with the id
    [question-{question}-{pid}], at the path [r]: when every element with the
    id was in the subtree at [r], a second deletion of the same row changes
    nothing; when an element with the id was outside it, an element with the
    id is still found. *)
Theorem delete_again pid question s r :
  Jq.by_id (row_id pid question) (dom s) = [r] → r ≠ [] →
  (Forall (λ p, r `prefix_of` p) (all (ById (row_id pid question)) (dom s)) →
     studio_delete_matching_question pid question
       (studio_delete_matching_question pid question s).1
     = ((studio_delete_matching_question pid question s).1, Done ())) ∧
  (Exists (λ p, ¬ r `prefix_of` p) (all (ById (row_id pid question)) (dom s)) →
     Jq.by_id (row_id pid question)
       (dom (studio_delete_matching_question pid question s).1) ≠ []).
Proof.
  intros Hr Hr0. rewrite (delete_run _ _ s), Hr. unfold Jq.detach. cbn [fst dom foldr]. split.
  - intros Hin. rewrite delete_run. unfold Jq.by_id. cbn [dom editors].
    by rewrite all_remove_at_nil.
  - intros Hout Hnone. apply (all_remove_at_cons _ _ _ Hr0) in Hout.
    unfold Jq.by_id in Hnone. by destruct (all _ (remove_at r (dom s))).
Qed.

Lemma delete_again_witness :
  let s := Page.start (Page.studio Page.plain_template (Page.row Page.plain_template <$> [0; 0])) in
  Exists (λ p, ¬ [0; 5; 0] `prefix_of` p) (all (ById (row_id "p1" 0)) (dom s)) ∧
  Jq.by_id (row_id "p1" 0) (dom (studio_delete_matching_question "p1" 0 s).1) ≠ [].
Proof.
  destruct (delete_again "p1" 0
              (Page.start (Page.studio Page.plain_template
                             (Page.row Page.plain_template <$> [0; 0])))
              [0; 5; 0]) as [_ H]; [reflexivity|discriminate|].
  split; [|apply H]; apply (bool_decide_unpack _); vm_compute; exact I.
Defined.

(** X13.  On a panel without an element of id [question-{i}-{pid}], a
    creation that chooses the index [i], followed by the deletion of the
    question [i], gives the document back as it was before the creation.
    The two editors of the row stay in the list of editors, on elements at
    paths the document does not have. *)
Theorem create_then_delete
    (inner_html : list node → string) (parse_html : string → list node)
    (well_id : string → string) pid fs s i t tpl e1 e2 :
  free_index pid (dom s) = Some i →
  template_markup inner_html (dom s) = Some tpl →
  Jq.find_id (studio_get_problem well_id pid (dom s)) ("questions-" +:+ pid) (dom s) = [t] →
  head (descendants (ByClass "subproblem_matching_success_feedback")
          (make_row parse_html pid i (new_row_content tpl pid i))) = Some e1 →
  head (descendants (ByClass "subproblem_matching_error_feedback")
          (make_row parse_html pid i (new_row_content tpl pid i))) = Some e2 →
  all (ById (row_id pid i)) (dom s) = [] →
  ∃ s1 n,
    studio_create_matching_question inner_html parse_html well_id pid (VObj fs) s
    = (s1, Done ()) ∧
    studio_delete_matching_question pid i s1 = (State (dom s) (editors s1), Done ()) ∧
    editors s1
    = editors s ++
      [Editor (InDoc (t ++ n :: e1)) "rst" 1 (Some (field_default (VObj fs) "success_feedback"));
       Editor (InDoc (t ++ n :: e2)) "rst" 1 (Some (field_default (VObj fs) "error_feedback"))] ∧
    get (t ++ [n]) (dom s) = None.
Proof.
  intros Hi Htpl Ht He1 He2 Hnone.
  destruct (find_id_singleton _ _ _ _ Ht) as (tg&a&v&ks&Hget).
  set (row := make_row parse_html pid i (new_row_content tpl pid i)) in *.
  destruct (create_unfold inner_html parse_html well_id pid (VObj fs) s) as (i'&Hi'&->).
  simplify_eq. destruct s as [d eds]. cbn [dom editors] in *.
  rewrite (create_at_run _ _ _ _ _ _ _ _ tpl t tg a v ks) by done. fold row.
  rewrite (fill_row_attached fs _ _ _ row e1 e2);
    [|by apply (get_appended _ _ _ tg a v)|done..].
  eexists _, (length ks). split; [done|]. cbn [dom editors]. split_and!.
  - rewrite delete_run. cbn [dom editors]. unfold Jq.by_id.
    rewrite all_alter_at
      by (intros; apply matches_fill_vals || apply descendants_fill_vals).
    rewrite (all_add_kid_fresh _ _ _ _ tg a v ks) by done.
    rewrite (all_unfold _ row). cbn [row make_row matches].
    rewrite bool_decide_true by done. cbn [app fmap list_fmap take].
    rewrite app_nil_r, take_0. unfold Jq.detach. cbn [foldr].
    by rewrite (remove_appended _ _ _ _ tg a v ks).
  - by rewrite <-!(assoc_L (++)).
  - rewrite get_app, Hget. cbn. by rewrite lookup_ge_None_2.
Qed.

Lemma create_then_delete_witness :
  ∃ s1 n,
    Page.create "p1" (VObj [("question", VStr "2+2")])
      (Page.start (Page.studio Page.marked_template []))
    = (s1, Done ()) ∧
    studio_delete_matching_question "p1" 0 s1
    = (State (Page.studio Page.marked_template []) (editors s1), Done ()) ∧
    editors s1
    = [] ++
      [Editor (InDoc ([0; 5] ++ n :: [2])) "rst" 1
         (Some (field_default (VObj [("question", VStr "2+2")]) "success_feedback"));
       Editor (InDoc ([0; 5] ++ n :: [3])) "rst" 1
         (Some (field_default (VObj [("question", VStr "2+2")]) "error_feedback"))] ∧
    get ([0; 5] ++ [n]) (Page.studio Page.marked_template []) = None.
Proof.
  apply (create_then_delete Markup.print_all Markup.parse Page.well_id "p1"
           [("question", VStr "2+2")]
           (Page.start (Page.studio Page.marked_template []))
           0 [0; 5] (Markup.print_all Page.marked_template) [2] [3]);
    vm_compute; reflexivity.
Defined.

(** ** Initialization *)

(** X14.  When [problem] is no object ([null], a number, a string: the
    test ["unshuffle" in problem] raises), the initialization raises an
    error and leaves the state as it was. *)
Theorem init_from_primitive
    (inner_html : list node → string) (parse_html : string → list node)
    (well_id : string → string) well pid problem s :
  Js.has_key "unshuffle" problem = None →
  studio_init_template_matching inner_html parse_html well_id well pid problem s
  = (s, Thrown).
Proof. intros H. by rewrite init_run, H. Qed.

Lemma init_from_primitive_witness :
  Page.init Page.well "p1" VNull (Page.start (Page.studio Page.marked_template []))
  = (Page.start (Page.studio Page.marked_template []), Thrown).
Proof.
  apply (init_from_primitive Markup.print_all Markup.parse Page.well_id Page.well "p1" VNull
           (Page.start (Page.studio Page.marked_template []))).
  reflexivity.
Defined.

(** X15.  However the initialization ends, every node of the
    document is afterwards at the same path with the same tag and value, and
    with the same attributes or with these and [checked]; the editors made
    before it are the first of the editors after it. *)
Theorem init_keeps_what_exists
    (inner_html : list node → string) (parse_html : string → list node)
    (well_id : string → string) well pid problem s :
  (∀ p, is_Some (get p (dom s)) →
     own <$> get p (dom (studio_init_template_matching inner_html parse_html well_id
                           well pid problem s).1)
     = own <$> get p (dom s) ∨
     own <$> get p (dom (studio_init_template_matching inner_html parse_html well_id
                           well pid problem s).1)
     = set_attr "checked" "checked" <$> (own <$> get p (dom s))) ∧
  editors s `prefix_of`
    editors (studio_init_template_matching inner_html parse_html well_id
               well pid problem s).1.
Proof.
  rewrite init_run.
  destruct (Js.has_key "unshuffle" problem) as [bu|]; [|by auto].
  destruct (Js.has_key "centralize" problem) as [bc|].
  2:{ split; [|done]. intros p _. apply check_box_twice. }
  match goal with |- context [(?m ?s0).1] =>
    destruct (init_rest_adds inner_html parse_html well_id pid problem s0) as [Hk He] end.
  split; [|done]. intros p Hp. cbn [dom] in Hk. rewrite Hk; [apply check_box_twice|].
  destruct Hp as [m Hm].
  destruct (check_box_twice well pid problem "unshuffle" "centralize" (dom s) p) as [H|H];
    rewrite Hm in H; by destruct (get p (check_box _ _ _ _ _)).
Qed.

(** X16.  When [problem.questions] is a sequence of [N] entries and the
    initialization ends normally, it has made [3 + 2 N] editors, after those
    there were, each in mode [rst], with one line, and given a value. *)
Theorem init_editor_count
    (inner_html : list node → string) (parse_html : string → list node)
    (well_id : string → string) well pid problem qs s s' :
  Js.get_prop "questions" problem = VArr qs →
  studio_init_template_matching inner_html parse_html well_id well pid problem s
  = (s', Done ()) →
  ∃ new, editors s' = editors s ++ new ∧ length new = 3 + 2 * length qs ∧
         Forall (λ e, ed_mode e = "rst" ∧ ed_lines e = 1%Z ∧ is_Some (ed_value e)) new.
Proof. intros Hqs Hrun. by eapply (ends_init _ _ _ _ _ _ _ Hqs). Qed.

Lemma init_editor_count_witness :
  ∃ new,
    editors (Page.init Page.well "p1"
               (VObj [("questions", VArr [VObj []; VObj [("answer", VStr "4")]])])
               (Page.start (Page.studio Page.marked_template []))).1
    = [] ++ new ∧
    length new = 3 + 2 * 2 ∧
    Forall (λ e, ed_mode e = "rst" ∧ ed_lines e = 1%Z ∧ is_Some (ed_value e)) new.
Proof.
  apply (init_editor_count Markup.print_all Markup.parse Page.well_id Page.well "p1"
           (VObj [("questions", VArr [VObj []; VObj [("answer", VStr "4")]])])
           [VObj []; VObj [("answer", VStr "4")]]
           (Page.start (Page.studio Page.marked_template []))); [reflexivity|].
  vm_compute. reflexivity.
Defined.

(** ** The task script *)

(** X17.  Loading the same payload a second time changes nothing:
    the second run ends as the first and leaves the state of the first. *)
Theorem load_input_matching_twice submissionid key input s :
  load_input_matching submissionid key input
    (load_input_matching submissionid key input s).1
  = load_input_matching submissionid key input s.
Proof.
  rewrite !load_input_unfold. destruct (Js.has_key key input) as [[]|]; [|done..].
  destruct (Js.entries (Js.get_prop key input)) as [es|] eqn:Hes; [|done]. cbn [fst dom editors].
  rewrite load_all_idem; [done|]. by eapply entries_NoDup.
Qed.

(** X18.  [load_input_matching] always ends.  When it raises an
    error it has changed nothing; however it ends, it leaves the editors as
    they were and changes no tag, attribute or child of the document. *)
Theorem load_input_matching_fails_clean submissionid key input s :
  (load_input_matching submissionid key input s).2 ≠ Diverged ∧
  ((load_input_matching submissionid key input s).2 = Thrown →
     (load_input_matching submissionid key input s).1 = s) ∧
  editors (load_input_matching submissionid key input s).1 = editors s ∧
  strip (dom (load_input_matching submissionid key input s).1) = strip (dom s).
Proof.
  rewrite load_input_unfold. destruct (Js.has_key key input) as [[]|]; [|done..].
  destruct (Js.entries (Js.get_prop key input)) as [es|]; [|done]. cbn.
  split_and!; [done..|]. apply strip_load_all.
Qed.

(** X19.  Loading the field [key] leaves what is their own (tag,
    attributes and value) to the controls of any other field [key']. *)
Theorem load_input_matching_other_field submissionid key key' input s j p :
  key ≠ key' → p ∈ controls key' j (dom s) →
  own <$> get p (dom (load_input_matching submissionid key input s).1)
  = own <$> get p (dom s).
Proof.
  intros Hne Hp. rewrite load_input_unfold.
  destruct (Js.has_key key input) as [[]|]; [|done..].
  destruct (Js.entries (Js.get_prop key input)) as [es|]; [|done]. cbn.
  apply load_all_frame. intros e _ He. destruct Hne. by eapply controls_other.
Qed.

Lemma load_input_matching_other_field_witness :
  own <$> get [0; 1]
    (dom (load_input_matching "sub1" "q1" (VObj [("q1", VArr [VStr "a"; VStr "b"])])
            (Page.start (Page.review ["q1_0"; "q2_0"; "q1_1"]))).1)
  = own <$> get [0; 1] (Page.review ["q1_0"; "q2_0"; "q1_1"]).
Proof.
  apply (load_input_matching_other_field "sub1" "q1" "q2"
           (VObj [("q1", VArr [VStr "a"; VStr "b"])])
           (Page.start (Page.review ["q1_0"; "q2_0"; "q1_1"])) 0 [0; 1]).
  - discriminate.
  - apply (bool_decide_unpack _). vm_compute. exact I.
Defined.

